(** * CityPulse (EcoSense): dashboard QA metrics, chart helpers and the ETL pipeline

    The TypeScript sources ([App.tsx], [components/DashboardCharts.tsx],
    [types.ts]) are embedded on binary64 numbers: a JavaScript [number] is a
    primitive float, [number | null] is [option float].

    [services/etl.py] itself is not among the sources; the pipeline is
    embedded from its description and the quoted code in [docs/PIPELINE.md]
    and the code-review notes, on exact rationals ([Q]); the tables hold
    them as their [DECIMAL] columns take them. *)

From Stdlib Require Import String Ascii DecimalString.
From Stdlib Require Import List ZArith QArith Qabs Qround Bool Lia Lqa Floats.
Import ListNotations.

Set Warnings "-inexact-float".

(* ===================================================================== *)
(** * JavaScript numbers *)
(* ===================================================================== *)

Module Js.

Local Open Scope float_scope.

(** An array length (or any count below 2^53) as a [number]. *)
Definition of_nat (n : nat) : float := of_uint63 (Uint63.of_Z (Z.of_nat n)).

(** An integer of magnitude below 2^63 as a [number]. *)
Definition of_Z (z : Z) : float :=
  match z with
  | Z0 => 0
  | Zpos _ => of_uint63 (Uint63.of_Z z)
  | Zneg p => - of_uint63 (Uint63.of_Z (Zpos p))
  end.

(** [ToBoolean] on a number: [0], [-0] and [NaN] are falsy. *)
Definition truthy (x : float) : bool := negb (is_zero x || is_nan x).

(** [Math.max(a, b)]: [NaN] wins, and [+0] is larger than [-0]. *)
Definition Math_max (a b : float) : float :=
  if is_nan a || is_nan b then nan
  else if a <? b then b
  else if b <? a then a
  else if get_sign a then b else a.

(** [floor (x + 1/2)] for the exact value of a finite float
    [(-1)^s * m * 2^e]. *)
Definition round_half_up (s : bool) (m : positive) (e : Z) : Z :=
  let v := if s then Zneg m else Zpos m in
  if (0 <=? e)%Z then (v * 2 ^ e)%Z
  else ((2 * v + 2 ^ (- e)) / 2 ^ (- e + 1))%Z.

(** [Math.round(x)]: the nearest integer, ties towards [+Infinity];
    the sign of a zero result is the sign of [x]. *)
Definition Math_round (x : float) : float :=
  match Prim2SF x with
  | S754_finite s m e =>
      if (0 <=? e)%Z then x
      else let n := round_half_up s m e in
           if (n =? 0)%Z then (if s then neg_zero else zero) else of_Z n
  | _ => x
  end.

Definition string_of_Z (z : Z) : string := NilZero.string_of_int (Z.to_int z).

(** [x.toFixed(0)] for [|x| < 1e21]: the integer [n] nearest to [x], the
    larger one on a tie; a negative [x] is printed as ["-"] followed by the
    digits for [-x].  For [|x| >= 1e21] JavaScript falls back to the
    exponent notation of [ToString], which is not embedded: [None]. *)
Definition toFixed0 (x : float) : option string :=
  match Prim2SF x with
  | S754_nan => Some "NaN"%string
  | S754_zero _ => Some "0"%string
  | S754_infinity _ => None
  | S754_finite s m e =>
      let n := round_half_up false m e in
      if (n <? 10 ^ 21)%Z
      then Some ((if s then "-" else "") ++ string_of_Z n)%string
      else None
  end.

End Js.

(* ===================================================================== *)
(** * [types.ts] *)
(* ===================================================================== *)

(** [interface UnifiedDataPoint]: the data point after the ETL process. *)
Record UnifiedDataPoint := {
  timestamp : string;
  displayTime : string;
  pm10 : option float;
  pm25 : option float;
  temperature : option float;
  windSpeed : option float;
  humidity : option float;
  predictedPM25 : option float
}.

(** [for (let i = start; i < stop; i++) body], threading the loop state. *)
Definition for_loop {A : Type} (start stop : nat) (body : nat -> A -> A) (init : A) : A :=
  fold_left (fun a i => body i a) (seq start (stop - start)) init.

(** [xs.reduce((acc, x, i) => f acc x i, init)]. *)
Fixpoint reduce_from {A B : Type} (f : B -> A -> nat -> B) (i : nat) (xs : list A) (acc : B) : B :=
  match xs with
  | [] => acc
  | x :: xs' => reduce_from f (S i) xs' (f acc x i)
  end.

Definition reduce {A B : Type} (f : B -> A -> nat -> B) (init : B) (xs : list A) : B :=
  reduce_from f 0 xs init.

(* ===================================================================== *)
(** * [App.tsx]: KPI and QA metrics ([stats]) *)
(* ===================================================================== *)

Module App.

Local Open Scope float_scope.

Definition is_null {A : Type} (v : option A) : bool :=
  match v with None => true | Some _ => false end.

(** [data.filter(d => d.pm25 === null).length] *)
Definition missingPM (data : list UnifiedDataPoint) : nat :=
  length (filter (fun d => is_null (pm25 d)) data).

(** [Math.max(0, 100 - (missingPM / data.length * 100)).toFixed(0)] *)
Definition qualityScore (data : list UnifiedDataPoint) : option string :=
  Js.toFixed0
    (Js.Math_max 0 (100 - (Js.of_nat (missingPM data) / Js.of_nat (length data) * 100))).

(** One iteration of the anomaly loop.  The state is the counter together
    with the divisors of the divisions evaluated so far.  [data[i - 1]] and
    [data[i]] are in range for [1 <= i < data.length]; elsewhere the state
    is left as it is. *)
Definition anomalyStep (data : list UnifiedDataPoint) (i : nat)
    (st : nat * list float) : nat * list float :=
  match nth_error data (i - 1), nth_error data i with
  | Some dp, Some dc =>
      match pm25 dp, pm25 dc with
      | Some prev, Some curr =>
          if 0 <? prev then
            let change := abs ((curr - prev) / prev) in
            (if 0.5 <? change then S (fst st) else fst st, snd st ++ [prev])
          else st
      | _, _ => st
      end
  | _, _ => st
  end.

Definition anomalyLoop (data : list UnifiedDataPoint) : nat * list float :=
  for_loop 1 (length data) (anomalyStep data) (0%nat, []).

(** [anomalyCount] after the loop. *)
Definition anomalyCount (data : list UnifiedDataPoint) : nat := fst (anomalyLoop data).

(** The divisors the loop divided by, in order. *)
Definition anomalyDivisors (data : list UnifiedDataPoint) : list float := snd (anomalyLoop data).

(** The QA fields of the object [stats] returns.  The fields that need
    [Date] parsing or locale formatting ([daysExceedingWHO], [totalDays],
    [missingPct], [timestampIssues]) are left out. *)
Record Stats := {
  current : UnifiedDataPoint;
  statsMissingPM : nat;
  statsQualityScore : option string;
  totalRows : nat;
  statsAnomalyCount : nat
}.

(** [const stats = useMemo(() => { if (data.length === 0) return null; ... })] *)
Definition stats (data : list UnifiedDataPoint) : option Stats :=
  match data with
  | [] => None
  | d0 :: _ =>
      Some {| current := last data d0;
              statsMissingPM := missingPM data;
              statsQualityScore := qualityScore data;
              totalRows := length data;
              statsAnomalyCount := anomalyCount data |}
  end.

End App.

(* ===================================================================== *)
(** * [components/DashboardCharts.tsx] *)
(* ===================================================================== *)

Module Charts.

Local Open Scope float_scope.

(** [y[i]] read as a number: an index out of range gives [undefined], which
    arithmetic turns into [NaN]. *)
Definition at_index (y : list float) (i : nat) : float :=
  match nth_error y i with Some v => v | None => nan end.

(** [function calculatePearsonCorrelation(x: number[], y: number[])] *)
Definition calculatePearsonCorrelation (x y : list float) : float :=
  let n := length x in
  if Nat.eqb n 0 then 0 else
  let n := Js.of_nat n in
  let sumX := reduce (fun a b _ => a + b) 0 x in
  let sumY := reduce (fun a b _ => a + b) 0 y in
  let sumXY := reduce (fun sum xi i => sum + xi * at_index y i) 0 x in
  let sumX2 := reduce (fun sum xi _ => sum + xi * xi) 0 x in
  let sumY2 := reduce (fun sum yi _ => sum + yi * yi) 0 y in
  let numerator := (n * sumXY) - (sumX * sumY) in
  let denominator := sqrt ((n * sumX2 - sumX * sumX) * (n * sumY2 - sumY * sumY)) in
  if denominator =? 0 then 0 else numerator / denominator.

(** [getRiskClass] of [RiskHeatmap]. *)
Definition getRiskClass (pm25 : option float) : string :=
  match pm25 with
  | None => "bg-slate-100 text-slate-300"
  | Some v =>
      if v <? 12 then "bg-emerald-100 text-emerald-700 border-emerald-200"
      else if v <? 35.5 then "bg-yellow-100 text-yellow-700 border-yellow-200"
      else if v <? 55.5 then "bg-orange-100 text-orange-700 border-orange-200"
      else "bg-red-100 text-red-700 border-red-200"
  end.

(** What a JSX expression puts into the cell: a string or a number. *)
Inductive jsx_child :=
| JsxText (s : string)
| JsxNumber (x : float).

(** [{d.pm25 ? Math.round(d.pm25) : '-'}] *)
Definition cellValue (d : UnifiedDataPoint) : jsx_child :=
  match pm25 d with
  | Some v => if Js.truthy v then JsxNumber (Js.Math_round v) else JsxText "-"
  | None => JsxText "-"
  end.

Record heatmap_cell := {
  className : string;
  cellChild : jsx_child
}.

Definition renderCell (d : UnifiedDataPoint) : heatmap_cell :=
  {| className := getRiskClass (pm25 d); cellChild := cellValue d |}.

(** [const recentData = [...data].reverse().slice(0, 48)] and the cells
    [recentData.map(...)] renders. *)
Definition RiskHeatmap (data : list UnifiedDataPoint) : list heatmap_cell :=
  map renderCell (firstn 48 (rev data)).

End Charts.

(* ===================================================================== *)
(** * The ETL pipeline ([services/etl.py], as described in [docs/PIPELINE.md]) *)
(* ===================================================================== *)

Module Etl.

Local Open Scope Q_scope.

(** The failures of spec section 7, and the errors PostgreSQL answers a
    statement with: a value that does not fit its [DECIMAL] column
    (SQLSTATE 22003), a string too long for its [VARCHAR] column (22001), a
    key that is in the table already (23505), and an
    [INSERT ... ON CONFLICT DO UPDATE] that meets one key twice (21000);
    last, the loader's query of a city's identifier that finds no row. *)
Inductive exception :=
| MalformedSourceData
| StorageUnavailable
| FetchFailed
| NumericValueOutOfRange
| StringDataRightTruncation
| UniqueViolation
| CardinalityViolation
| CityNotFound.

(** A call either returns or raises. *)
Inductive outcome (A : Type) :=
| Ok (a : A)
| Raise (e : exception).
Arguments Ok {A} a.
Arguments Raise {A} e.

(** Sequencing: the first call that raises ends the computation. *)
Definition bind {A B : Type} (x : outcome A) (f : A -> outcome B) : outcome B :=
  match x with
  | Ok a => f a
  | Raise e => Raise e
  end.

Notation "x <- e1 ;; e2" := (bind e1 (fun x => e2))
  (at level 61, e1 at next level, right associativity).

(** ** Fetched payloads ([types.ts]) *)

(** [OpenMeteoWeatherResponse.hourly]; a member the JSON payload lacks is
    [None]. *)
Record WeatherHourly := {
  w_time : option (list string);
  temperature_2m : option (list (option Q));
  relative_humidity_2m : option (list (option Q));
  wind_speed_10m : option (list (option Q))
}.

Record OpenMeteoWeatherResponse := { w_hourly : option WeatherHourly }.

(** [OpenMeteoAQResponse.hourly] *)
Record AQHourly := {
  aq_time : option (list string);
  aq_pm10 : option (list (option Q));
  pm2_5 : option (list (option Q))
}.

Record OpenMeteoAQResponse := { aq_hourly : option AQHourly }.

(** ** Rows *)

(** The weather facts of one timestamp. *)
Record weather_values := {
  w_temperature : option Q;
  w_humidity : option Q;
  w_wind_speed : option Q
}.

(** The air-quality sample of one timestamp, as fetched. *)
Record aq_sample := {
  s_pm10 : option Q;
  s_pm25 : option Q
}.

(** Aligned Row: the columns of the data frame. *)
Record row := {
  timestamp : Z;
  temperature : option Q;
  humidity : option Q;
  wind_speed : option Q;
  pm10 : option Q;
  pm25 : option Q;
  predicted_pm25 : option Q
}.

Definition set_pm (p10 p25 : option Q) (r : row) : row :=
  {| timestamp := timestamp r; temperature := temperature r; humidity := humidity r;
     wind_speed := wind_speed r; pm10 := p10; pm25 := p25;
     predicted_pm25 := predicted_pm25 r |}.

Definition set_predicted (p : option Q) (r : row) : row :=
  {| timestamp := timestamp r; temperature := temperature r; humidity := humidity r;
     wind_speed := wind_speed r; pm10 := pm10 r; pm25 := pm25 r;
     predicted_pm25 := p |}.

(** [all (map f xs)] when every element maps to [Some]. *)
Fixpoint traverse {A B : Type} (f : A -> option B) (xs : list A) : option (list B) :=
  match xs with
  | [] => Some []
  | x :: xs' =>
      match f x, traverse f xs' with
      | Some y, Some ys => Some (y :: ys)
      | _, _ => None
      end
  end.

Fixpoint zip3 {A B C : Type} (xs : list A) (ys : list B) (zs : list C) : list (A * B * C) :=
  match xs, ys, zs with
  | x :: xs', y :: ys', z :: zs' => (x, y, z) :: zip3 xs' ys' zs'
  | _, _, _ => []
  end.

(** [x < 0] on an exact decimal. *)
Definition is_negative (x : Q) : bool := (Qnum x <? 0)%Z.

(** Modelled from the spec: the Outlier Scrubber of section 4.2 (the data
    cleaning step 5 of [transform_data] in docs/PIPELINE.md), whose Python
    source is missing: a negative particulate value becomes null. *)
Definition scrub_value (v : option Q) : option Q :=
  match v with
  | Some x => if is_negative x then None else Some x
  | None => None
  end.

Definition scrub_row (r : row) : row :=
  set_pm (scrub_value (pm10 r)) (scrub_value (pm25 r)) r.

Definition scrub (rows : list row) : list row := map scrub_row rows.

(** The inner join on the timestamp, in the order of the weather
    collection. *)
Definition join (ws : list (Z * weather_values)) (qs : list (Z * aq_sample)) : list row :=
  flat_map
    (fun w =>
       map (fun q =>
              {| timestamp := fst w;
                 temperature := w_temperature (snd w);
                 humidity := w_humidity (snd w);
                 wind_speed := w_wind_speed (snd w);
                 pm10 := s_pm10 (snd q);
                 pm25 := s_pm25 (snd q);
                 predicted_pm25 := None |})
           (filter (fun q => (fst q =? fst w)%Z) qs))
    ws.

Definition is_empty {A : Type} (xs : list A) : bool :=
  match xs with [] => true | _ => false end.

Section Pipeline.

(** Parsing of the source's ISO-like timestamp string into an absolute
    instant ([pd.to_datetime]); [None] for a string that is no timestamp. *)
Variable to_datetime : string -> option Z.

(** scikit-learn's [LinearRegression]: [fit X y] and [predict]. *)
Variable model : Type.
Variable fit : list (Q * Q * Q) -> list Q -> model.
Variable predict : model -> Q * Q * Q -> Q.

(** Modelled from the spec: the conversion of the fetched array-of-columns
    payload (section 6) into the weather collection of section 4.1, whose
    Python source is missing.  A payload without the expected arrays, with
    arrays of different lengths (section 7) or with a [time] entry that is
    no timestamp is malformed. *)
Definition weather_series (w : OpenMeteoWeatherResponse) : outcome (list (Z * weather_values)) :=
  match w_hourly w with
  | None => Raise MalformedSourceData
  | Some h =>
      match w_time h, temperature_2m h, relative_humidity_2m h, wind_speed_10m h with
      | Some ts, Some te, Some hu, Some wi =>
          if Nat.eqb (length te) (length ts) && Nat.eqb (length hu) (length ts)
             && Nat.eqb (length wi) (length ts)
          then match traverse to_datetime ts with
               | Some instants =>
                   Ok (combine instants
                         (map (fun v => {| w_temperature := fst (fst v);
                                           w_humidity := snd (fst v);
                                           w_wind_speed := snd v |})
                              (zip3 te hu wi)))
               | None => Raise MalformedSourceData
               end
          else Raise MalformedSourceData
      | _, _, _, _ => Raise MalformedSourceData
      end
  end.

(** Modelled from the spec: the same conversion for the air-quality
    payload. *)
Definition aq_series (aq : OpenMeteoAQResponse) : outcome (list (Z * aq_sample)) :=
  match aq_hourly aq with
  | None => Raise MalformedSourceData
  | Some h =>
      match aq_time h, aq_pm10 h, pm2_5 h with
      | Some ts, Some p10, Some p25 =>
          if Nat.eqb (length p10) (length ts) && Nat.eqb (length p25) (length ts)
          then match traverse to_datetime ts with
               | Some instants =>
                   Ok (combine instants
                         (map (fun v => {| s_pm10 := fst v; s_pm25 := snd v |})
                              (combine p10 p25)))
               | None => Raise MalformedSourceData
               end
          else Raise MalformedSourceData
      | _, _, _ => Raise MalformedSourceData
      end
  end.

(** Modelled from the spec: the Series Aligner of section 4.1 (steps 1-4 of
    [transform_data] in docs/PIPELINE.md), whose Python source is missing.
    An empty or malformed collection is a [MalformedSourceData] failure;
    otherwise the two collections are joined on the timestamp. *)
Definition align (w : OpenMeteoWeatherResponse) (aq : OpenMeteoAQResponse) : outcome (list row) :=
  match weather_series w, aq_series aq with
  | Ok ws, Ok qs =>
      if is_empty ws || is_empty qs then Raise MalformedSourceData
      else Ok (join ws qs)
  | _, _ => Raise MalformedSourceData
  end.

(** [transform_data(w_data, aq_data)]: align, then clean. *)
Definition transform_data (w : OpenMeteoWeatherResponse) (aq : OpenMeteoAQResponse)
    : outcome (list row) :=
  match align w aq with
  | Ok rows => Ok (scrub rows)
  | Raise e => Raise e
  end.

(** ** Forecast Model: [train_and_predict_ml(df)] *)

(** A row [dropna(subset=['temperature', 'wind_speed', 'humidity', 'pm25'])]
    keeps. *)
Definition complete (r : row) : bool :=
  match temperature r, wind_speed r, humidity r, pm25 r with
  | Some _, Some _, Some _, Some _ => true
  | _, _, _, _ => false
  end.

Definition dropna (df : list row) : list row := filter complete df.

(** The non-null values of a column. *)
Definition values (col : row -> option Q) (df : list row) : list Q :=
  flat_map (fun r => match col r with Some x => [x] | None => [] end) df.

(** Modelled from the spec: a predictor's mean over the training subset
    (section 4.4, step 4), undefined on a column without values (step 5). *)
Definition mean (xs : list Q) : option Q :=
  match xs with
  | [] => None
  | _ => Some (fold_right Qplus 0 xs / inject_Z (Z.of_nat (length xs)))
  end.

Definition column_mean (col : row -> option Q) (df : list row) : option Q :=
  mean (values col df).

(** A missing predictor is replaced by the mean, if there is one. *)
Definition fillna (v m : option Q) : option Q :=
  match v with Some x => Some x | None => m end.

(** The predictors of a row after imputation; [None] when one is still
    missing. *)
Definition features (train_df : list row) (r : row) : option (Q * Q * Q) :=
  match fillna (temperature r) (column_mean temperature train_df),
        fillna (wind_speed r) (column_mean wind_speed train_df),
        fillna (humidity r) (column_mean humidity train_df) with
  | Some t, Some w, Some h => Some (t, w, h)
  | _, _, _ => None
  end.

(** The predictors (temperature, wind_speed, humidity) and the target
    (pm25) of the rows of the training subset. *)
Definition training_X (train_df : list row) : list (Q * Q * Q) :=
  flat_map (fun r => match temperature r, wind_speed r, humidity r with
                     | Some t, Some w, Some h => [(t, w, h)]
                     | _, _, _ => []
                     end) train_df.

Definition training_y (train_df : list row) : list Q := values pm25 train_df.

(** Rounding to the nearest integer, a tie to the even one. *)
Definition round_half_even (q : Q) : Z :=
  let n := Qfloor q in
  match Qcompare (q - inject_Z n) (1 # 2) with
  | Lt => n
  | Gt => (n + 1)%Z
  | Eq => if Z.even n then n else (n + 1)%Z
  end.

(** Modelled from the spec: rounding to 2 decimal places (section 4.4,
    step 4). *)
Definition round2 (q : Q) : Q := Qmake (round_half_even (q * 100)) 100.

(** The prediction for one row (section 4.4, steps 4 and 5): the rounded
    prediction from the imputed predictors, null for a row that cannot be
    imputed. *)
Definition forecast (m : model) (train_df : list row) (r : row) : option Q :=
  match features train_df r with
  | Some x => Some (round2 (predict m x))
  | None => None
  end.

(** Modelled from the spec: the Forecast Model of section 4.4.  Of
    [train_and_predict_ml] the code-review notes quote the head as it is
    now (the training subset, the check [len(train_df) < 10] and the return
    with [predicted_pm25 = None]); the rest of its body is missing and
    follows steps 3 to 5 of section 4.4, which docs/PIPELINE.md lists as
    well: fit on the training subset, impute each missing predictor with
    its mean over the training subset, predict for every row and round to 2
    decimal places. *)
Definition train_and_predict_ml (df : list row) : outcome (list row) :=
  let train_df := dropna df in
  if (length train_df <? 10)%nat then Ok (map (set_predicted None) df)
  else
    let m := fit (training_X train_df) (training_y train_df) in
    Ok (map (fun r => set_predicted (forecast m train_df r) r) df).

End Pipeline.

(** ** Storage: the star schema *)

(** An entry of the [CITIES] list. *)
Record City := {
  city_name : string;
  lat : Q;
  lng : Q;
  country : string
}.

(** A row of [dim_city]. *)
Record dim_city_row := {
  city_id : Z;
  name : string;
  country_code : string;
  latitude : Q;
  longitude : Q
}.

(** The air-quality facts of one timestamp. *)
Record aq_values := {
  a_pm10 : option Q;
  a_pm25 : option Q;
  a_predicted_pm25 : option Q
}.

(** [(city_id, timestamp)] *)
Definition key : Type := Z * Z.

Definition key_eqb (a b : key) : bool := (fst a =? fst b)%Z && (snd a =? snd b)%Z.

(** A fact table: its rows in insertion order, each with its
    [(city_id, timestamp)] and the columns the loader writes.  The surrogate
    key and [created_at], which no statement of the loader sets, are left
    out. *)
Definition table (V : Type) : Type := list (key * V).

Record database := {
  dim_city : list dim_city_row;
  fact_weather : table weather_values;
  fact_air_quality : table aq_values
}.

Definition empty_database : database :=
  {| dim_city := []; fact_weather := []; fact_air_quality := [] |}.

(** *** The column types *)

(** PostgreSQL rounds a [numeric] to the nearest, a tie away from zero. *)
Definition round_half_away (x : Q) : Z :=
  if Qle_bool 0 x then Qfloor (x + (1 # 2)) else (- Qfloor (- x + (1 # 2)))%Z.

(** The assignment of a value to a [DECIMAL(precision, scale)] column: the
    value is rounded to [scale] decimal places, and refused when the result
    needs more than [precision] digits. *)
Definition to_decimal (precision scale : Z) (x : Q) : outcome Q :=
  let n := round_half_away (x * inject_Z (10 ^ scale)) in
  if (Z.abs n <? 10 ^ precision)%Z then Ok (n # Z.to_pos (10 ^ scale))
  else Raise NumericValueOutOfRange.

(** A column that takes [NULL]. *)
Definition nullable (precision scale : Z) (v : option Q) : outcome (option Q) :=
  match v with
  | None => Ok None
  | Some x => y <- to_decimal precision scale x;; Ok (Some y)
  end.

(** A byte of a UTF-8 string that continues a character (10xxxxxx). *)
Definition is_continuation (a : ascii) : bool :=
  let n := nat_of_ascii a in (128 <=? n)%nat && (n <? 192)%nat.

(** The first [n] characters of a UTF-8 string, and the rest. *)
Fixpoint take_chars (n : nat) (s : string) : string * string :=
  match s with
  | EmptyString => (EmptyString, EmptyString)
  | String a s' =>
      if is_continuation a then
        let (h, t) := take_chars n s' in (String a h, t)
      else
        match n with
        | O => (EmptyString, s)
        | S n' => let (h, t) := take_chars n' s' in (String a h, t)
        end
  end.

Fixpoint all_spaces (s : string) : bool :=
  match s with
  | EmptyString => true
  | String a s' => Ascii.eqb a " " && all_spaces s'
  end.

(** The assignment of a string to a [VARCHAR(n)] column: a longer string is
    refused, unless the characters beyond the [n]-th are all spaces, which
    are cut off. *)
Definition varchar (n : nat) (s : string) : outcome string :=
  let (h, t) := take_chars n s in
  if all_spaces t then Ok h else Raise StringDataRightTruncation.

(** The columns of [fact_weather], [DECIMAL(5,2)] each. *)
Definition store_weather (v : weather_values) : outcome weather_values :=
  t <- nullable 5 2 (w_temperature v);;
  h <- nullable 5 2 (w_humidity v);;
  w <- nullable 5 2 (w_wind_speed v);;
  Ok {| w_temperature := t; w_humidity := h; w_wind_speed := w |}.

(** The columns of [fact_air_quality], [DECIMAL(6,2)] each. *)
Definition store_aq (v : aq_values) : outcome aq_values :=
  p10 <- nullable 6 2 (a_pm10 v);;
  p25 <- nullable 6 2 (a_pm25 v);;
  pr <- nullable 6 2 (a_predicted_pm25 v);;
  Ok {| a_pm10 := p10; a_pm25 := p25; a_predicted_pm25 := pr |}.

(** *** The statements *)

(** One row of [INSERT ... ON CONFLICT (city_id, timestamp) DO UPDATE
    SET ...], its values being of the columns' types already: the values of
    the row with this key are overwritten; the row is inserted if there is
    none. *)
Fixpoint upsert {V : Type} (k : key) (v : V) (t : table V) : table V :=
  match t with
  | [] => [(k, v)]
  | (k', v') :: t' =>
      if key_eqb k' k then (k', v) :: t' else (k', v') :: upsert k v t'
  end.

(** The rows of one [INSERT ... VALUES ... ON CONFLICT (city_id, timestamp)
    DO UPDATE SET ...], in order: the values of a row are assigned to the
    columns ([assign]), and the row is inserted or overwrites; a row whose
    key an earlier row of the same statement has inserted or overwritten
    ([affected]) is refused ("ON CONFLICT DO UPDATE command cannot affect
    row a second time"), and so is the statement. *)
Fixpoint insert_rows {V : Type} (assign : V -> outcome V) (affected : list key)
    (t : table V) (batch : list (key * V)) : outcome (table V) :=
  match batch with
  | [] => Ok t
  | (k, v) :: batch' =>
      v' <- assign v;;
      if existsb (key_eqb k) affected then Raise CardinalityViolation
      else insert_rows assign (k :: affected) (upsert k v' t) batch'
  end.

(** [_paginate(seq, page_size)] of [psycopg2.extras]: the rows in pages of
    [page_size] rows, the last one shorter when the rows do not fill it, and
    no page for no row.  [room] is the number of rows the page under way
    still takes, [page] what it holds. *)
Fixpoint paginate_from {A : Type} (page_size room : nat) (page seq : list A)
    : list (list A) :=
  match seq with
  | [] => match page with [] => [] | _ => [page] end
  | x :: seq' =>
      match room with
      | S (S r) => paginate_from page_size (S r) (page ++ [x]) seq'
      | _ => (page ++ [x]) :: paginate_from page_size page_size [] seq'
      end
  end.

Definition paginate {A : Type} (page_size : nat) (seq : list A) : list (list A) :=
  paginate_from page_size page_size [] seq.

(** One statement per page, in the order of the pages. *)
Fixpoint execute_pages {V : Type} (assign : V -> outcome V) (t : table V)
    (pages : list (list (key * V))) : outcome (table V) :=
  match pages with
  | [] => Ok t
  | page :: pages' => t' <- insert_rows assign [] t page;; execute_pages assign t' pages'
  end.

(** [execute_values(cur, sql, argslist, template=None, page_size=100)]: the
    statement is executed once per page of [page_size] rows (at least 1);
    it is docs/PIPELINE.md's "single statement for all rows" when one page
    holds them all. *)
Definition execute_values {V : Type} (assign : V -> outcome V) (page_size : nat)
    (t : table V) (batch : list (key * V)) : outcome (table V) :=
  execute_pages assign t (paginate page_size batch).

(** The page size of a call that names none, as the calls
    [execute_values(cur, insert_weather_query, weather_data)] and
    [execute_values(cur, insert_aq_query, aq_data)] that docs/PIPELINE.md
    quotes. *)
Definition default_page_size : nat := 100.

Fixpoint lookup {V : Type} (k : key) (t : table V) : option V :=
  match t with
  | [] => None
  | (k', v) :: t' => if key_eqb k' k then Some v else lookup k t'
  end.

Definition keys {V : Type} (t : table V) : list key := map fst t.

(** [SELECT city_id FROM dim_city WHERE name = ...] *)
Definition find_city (n : string) (cities : list dim_city_row) : option Z :=
  match find (fun c => String.eqb (name c) n) cities with
  | Some c => Some (city_id c)
  | None => None
  end.

(** Step 1 of [load_to_db] (docs/PIPELINE.md, Load): [INSERT INTO dim_city
    (name, country_code, latitude, longitude) VALUES ... ON CONFLICT (name)
    DO NOTHING RETURNING city_id], with the fallback query of the identifier
    when the insert returns none; the query is by the name as given, and
    without a row there is no identifier to load under.  [serial] is the identifier the sequence
    of [city_id SERIAL] hands out for this insert; it is spent whether or
    not the row is inserted.  The values are assigned to the columns
    ([VARCHAR(100)], [VARCHAR(5)], [DECIMAL(9,6)]) first; a new name under
    an identifier that is in the table already violates the primary key. *)
Definition upsert_city (serial : Z) (c : City) (cities : list dim_city_row)
    : outcome (list dim_city_row * Z) :=
  n <- varchar 100 (city_name c);;
  cc <- varchar 5 (country c);;
  la <- to_decimal 9 6 (lat c);;
  lo <- to_decimal 9 6 (lng c);;
  match find_city n cities with
  | Some _ =>
      match find_city (city_name c) cities with
      | Some id => Ok (cities, id)
      | None => Raise CityNotFound
      end
  | None =>
      if existsb (fun r => (city_id r =? serial)%Z) cities then Raise UniqueViolation
      else Ok (cities ++ [{| city_id := serial; name := n; country_code := cc;
                             latitude := la; longitude := lo |}], serial)
  end.

(** Step 2: the tuples of the two batches. *)
Definition weather_data (id : Z) (df : list row) : list (key * weather_values) :=
  map (fun r => ((id, timestamp r),
                 {| w_temperature := temperature r; w_humidity := humidity r;
                    w_wind_speed := wind_speed r |})) df.

Definition aq_data (id : Z) (df : list row) : list (key * aq_values) :=
  map (fun r => ((id, timestamp r),
                 {| a_pm10 := pm10 r; a_pm25 := pm25 r;
                    a_predicted_pm25 := predicted_pm25 r |})) df.

(** The effect of the statements of one [load_to_db] (docs/PIPELINE.md,
    Load, steps 1-4) when none is refused: the city upsert, then one batch
    per fact table. *)
Definition load (serial : Z) (d : database) (c : City) (df : list row) : outcome database :=
  ci <- upsert_city serial c (dim_city d);;
  w <- execute_values store_weather default_page_size (fact_weather d)
         (weather_data (snd ci) df);;
  a <- execute_values store_aq default_page_size (fact_air_quality d)
         (aq_data (snd ci) df);;
  Ok {| dim_city := fst ci; fact_weather := w; fact_air_quality := a |}.

(** ** The unit of work and [main] *)

(** The statements of one load, at which it can fail. *)
Inductive load_step :=
| UpsertCity
| InsertWeather
| InsertAirQuality
| Commit.

(** How a statement fails: the driver raises before the statement reaches
    the server, and the open transaction stays as it is; or the server
    rejects the statement, and the transaction is aborted: every later
    statement on the connection fails until a rollback. *)
Inductive failure :=
| BeforeSending
| OnServer.

(** A database connection: the committed state, the state as the open
    transaction of the connection sees it, and whether that transaction is
    aborted. *)
Record connection := {
  committed : database;
  pending : database;
  aborted : bool
}.

Definition connect (d : database) : connection :=
  {| committed := d; pending := d; aborted := false |}.

(** [conn.close()]: what was not committed is lost. *)
Definition close (conn : connection) : database := committed conn.

Definition load_step_eqb (a b : load_step) : bool :=
  match a, b with
  | UpsertCity, UpsertCity | InsertWeather, InsertWeather
  | InsertAirQuality, InsertAirQuality | Commit, Commit => true
  | _, _ => false
  end.

Definition fails_at (fault : option (load_step * failure)) (s : load_step) : bool :=
  match fault with Some f => load_step_eqb (fst f) s | None => false end.

Definition on_server (fault : option (load_step * failure)) : bool :=
  match fault with Some (_, OnServer) => true | _ => false end.

(** The connection after a statement raised: what the earlier statements
    wrote ([d]) stays on the open transaction. *)
Definition raised (conn : connection) (fault : option (load_step * failure)) (d : database)
    : connection * outcome unit :=
  ({| committed := committed conn; pending := d; aborted := on_server fault |},
   Raise StorageUnavailable).

(** The connection after the server refused a statement with the error
    [e]: the transaction is aborted. *)
Definition refused (conn : connection) (d : database) (e : exception)
    : connection * outcome unit :=
  ({| committed := committed conn; pending := d; aborted := true |}, Raise e).

(** [load_to_db(conn, df, city_name, lat, lng, country)] as the pipeline
    has it now (docs/PIPELINE.md: the statements of the Load section, the
    commit that ends the load, and, of the current error handling, "No
    rollback on partial failures"): a statement that fails raises, and
    nothing is rolled back.  [fault] is the statement at which the storage
    fails this load, if any, and how; [serial] is the identifier the
    sequence of [dim_city] hands out. *)
Definition load_to_db (fault : option (load_step * failure)) (conn : connection)
    (serial : Z) (df : list row) (c : City) : connection * outcome unit :=
  let d := pending conn in
  if aborted conn then (conn, Raise StorageUnavailable) else
  if fails_at fault UpsertCity then raised conn fault d else
  match upsert_city serial c (dim_city d) with
  | Raise e => refused conn d e
  | Ok (cities, id) =>
      let d1 := {| dim_city := cities; fact_weather := fact_weather d;
                   fact_air_quality := fact_air_quality d |} in
      if fails_at fault InsertWeather then raised conn fault d1 else
      match execute_values store_weather default_page_size (fact_weather d)
              (weather_data id df) with
      | Raise e => refused conn d1 e
      | Ok w =>
          let d2 := {| dim_city := cities; fact_weather := w;
                       fact_air_quality := fact_air_quality d |} in
          if fails_at fault InsertAirQuality then raised conn fault d2 else
          match execute_values store_aq default_page_size (fact_air_quality d)
                  (aq_data id df) with
          | Raise e => refused conn d2 e
          | Ok a =>
              let d3 := {| dim_city := cities; fact_weather := w;
                           fact_air_quality := a |} in
              if fails_at fault Commit then raised conn fault d3
              else ({| committed := d3; pending := d3; aborted := false |}, Ok tt)
          end
      end
  end.

(** What one iteration of [main] meets for its city: the result of
    [fetch_open_meteo_data], the storage failure of its load, if any, and
    the identifier the sequence of [dim_city] hands out to its load. *)
Record city_run := {
  city : City;
  fetched : outcome (OpenMeteoWeatherResponse * OpenMeteoAQResponse);
  storage_fault : option (load_step * failure);
  serial : Z
}.

Section Main.

Variable to_datetime : string -> option Z.
Variable model : Type.
Variable fit : list (Q * Q * Q) -> list Q -> model.
Variable predict : model -> Q * Q * Q -> Q.

(** The body of the [try] of [main]'s loop; an exception at any stage ends
    the city's run, and [except Exception] only prints it. *)
Definition run_city (conn : connection) (c : city_run) : connection * outcome unit :=
  match fetched c with
  | Raise e => (conn, Raise e)
  | Ok (w, aq) =>
      match transform_data to_datetime w aq with
      | Raise e => (conn, Raise e)
      | Ok df =>
          match train_and_predict_ml model fit predict df with
          | Raise e => (conn, Raise e)
          | Ok df' => load_to_db (storage_fault c) conn (serial c) df' (city c)
          end
      end
  end.

(** [for city in CITIES: try: ... except Exception as e: print(...)] *)
Definition run_cities (cities : list city_run) (conn : connection)
    : connection * list (string * outcome unit) :=
  fold_left
    (fun st c =>
       let (conn', r) := run_city (fst st) c in
       (conn', snd st ++ [(city_name (city c), r)]))
    cities (conn, []).

(** [main()]: the database after [conn.close()], and the outcome of each
    city. *)
Definition main (cities : list city_run) (d : database)
    : database * list (string * outcome unit) :=
  let (conn, log) := run_cities cities (connect d) in
  (close conn, log).

End Main.

End Etl.

(* ===================================================================== *)
(** * The Data Quality Scorer as the specification words it, and sample data *)
(* ===================================================================== *)

Module QaSpec.

Local Open Scope float_scope.

(** The number of rows whose pm25 is null. *)
Fixpoint missing_target_count (data : list UnifiedDataPoint) : nat :=
  match data with
  | [] => 0
  | d :: data' =>
      match pm25 d with
      | None => S (missing_target_count data')
      | Some _ => missing_target_count data'
      end
  end.

(** The adjacent pairs [(earlier, later)] of a sequence. *)
Definition adjacent_pairs {A : Type} (l : list A) : list (A * A) := combine l (tl l).

(** Both pm25 values are non-null, the earlier one is above 0 and
    [|curr - prev| / prev] is above 0.5. *)
Definition relative_jump (pc : UnifiedDataPoint * UnifiedDataPoint) : bool :=
  match pm25 (fst pc), pm25 (snd pc) with
  | Some prev, Some curr => (0 <? prev) && (0.5 <? abs (curr - prev) / prev)
  | _, _ => false
  end.

Definition jump_count (data : list UnifiedDataPoint) : nat :=
  length (filter relative_jump (adjacent_pairs data)).

(** What one iteration of the anomaly loop does with the pair it reads. *)
Definition pair_step (dp dc : UnifiedDataPoint) (st : nat * list float) : nat * list float :=
  match pm25 dp, pm25 dc with
  | Some prev, Some curr =>
      if 0 <? prev then
        (if 0.5 <? abs ((curr - prev) / prev) then S (fst st) else fst st, snd st ++ [prev])
      else st
  | _, _ => st
  end.

(** The anomaly loop as one pass over the sequence. *)
Fixpoint scan (prev : UnifiedDataPoint) (rest : list UnifiedDataPoint)
    (st : nat * list float) : nat * list float :=
  match rest with
  | [] => st
  | curr :: rest' => scan curr rest' (pair_step prev curr st)
  end.

(** The binary64 value of [max(0, 100 - missing / total * 100)] for the two
    counts. *)
Definition score_value (missing total : nat) : float :=
  Js.Math_max 0 (100 - (Js.of_nat missing / Js.of_nat total * 100)).

(** The score of [missing] missing rows out of [total] prints as an integer
    between 0 and 100, and as 100 when nothing is missing. *)
Definition score_in_range (missing total : nat) : bool :=
  match Prim2SF (score_value missing total) with
  | S754_zero _ => negb (Nat.eqb missing 0)
  | S754_finite false m e =>
      let k := Js.round_half_up false m e in
      (0 <=? k)%Z && (k <=? 100)%Z && (negb (Nat.eqb missing 0) || (k =? 100)%Z)
  | _ => false
  end.

End QaSpec.

(** Upper bounds of binary64 numbers and of the records of their
    rounding. *)
Module Binary64.

(** The mantissa of a shift record, at exponent [e <= 0], is at most the
    integer [b], and below it when the record holds a remainder. *)
Definition below (b e : Z) (mrs : shr_record) : Prop :=
  (0 <= shr_m mrs)%Z
  /\ (shr_m mrs <= b * 2 ^ (- e))%Z
  /\ (shr_r mrs || shr_s mrs = true -> (shr_m mrs < b * 2 ^ (- e))%Z).

(** A number that is [+0] or a positive finite number of value at most
    the integer [b]. *)
Definition at_most (b : Z) (x : spec_float) : Prop :=
  x = S754_zero false
  \/ exists m e, x = S754_finite false m e /\ (e <= 0)%Z /\ (Z.pos m <= b * 2 ^ (- e))%Z.

End Binary64.

Module Samples.

Local Open Scope float_scope.

Definition point (p : option float) : UnifiedDataPoint :=
  {| timestamp := "2025-12-25T00:00:00"; displayTime := "25 Dec, 00:00";
     pm10 := None; pm25 := p; temperature := Some 1.5; windSpeed := Some 12.3;
     humidity := Some 80; predictedPM25 := None |}.

(** A data point with its pm25 replaced. *)
Definition with_pm25 (p : option float) (d : UnifiedDataPoint) : UnifiedDataPoint :=
  {| timestamp := timestamp d; displayTime := displayTime d; pm10 := pm10 d;
     pm25 := p; temperature := temperature d; windSpeed := windSpeed d;
     humidity := humidity d; predictedPM25 := predictedPM25 d |}.

Definition three_points : list UnifiedDataPoint :=
  [point (Some 10); point None; point (Some 16)].

(** A wind speed that stays at 12.3 km/h while the temperature rises. *)
Definition steady_wind : list float := [12.3; 12.3; 12.3].
Definition rising_temperature : list float := [0; 1; 2].

End Samples.

(* ===================================================================== *)
(** * The pipeline's contracts as the specification words them, and sample data *)
(* ===================================================================== *)

Module EtlSpec.

Import Etl.

Local Open Scope Q_scope.

(** A payload that lacks the [hourly] object or one of its arrays. *)
Definition weather_incomplete (w : OpenMeteoWeatherResponse) : bool :=
  match w_hourly w with
  | None => true
  | Some h =>
      match w_time h, temperature_2m h, relative_humidity_2m h, wind_speed_10m h with
      | Some _, Some _, Some _, Some _ => false
      | _, _, _, _ => true
      end
  end.

Definition aq_incomplete (aq : OpenMeteoAQResponse) : bool :=
  match aq_hourly aq with
  | None => true
  | Some h =>
      match aq_time h, aq_pm10 h, pm2_5 h with
      | Some _, Some _, Some _ => false
      | _, _, _ => true
      end
  end.

(** A payload whose [time] array is empty. *)
Definition weather_empty (w : OpenMeteoWeatherResponse) : bool :=
  match w_hourly w with
  | Some h => match w_time h with Some [] => true | _ => false end
  | None => false
  end.

Definition aq_empty (aq : OpenMeteoAQResponse) : bool :=
  match aq_hourly aq with
  | Some h => match aq_time h with Some [] => true | _ => false end
  | None => false
  end.

(** A payload whose metric arrays do not all have the length of [time]. *)
Definition weather_mismatched (w : OpenMeteoWeatherResponse) : bool :=
  match w_hourly w with
  | Some h =>
      match w_time h, temperature_2m h, relative_humidity_2m h, wind_speed_10m h with
      | Some ts, Some te, Some hu, Some wi =>
          negb (Nat.eqb (length te) (length ts) && Nat.eqb (length hu) (length ts)
                && Nat.eqb (length wi) (length ts))
      | _, _, _, _ => false
      end
  | None => false
  end.

Definition aq_mismatched (aq : OpenMeteoAQResponse) : bool :=
  match aq_hourly aq with
  | Some h =>
      match aq_time h, aq_pm10 h, pm2_5 h with
      | Some ts, Some p10, Some p25 =>
          negb (Nat.eqb (length p10) (length ts) && Nat.eqb (length p25) (length ts))
      | _, _, _ => false
      end
  | None => false
  end.

(** Empty or malformed. *)
Definition defective (w : OpenMeteoWeatherResponse) (aq : OpenMeteoAQResponse) : bool :=
  weather_incomplete w || weather_empty w || weather_mismatched w
  || aq_incomplete aq || aq_empty aq || aq_mismatched aq.

(** A value that is not null. *)
Definition present (v : option Q) : bool :=
  match v with Some _ => true | None => false end.

(** The training subset (section 4.4, step 1): the rows where temperature,
    wind_speed, humidity and pm25 are all non-null. *)
Definition training_subset (df : list row) : list row :=
  filter (fun r => present (temperature r) && present (wind_speed r)
                   && present (humidity r) && present (pm25 r)) df.

(** [X] and [y] hold, row by row, the predictors (temperature, wind_speed,
    humidity) and the target pm25 of [rows]. *)
Definition observations (rows : list row) (X : list (Q * Q * Q)) (y : list Q) : Prop :=
  map temperature rows = map (fun x => Some (fst (fst x))) X
  /\ map wind_speed rows = map (fun x => Some (snd (fst x))) X
  /\ map humidity rows = map (fun x => Some (snd x)) X
  /\ map pm25 rows = map Some y.

(** [m] is the mean of the values [xs]. *)
Definition is_mean (xs : list Q) (m : Q) : Prop :=
  xs <> [] /\ m * inject_Z (Z.of_nat (length xs)) == fold_left Qplus xs 0.

(** [y] is [x] rounded to 2 decimal places: a number of hundredths, and
    none is nearer to [x]. *)
Definition rounded_to_2_places (x y : Q) : Prop :=
  exists n : Z, y = n # 100 /\ Qabs (y - x) <= 1 # 200.

(** A missing predictor replaced by the mean [m]. *)
Definition imputed (m : Q) (v : option Q) : Q :=
  match v with Some x => x | None => m end.

(** The uniqueness constraint [UNIQUE(city_id, timestamp)] of a fact table. *)
Definition unique_keys {V : Type} (t : table V) : Prop := NoDup (keys t).

(** The names of the dimension are of the column's type, [VARCHAR(100)]. *)
Definition names_fit (d : database) : Prop :=
  forall r, In r (dim_city d) -> varchar 100 (name r) = Ok (name r).

Definition constraints_hold (d : database) : Prop :=
  unique_keys (fact_weather d) /\ unique_keys (fact_air_quality d) /\ names_fit d.

(** The number of rows of a table under a key. *)
Definition rows_with_key {V : Type} (k : key) (t : table V) : nat :=
  length (filter (fun kv => key_eqb (fst kv) k) t).

(** The last row of a batch for a timestamp. *)
Definition last_row_at (ts : Z) (df : list row) : option row :=
  find (fun r => (timestamp r =? ts)%Z) (rev df).

Definition weather_values_of (r : row) : weather_values :=
  {| w_temperature := temperature r; w_humidity := humidity r;
     w_wind_speed := wind_speed r |}.

Definition aq_values_of (r : row) : aq_values :=
  {| a_pm10 := pm10 r; a_pm25 := pm25 r; a_predicted_pm25 := predicted_pm25 r |}.

(** The rows of a batch written one after the other, whatever the keys. *)
Definition upserts {V : Type} (t : table V) (batch : list (key * V)) : table V :=
  fold_left (fun t kv => upsert (fst kv) (snd kv) t) batch t.

(** A row of a batch and the row with its values as the columns take
    them. *)
Definition assigned {V : Type} (assign : V -> outcome V) (kv kv' : key * V) : Prop :=
  fst kv' = fst kv /\ assign (snd kv) = Ok (snd kv').

(** One call of the loader: the failure it meets, if any, the identifier
    the sequence hands out, the city and its rows. *)
Record load_call := {
  call_fault : option (load_step * failure);
  call_serial : Z;
  call_city : City;
  call_rows : list row
}.

(** A sequence of loads on one connection. *)
Definition run_loads (conn : connection) (ls : list load_call) : connection :=
  fold_left (fun conn l =>
               fst (load_to_db (call_fault l) conn (call_serial l) (call_rows l)
                      (call_city l)))
            ls conn.

(** Any sequence of loads: pipeline runs one after the other, each on a
    connection of its own that it closes at the end. *)
Definition pipeline_runs (d : database) (runs : list (list load_call)) : database :=
  fold_left (fun d ls => close (run_loads (connect d) ls)) runs d.

(** One load of a city's rows that meets no storage failure, on a
    connection of its own: the stored state after it, and its outcome. *)
Definition load_once (serial : Z) (d : database) (c : City) (df : list row)
    : database * outcome unit :=
  let (conn, r) := load_to_db None (connect d) serial df c in (close conn, r).

(** The same city and rows loaded twice on one connection. *)
Definition load_twice (serial serial' : Z) (d : database) (c : City) (df : list row)
    : database * outcome unit :=
  let (conn, _) := load_to_db None (connect d) serial df c in
  let (conn', r) := load_to_db None conn serial' df c in (close conn', r).

(** The values of a row fit the columns of the two fact tables. *)
Definition fits_columns (r : row) : Prop :=
  (exists v, store_weather (weather_values_of r) = Ok v)
  /\ (exists v, store_aq (aq_values_of r) = Ok v).

End EtlSpec.

Module EtlSamples.

Import Etl.

Local Open Scope Q_scope.

Definition t1 : string := "2025-12-25T00:00".
Definition t2 : string := "2025-12-25T01:00".
Definition t3 : string := "2025-12-25T02:00".

(** The three hours of the samples, in seconds since the epoch. *)
Definition to_datetime (s : string) : option Z :=
  if String.eqb s t1 then Some 1766620800%Z
  else if String.eqb s t2 then Some 1766624400%Z
  else if String.eqb s t3 then Some 1766628000%Z
  else None.

(** The weather series of the scenario of spec section 8, with a third hour
    that the air-quality series lacks. *)
Definition weather : OpenMeteoWeatherResponse :=
  {| w_hourly := Some
       {| w_time := Some [t1; t2; t3];
          temperature_2m := Some [Some 10; Some 12; Some 11];
          relative_humidity_2m := Some [Some 50; Some 55; Some 60];
          wind_speed_10m := Some [Some 5; Some 4; Some 3] |} |}.

Definition air_quality : OpenMeteoAQResponse :=
  {| aq_hourly := Some
       {| aq_time := Some [t1; t2];
          aq_pm10 := Some [Some 20; Some 22];
          pm2_5 := Some [Some (-5); Some 14] |} |}.

(** A well-formed payload without a single hour. *)
Definition no_hours : OpenMeteoAQResponse :=
  {| aq_hourly := Some {| aq_time := Some []; aq_pm10 := Some []; pm2_5 := Some [] |} |}.

Definition moscow : City :=
  {| city_name := "Moscow"; lat := 557558 # 10000; lng := 376173 # 10000; country := "RU" |}.

Definition berlin : City :=
  {| city_name := "Berlin"; lat := 525200 # 10000; lng := 134050 # 10000; country := "DE" |}.

(** A frame row with every measurement present. *)
Definition full_row (ts : Z) (pm : Q) : row :=
  {| timestamp := ts; temperature := Some 10; humidity := Some 50; wind_speed := Some 5;
     pm10 := Some 20; pm25 := Some pm; predicted_pm25 := None |}.

(** A row without wind speed and without pm25. *)
Definition sparse_row (ts : Z) : row :=
  {| timestamp := ts; temperature := Some 4; humidity := Some 70; wind_speed := None;
     pm10 := None; pm25 := None; predicted_pm25 := None |}.

Definition nine_rows : list row :=
  map (fun i => full_row (Z.of_nat i) 14) (seq 0 9).

Definition ten_rows_and_a_sparse_one : list row :=
  map (fun i => full_row (Z.of_nat i) 14) (seq 0 10) ++ [sparse_row 10].

(** A stand-in for the fitted regression: the model is the mean of the
    training targets, and the prediction adds a tenth of the wind speed. *)
Definition fit_mean (X : list (Q * Q * Q)) (y : list Q) : Q :=
  match mean y with Some m => m | None => 0 end.

Definition predict_mean (m : Q) (x : Q * Q * Q) : Q := m + snd (fst x) / 10.

(** Berlin's air-quality payload comes without hours; Moscow's run is
    sound.  The sequence of [dim_city] hands out 1 to Moscow's load and 2 to
    Berlin's. *)
Definition berlin_run : city_run :=
  {| city := berlin; fetched := Ok (weather, no_hours); storage_fault := None;
     serial := 2 |}.

Definition moscow_run : city_run :=
  {| city := moscow; fetched := Ok (weather, air_quality); storage_fault := None;
     serial := 1 |}.

(** Moscow's load fails at the air-quality batch, in the driver or on the
    server. *)
Definition moscow_failing_run (how : failure) : city_run :=
  {| city := moscow; fetched := Ok (weather, air_quality);
     storage_fault := Some (InsertAirQuality, how); serial := 1 |}.

Definition berlin_sound_run : city_run :=
  {| city := berlin; fetched := Ok (weather, air_quality); storage_fault := None;
     serial := 2 |}.

(** Two hours of one city, and the first hour again with a corrected pm25. *)
Definition two_hours : list row := [full_row 1766620800 14; full_row 1766624400 16].
Definition first_hour_corrected : list row := [full_row 1766620800 15].

End EtlSamples.

(* ===================================================================== *)
(** * [components/DashboardCharts.tsx]: the trend chart, the correlation
      matrix and the day-by-hour heatmap *)
(* ===================================================================== *)

(** [xs.map((x, i) => f i x)], with the index counted from [i]. *)
Fixpoint map_from {A B : Type} (f : nat -> A -> B) (i : nat) (xs : list A) : list B :=
  match xs with
  | [] => []
  | x :: xs' => f i x :: map_from f (S i) xs'
  end.

Definition mapi {A B : Type} (f : nat -> A -> B) (xs : list A) : list B := map_from f 0 xs.

(** [xs.slice(start, stop)] for [0 <= start]. *)
Definition slice {A : Type} (xs : list A) (start stop : Z) : list A :=
  firstn (Z.to_nat (stop - start)) (skipn (Z.to_nat start) xs).

Module Trends.

Local Open Scope float_scope.

(** [slice.filter(d => d.pm25 !== null).map(d => d.pm25!)] *)
Definition validValues (sl : list UnifiedDataPoint) : list float :=
  map (fun d => match pm25 d with Some v => v | None => nan end)
      (filter (fun d => negb (App.is_null (pm25 d))) sl).

(** The window [data.slice(Math.max(0, idx - window + 1), idx + 1)]. *)
Definition window_of (data : list UnifiedDataPoint) (window : Z) (idx : nat)
    : list UnifiedDataPoint :=
  slice data (Z.max 0 (Z.of_nat idx - window + 1)) (Z.of_nat idx + 1).

(** [function calculateRollingAverage(data, window = 6)], for a whole
    number [window]. *)
Definition calculateRollingAverage (data : list UnifiedDataPoint) (window : Z)
    : list (option float) :=
  mapi (fun idx _ =>
          let vs := validValues (window_of data window idx) in
          if Nat.eqb (length vs) 0 then None
          else Some (reduce (fun a b _ => a + b) 0 vs / Js.of_nat (length vs)))
       data.

(** [Number(x.toFixed(2))] for [|x| < 2^53 / 100]: the double nearest to
    the decimal with two places nearest to [x] (the larger one on a tie).
    Larger values are not embedded: [None]. *)
Definition numberToFixed2 (x : float) : option float :=
  match Prim2SF x with
  | S754_nan => Some nan
  | S754_zero _ => Some 0
  | S754_infinity _ => None
  | S754_finite s m e =>
      let n := Js.round_half_up false (m * 100) e in
      if (n <? 2 ^ 53)%Z
      then Some (if s then - (Js.of_Z n / 100) else Js.of_Z n / 100)
      else None
  end.

(** A point of [chartData]: the data point with its [rollingAvgPM25]. *)
Record ChartPoint := {
  chartPoint : UnifiedDataPoint;
  rollingAvgPM25 : option float
}.

(** [rollingAvg[i] ? Number(rollingAvg[i]!.toFixed(2)) : null]; [None] as a
    whole where [numberToFixed2] is not embedded. *)
Definition rollingAvgField (avg : option float) : option (option float) :=
  match avg with
  | None => Some None
  | Some a =>
      if Js.truthy a
      then match numberToFixed2 a with Some r => Some (Some r) | None => None end
      else Some None
  end.

(** [chartData] of [TrendsChart]: [calculateRollingAverage(data, 6)] zipped
    onto the data. *)
Definition chartData (data : list UnifiedDataPoint) : list (option ChartPoint) :=
  let rollingAvg := calculateRollingAverage data 6 in
  mapi (fun i d =>
          match rollingAvgField (match nth_error rollingAvg i with
                                 | Some a => a
                                 | None => None
                                 end) with
          | Some r => Some {| chartPoint := d; rollingAvgPM25 := r |}
          | None => None
          end)
       data.

End Trends.

Module Matrix.

(** A cell of the correlation matrix. *)
Record cell := {
  x : string;
  y : string;
  value : float
}.

Definition is_complete (d : UnifiedDataPoint) : bool :=
  negb (App.is_null (pm25 d)) && negb (App.is_null (temperature d))
  && negb (App.is_null (windSpeed d)) && negb (App.is_null (humidity d)).

(** [validData.map(d => d.field!)] *)
Definition column (field : UnifiedDataPoint -> option float) (rows : list UnifiedDataPoint)
    : list float :=
  map (fun d => match field d with Some v => v | None => nan end) rows.

(** [factors]: the label and the values of each of the four series. *)
Definition factors (data : list UnifiedDataPoint) : list (string * list float) :=
  let validData := filter is_complete data in
  [("PM 2.5"%string, column pm25 validData);
   ("Темп"%string, column temperature validData);
   ("Ветер"%string, column windSpeed validData);
   ("Влажн"%string, column humidity validData)].

(** [matrix] of [CorrelationMatrix]: the two nested loops over [factors],
    pushing one cell per pair. *)
Definition matrix (data : list UnifiedDataPoint) : list cell :=
  let fs := factors data in
  flat_map (fun fi =>
              map (fun fj =>
                     {| x := fst fi; y := fst fj;
                        value := Charts.calculatePearsonCorrelation (snd fi) (snd fj) |})
                  fs)
           fs.

(** [matrix.find(m => m.y === rowLabel && m.x === colLabel)], and
    [cell ? cell.value : 0]. *)
Definition cellValue (data : list UnifiedDataPoint) (rowLabel colLabel : string) : float :=
  match find (fun m => String.eqb (y m) rowLabel && String.eqb (x m) colLabel) (matrix data) with
  | Some c => value c
  | None => 0%float
  end.

End Matrix.

Module TrueHeatmap.

Local Open Scope float_scope.

(** An entry of the aggregation map. *)
Record entry := {
  sum : float;
  count : float
}.

(** A cell of the grid. *)
Record cell := {
  day : string;
  hour : Z;
  value : option float
}.

(** A JavaScript [Map] with string keys: its entries in insertion order. *)
Definition jsmap (V : Type) : Type := list (string * V).

Fixpoint get {V : Type} (k : string) (m : jsmap V) : option V :=
  match m with
  | [] => None
  | (k', v) :: m' => if String.eqb k' k then Some v else get k m'
  end.

(** [map.set(k, v)] *)
Fixpoint set {V : Type} (k : string) (v : V) (m : jsmap V) : jsmap V :=
  match m with
  | [] => [(k, v)]
  | (k', v') :: m' => if String.eqb k' k then (k', v) :: m' else (k', v') :: set k v m'
  end.

(** [`${dayIdx}-${hour}`] *)
Definition slot_key (dayIdx hour : Z) : string :=
  (Js.string_of_Z dayIdx ++ "-" ++ Js.string_of_Z hour)%string.

Definition days : list string := ["Пн"; "Вт"; "Ср"; "Чт"; "Пт"; "Сб"; "Вс"]%string.

Definition hours : list Z := map Z.of_nat (seq 0 24).

Section Grid.

(** [new Date(ts).getDay()], 0 (Sunday) to 6, and [new Date(ts).getHours()],
    of a timestamp that is a date. *)
Variable getDay : string -> Z.
Variable getHours : string -> Z.

(** [getDay() - 1], with Sunday moved to the end of the week. *)
Definition dayIdx_of (ts : string) : Z :=
  let dayIdx := (getDay ts - 1)%Z in
  if (dayIdx =? -1)%Z then 6%Z else dayIdx.

(** The body of [data.forEach]: a point with a pm25 adds it to the entry of
    its slot, which is created on first use. *)
Definition accumulate (m : jsmap entry) (d : UnifiedDataPoint) : jsmap entry :=
  match pm25 d with
  | None => m
  | Some v =>
      let key := slot_key (dayIdx_of (timestamp d)) (getHours (timestamp d)) in
      let m := match get key m with
               | Some _ => m
               | None => set key {| sum := 0; count := 0 |} m
               end in
      match get key m with
      | Some e => set key {| sum := sum e + v; count := count e + 1 |} m
      | None => m
      end
  end.

(** [grid] of [TrueHeatmap]. *)
Definition grid (data : list UnifiedDataPoint) : list (list cell) :=
  let m := fold_left accumulate data [] in
  mapi (fun dIdx dayName =>
          map (fun h =>
                 {| day := dayName; hour := h;
                    value := match get (slot_key (Z.of_nat dIdx) h) m with
                             | Some e => Some (sum e / count e)
                             | None => None
                             end |})
              hours)
       days.

(** The pm25 readings of the points that fall into the slot of day index
    [dIdx] and hour [h], in the order of the data. *)
Definition slot_readings (data : list UnifiedDataPoint) (dIdx h : Z) : list float :=
  flat_map
    (fun d =>
       match pm25 d with
       | Some v =>
           if (dayIdx_of (timestamp d) =? dIdx)%Z && (getHours (timestamp d) =? h)%Z
           then [v] else []
       | None => []
       end)
    data.

(** The timestamp is a date: [getDay()] is 0 to 6 and [getHours()] 0 to 23. *)
Definition is_date (ts : string) : Prop :=
  (0 <= getDay ts <= 6)%Z /\ (0 <= getHours ts <= 23)%Z.

End Grid.

(** The slots of the grid, and a slot key read back. *)
Definition slots : list (Z * Z) :=
  list_prod (map Z.of_nat (seq 0 7)) (map Z.of_nat (seq 0 24)).

Definition slot_of_key (k : string) : option (Z * Z) :=
  match k with
  | String c (String "-" rest) =>
      match NilZero.int_of_string (String c EmptyString), NilZero.int_of_string rest with
      | Some d, Some h => Some (Z.of_int d, Z.of_int h)
      | _, _ => None
      end
  | _ => None
  end.

(** The colour of a grid cell. *)
Definition cellColor (v : option float) : string :=
  match v with
  | None => "bg-slate-100"
  | Some a =>
      if a <=? 10 then "bg-emerald-200"
      else if a <=? 20 then "bg-emerald-400"
      else if a <=? 35 then "bg-yellow-400"
      else if a <=? 55 then "bg-orange-500"
      else "bg-red-600"
  end.

End TrueHeatmap.

(* ===================================================================== *)
(** * [App.tsx]: the other QA metrics of [stats], the status card and
      [loadData]; [services/api.ts] *)
(* ===================================================================== *)

Module AppQa.

Local Open Scope float_scope.


Section Dates.

(** [new Date(ts).getTime()] ([NaN] for a string that is no date) and
    [new Date(ts).toLocaleDateString()]. *)
Variable getTime : string -> float.
Variable toLocaleDateString : string -> string.

(** One iteration of the monotonicity loop. *)
Definition timestampStep (data : list UnifiedDataPoint) (i : nat) (issues : nat) : nat :=
  match nth_error data (i - 1), nth_error data i with
  | Some dp, Some dc =>
      let prev := getTime (timestamp dp) in
      let curr := getTime (timestamp dc) in
      if curr <=? prev then S issues else issues
  | _, _ => issues
  end.

(** [timestampIssues] *)
Definition timestampIssues (data : list UnifiedDataPoint) : nat :=
  for_loop 1 (length data) (timestampStep data) 0%nat.

(** The body of [data.forEach] that fills [dailyMax]:
    [const currentMax = dailyMax.get(day) || 0;
     if (d.pm25 && d.pm25 > currentMax) dailyMax.set(day, d.pm25)]. *)
Definition dailyMaxStep (dailyMax : TrueHeatmap.jsmap float) (d : UnifiedDataPoint)
    : TrueHeatmap.jsmap float :=
  let day := toLocaleDateString (timestamp d) in
  let currentMax := match TrueHeatmap.get day dailyMax with
                    | Some m => if Js.truthy m then m else 0
                    | None => 0
                    end in
  match pm25 d with
  | Some v =>
      if Js.truthy v && (currentMax <? v) then TrueHeatmap.set day v dailyMax else dailyMax
  | None => dailyMax
  end.

Definition dailyMax (data : list UnifiedDataPoint) : TrueHeatmap.jsmap float :=
  fold_left dailyMaxStep data [].



End Dates.

(** The colour of [getAirQualityStatus], the status card of the dashboard. *)
Definition statusColor (pm25 : option float) : string :=
  match pm25 with
  | None => "bg-slate-100 text-slate-500"
  | Some v =>
      if v <=? 12 then "bg-emerald-100 text-emerald-700"
      else if v <=? 35 then "bg-yellow-100 text-yellow-700"
      else if v <=? 55 then "bg-orange-100 text-orange-700"
      else "bg-red-100 text-red-700"
  end.

End AppQa.

Module Api.

(** A row of the [data] array the measurements endpoint answers with. *)
Record ApiRow := {
  row_timestamp : string;
  row_pm10 : option float;
  row_pm25 : option float;
  row_temperature : option float;
  row_wind_speed : option float;
  row_humidity : option float;
  row_predicted_pm25 : option float
}.

(** How [fetch] and [response.json()] end: the promise rejects with an
    error message, or there is a response with its [ok] flag, its
    [statusText] and the parsed [data] array. *)
Inductive response :=
| Rejected (message : string)
| Response (ok : bool) (statusText : string) (data : list ApiRow).

(** A promise: fulfilled with a value, or rejected with [Error(message)]. *)
Inductive promise (A : Type) :=
| Fulfilled (a : A)
| Thrown (message : string).
Arguments Fulfilled {A} a.
Arguments Thrown {A} message.

Section Fetch.

(** [new Date(ts).toLocaleDateString('ru-RU', {month: 'short', day:
    'numeric', hour: '2-digit', minute: '2-digit'})] *)
Variable formatDisplayTime : string -> string.

(** The object [fetchDashboardData] makes of a row. *)
Definition toDataPoint (row : ApiRow) : UnifiedDataPoint :=
  {| timestamp := row_timestamp row;
     displayTime := formatDisplayTime (row_timestamp row);
     pm10 := row_pm10 row;
     pm25 := row_pm25 row;
     temperature := row_temperature row;
     windSpeed := row_wind_speed row;
     humidity := row_humidity row;
     predictedPM25 := row_predicted_pm25 row |}.

(** [fetchDashboardData(cityName)], given how the request ended. *)
Definition fetchDashboardData (r : response) : promise (list UnifiedDataPoint) :=
  match r with
  | Rejected message => Thrown message
  | Response ok statusText data =>
      if ok then Fulfilled (map toDataPoint data)
      else Thrown ("Ошибка сервера: " ++ statusText)
  end.

End Fetch.

End Api.

Module AppLoad.

(** [LogEntry['type']] *)
Inductive log_type := info | success | error.

(** [interface LogEntry] of [App.tsx] *)
Record LogEntry := {
  id : string;
  time : string;
  type : log_type;
  message : string
}.

(** The state [loadData] reads and sets. *)
Record state := {
  selectedCityName : string;
  data : list UnifiedDataPoint;
  loading : bool;
  logs : list LogEntry
}.

(** [addLog(type, message)], with the random id and the clock reading it
    takes. *)
Definition addLog (stamp : string * string) (t : log_type) (m : string) (s : state) : state :=
  {| selectedCityName := selectedCityName s; data := data s; loading := loading s;
     logs := {| id := fst stamp; time := snd stamp; type := t; message := m |} :: logs s |}.

Definition setData (d : list UnifiedDataPoint) (s : state) : state :=
  {| selectedCityName := selectedCityName s; data := d; loading := loading s;
     logs := logs s |}.

Definition setLoading (b : bool) (s : state) : state :=
  {| selectedCityName := selectedCityName s; data := data s; loading := b;
     logs := logs s |}.

Definition string_of_nat (n : nat) : string := Js.string_of_Z (Z.of_nat n).

(** [loadData] of the first [App]: nothing without a selected city;
    otherwise the fetched rows are reversed into [data], or, when the fetch
    throws, the error is logged and [data] is emptied; [loading] is reset
    either way. *)
Definition loadData (formatDisplayTime : string -> string) (stamp : string * string)
    (r : Api.response) (s : state) : state :=
  if String.eqb (selectedCityName s) "" then s else
  let s := setLoading true s in
  let s :=
    match Api.fetchDashboardData formatDisplayTime r with
    | Api.Fulfilled result =>
        let s := setData (rev result) s in
        addLog stamp success
          ("Загружено " ++ string_of_nat (length result) ++ " строк для "
           ++ selectedCityName s) s
    | Api.Thrown m =>
        let s := addLog stamp error m s in
        setData [] s
    end in
  setLoading false s.

End AppLoad.

(* ===================================================================== *)
(** * The dashboard view [dm_dashboard_analytics] ([ecosense.sql]) *)
(* ===================================================================== *)

Module View.

Import Etl.

(** A row of the view. *)
Record view_row := {
  v_city_name : string;
  v_timestamp : Z;
  v_temperature : option Q;
  v_humidity : option Q;
  v_wind_speed : option Q;
  v_pm10 : option Q;
  v_pm25 : option Q;
  v_predicted_pm25 : option Q
}.

Definition make_row (c : dim_city_row) (w : key * weather_values) (aq : option aq_values)
    : view_row :=
  {| v_city_name := name c;
     v_timestamp := snd (fst w);
     v_temperature := w_temperature (snd w);
     v_humidity := w_humidity (snd w);
     v_wind_speed := w_wind_speed (snd w);
     v_pm10 := match aq with Some a => a_pm10 a | None => None end;
     v_pm25 := match aq with Some a => a_pm25 a | None => None end;
     v_predicted_pm25 := match aq with Some a => a_predicted_pm25 a | None => None end |}.

(** [fact_weather w LEFT JOIN fact_air_quality aq ON w.city_id = aq.city_id
    AND w.timestamp = aq.timestamp]: the matching rows, or one row of
    nulls. *)
Definition left_join_aq (d : database) (w : key * weather_values) : list (option aq_values) :=
  match filter (fun a => key_eqb (fst a) (fst w)) (fact_air_quality d) with
  | [] => [None]
  | matches => map (fun a => Some (snd a)) matches
  end.

(** [FROM fact_weather w JOIN dim_city c ON w.city_id = c.city_id LEFT JOIN
    fact_air_quality aq ...], before the ordering. *)
Definition joined (d : database) : list view_row :=
  flat_map
    (fun w =>
       flat_map
         (fun c =>
            if (city_id c =? fst (fst w))%Z
            then map (make_row c w) (left_join_aq d w)
            else [])
         (dim_city d))
    (fact_weather d).

(** [ORDER BY w.timestamp DESC]; rows of one timestamp keep their order. *)
Fixpoint insert_desc (r : view_row) (l : list view_row) : list view_row :=
  match l with
  | [] => [r]
  | r' :: l' =>
      if (v_timestamp r' <? v_timestamp r)%Z then r :: r' :: l'
      else r' :: insert_desc r l'
  end.

Definition order_by_timestamp_desc (l : list view_row) : list view_row :=
  fold_right insert_desc [] l.

(** [CREATE OR REPLACE VIEW dm_dashboard_analytics AS SELECT ...] *)
Definition dm_dashboard_analytics (d : database) : list view_row :=
  order_by_timestamp_desc (joined d).

(** The constraints of the schema: [UNIQUE(city_id, timestamp)] on the fact
    tables, the primary key [city_id] and [UNIQUE (name)] on [dim_city]. *)
Definition schema_holds (d : database) : Prop :=
  EtlSpec.constraints_hold d
  /\ NoDup (map city_id (dim_city d))
  /\ NoDup (map name (dim_city d)).

(** The view row a loaded row is read back as: the city's name, the
    timestamp and the values as the columns store them. *)
Definition row_read_back (n : string) (ts : Z) (w : weather_values) (a : aq_values)
    : view_row :=
  {| v_city_name := n;
     v_timestamp := ts;
     v_temperature := w_temperature w;
     v_humidity := w_humidity w;
     v_wind_speed := w_wind_speed w;
     v_pm10 := a_pm10 a;
     v_pm25 := a_pm25 a;
     v_predicted_pm25 := a_predicted_pm25 a |}.

End View.

(* ===================================================================== *)
(** * The runs of [main] *)
(* ===================================================================== *)

Module EtlRuns.

Import Etl.

Section Runs.

Variable to_datetime : string -> option Z.
Variable model : Type.
Variable fit : list (Q * Q * Q) -> list Q -> model.
Variable predict : model -> Q * Q * Q -> Q.

(** The frame a city's run hands to [load_to_db], when its fetch,
    [transform_data] and [train_and_predict_ml] all return. *)
Definition frame_of (c : city_run) : option (list row) :=
  match fetched c with
  | Ok (w, aq) =>
      match transform_data to_datetime w aq with
      | Ok df =>
          match train_and_predict_ml model fit predict df with
          | Ok df' => Some df'
          | Raise _ => None
          end
      | Raise _ => None
      end
  | Raise _ => None
  end.

(** A run that meets no failure before its load, with its frame. *)
Definition sound_run (c : city_run) (df : list row) : Prop :=
  frame_of c = Some df /\ storage_fault c = None.

(** A run that fails: at the fetch, in [transform_data], in
    [train_and_predict_ml], or at a statement of its load. *)
Definition failing_run (c : city_run) : Prop :=
  frame_of c = None \/ storage_fault c <> None.

End Runs.

(** The frames of the cities' runs loaded one after the other, each under
    the identifier of its run, as long as no statement is refused. *)
Fixpoint loads (d : database) (ls : list (city_run * list row)) : outcome database :=
  match ls with
  | [] => Ok d
  | (c, df) :: ls' => d' <- load (serial c) d (city c) df;; loads d' ls'
  end.

End EtlRuns.

(* ===================================================================== *)
(** * Sample inputs of the dashboard *)
(* ===================================================================== *)

Module AppSamples.

Local Open Scope float_scope.

(** [getDay()], [getHours()], [getTime()] and [toLocaleDateString()] of the
    timestamps of the samples: 25 December 2025 is a Thursday. *)
Definition getDay (ts : string) : Z := 4.
Definition getHours (ts : string) : Z :=
  if String.eqb ts "2025-12-25T01:00:00" then 1 else 0.
Definition getTime (ts : string) : float :=
  if String.eqb ts "2025-12-25T01:00:00" then 1766624400000 else 1766620800000.
Definition toLocaleDateString (ts : string) : string := "12/25/2025".

(** A data point of one o'clock. *)
Definition point_at_one (p : option float) : UnifiedDataPoint :=
  {| timestamp := "2025-12-25T01:00:00"; displayTime := "25 Dec, 01:00";
     pm10 := None; pm25 := p; temperature := Some 1.5; windSpeed := Some 12.3;
     humidity := Some 80; predictedPM25 := None |}.

(** A row as the measurements endpoint serves it. *)
Definition served_row : Api.ApiRow :=
  {| Api.row_timestamp := "2025-12-25T00:00:00";
     Api.row_pm10 := Some 20; Api.row_pm25 := Some 10;
     Api.row_temperature := Some 1.5; Api.row_wind_speed := Some 12.3;
     Api.row_humidity := Some 80; Api.row_predicted_pm25 := None |}.

(** The state of the dashboard with Moscow selected and one point on
    screen. *)
Definition moscow_selected : AppLoad.state :=
  {| AppLoad.selectedCityName := "Moscow";
     AppLoad.data := [Samples.point (Some 10)];
     AppLoad.loading := false;
     AppLoad.logs := [] |}.

End AppSamples.

(* ===================================================================== *)
(** * Binary64 facts *)
(* ===================================================================== *)

Section FloatFacts.

Local Open Scope float_scope.

Lemma SFabs_round_aux prec emax s m e l :
  SFabs (binary_round_aux prec emax s m e l) = binary_round_aux prec emax false m e l.
Proof.
  unfold binary_round_aux.
  destruct (shr_fexp prec emax m e l) as [mrs' e'].
  destruct (shr_fexp prec emax _ e' loc_Exact) as [mrs'' e''].
  destruct (shr_m mrs''); simpl; try reflexivity.
  destruct (e'' <=? emax - prec)%Z; reflexivity.
Qed.

(** A number above zero is a positive finite number or [+Infinity]. *)
Lemma positive_SF p :
  (0 <? p) = true ->
  (exists m e, Prim2SF p = S754_finite false m e) \/ Prim2SF p = S754_infinity false.
Proof.
  rewrite ltb_spec. change (Prim2SF 0) with (S754_zero false).
  unfold SFltb, SFcompare.
  destruct (Prim2SF p) as [s|s| |s m e]; try discriminate.
  - destruct s; [discriminate|]. now right.
  - destruct s; [discriminate|]. left; eauto.
Qed.

(** Dividing by a positive number commutes with the absolute value, bit
    for bit. *)
Lemma abs_div_pos a p : (0 <? p) = true -> abs (a / p) = abs a / p.
Proof.
  intros Hp. apply Prim2SF_inj.
  rewrite abs_spec, !div_spec, abs_spec.
  destruct (positive_SF p Hp) as [(m & e & ->) | ->];
    destruct (Prim2SF a) as [s|s| |s ma ea];
    unfold SF64div, SFdiv, SFabs at 2; try reflexivity.
  destruct (SFdiv_core_binary prec emax (Z.pos ma) ea (Z.pos m) e) as [[mz ez] lz].
  rewrite SFabs_round_aux. reflexivity.
Qed.

Lemma positive_nonzero p : (0 <? p) = true -> is_zero p = false.
Proof.
  intros Hp. unfold is_zero. rewrite FloatAxioms.eqb_spec.
  change (Prim2SF zero) with (S754_zero false).
  destruct (positive_SF p Hp) as [(m & e & ->) | ->]; reflexivity.
Qed.

End FloatFacts.

(* ===================================================================== *)
(** * [App.tsx]: the anomaly count *)
(* ===================================================================== *)

Section AnomalyCount.

Local Open Scope float_scope.

Lemma nth_error_middle {A : Type} (pre : list A) (d : A) (rest : list A) :
  nth_error (pre ++ d :: rest) (length pre) = Some d.
Proof. induction pre; simpl; auto. Qed.

Lemma anomalyStep_pair pre d c rest st :
  App.anomalyStep (pre ++ d :: c :: rest) (S (length pre)) st = QaSpec.pair_step d c st.
Proof.
  unfold App.anomalyStep, QaSpec.pair_step.
  replace (S (length pre) - 1)%nat with (length pre) by lia.
  rewrite nth_error_middle.
  replace (pre ++ d :: c :: rest) with ((pre ++ [d]) ++ c :: rest)
    by (rewrite <- app_assoc; reflexivity).
  replace (S (length pre)) with (length (pre ++ [d]))
    by (rewrite length_app; simpl; lia).
  rewrite nth_error_middle. reflexivity.
Qed.

(** The indexed loop reads the sequence pair by pair. *)
Lemma loop_is_scan rest : forall pre d st,
  fold_left (fun a i => App.anomalyStep (pre ++ d :: rest) i a)
            (seq (S (length pre)) (length rest)) st
  = QaSpec.scan d rest st.
Proof.
  induction rest as [|c rest IH]; intros pre d st; simpl; [reflexivity|].
  rewrite anomalyStep_pair.
  specialize (IH (pre ++ [d]) c (QaSpec.pair_step d c st)).
  rewrite <- app_assoc in IH. simpl in IH.
  rewrite length_app in IH. simpl in IH.
  replace (length pre + 1)%nat with (S (length pre)) in IH by lia.
  exact IH.
Qed.

Lemma anomalyLoop_scan d rest :
  App.anomalyLoop (d :: rest) = QaSpec.scan d rest (0%nat, []).
Proof.
  unfold App.anomalyLoop, for_loop. simpl length.
  replace (S (length rest) - 1)%nat with (length rest) by lia.
  exact (loop_is_scan rest [] d (0%nat, [])).
Qed.

Lemma pair_step_count dp dc st :
  fst (QaSpec.pair_step dp dc st)
  = (fst st + (if QaSpec.relative_jump (dp, dc) then 1 else 0))%nat.
Proof.
  unfold QaSpec.pair_step, QaSpec.relative_jump. simpl.
  destruct (pm25 dp) as [prev|]; [|lia].
  destruct (pm25 dc) as [curr|]; [|lia].
  destruct (0 <? prev) eqn:Hp; simpl; [|lia].
  rewrite (abs_div_pos _ _ Hp).
  destruct (0.5 <? abs (curr - prev) / prev); simpl; lia.
Qed.

Lemma scan_count rest : forall d st,
  fst (QaSpec.scan d rest st) = (fst st + QaSpec.jump_count (d :: rest))%nat.
Proof.
  induction rest as [|c rest IH]; intros d st.
  - unfold QaSpec.jump_count. simpl. lia.
  - simpl QaSpec.scan. rewrite IH, pair_step_count.
    unfold QaSpec.jump_count, QaSpec.adjacent_pairs. simpl.
    destruct (QaSpec.relative_jump (d, c)); simpl; lia.
Qed.

Lemma pair_step_divisors (P : float -> Prop) dp dc st :
  (forall p, (0 <? p) = true -> P p) ->
  Forall P (snd st) -> Forall P (snd (QaSpec.pair_step dp dc st)).
Proof.
  intros HP Hst. unfold QaSpec.pair_step.
  destruct (pm25 dp) as [prev|]; [|exact Hst].
  destruct (pm25 dc) as [curr|]; [|exact Hst].
  destruct (0 <? prev) eqn:Hp; [|exact Hst].
  simpl. apply Forall_app. split; [exact Hst|]. constructor; auto.
Qed.

Lemma scan_divisors (P : float -> Prop) rest : forall d st,
  (forall p, (0 <? p) = true -> P p) ->
  Forall P (snd st) -> Forall P (snd (QaSpec.scan d rest st)).
Proof.
  induction rest as [|c rest IH]; intros d st HP Hst; simpl; [exact Hst|].
  apply IH; [exact HP|]. apply pair_step_divisors; assumption.
Qed.

(** C8, amended: for every row sequence the count of the anomaly loop is
    the number of adjacent pairs in which both pm25 values are non-null, the
    earlier one is above 0 and [|curr - prev| / prev] is above 0.5, and
    every division the loop evaluates has a divisor above 0, so none divides
    by zero; a non-empty sequence gets a report, whose anomaly count is that
    number; the empty sequence gets none. *)
Theorem anomaly_count_is_jump_count (data : list UnifiedDataPoint) :
  App.anomalyCount data = QaSpec.jump_count data
  /\ Forall (fun p => (0 <? p) = true /\ is_zero p = false) (App.anomalyDivisors data)
  /\ (data <> [] ->
      exists s, App.stats data = Some s
                /\ App.statsAnomalyCount s = QaSpec.jump_count data)
  /\ (data = [] -> App.stats data = None).
Proof.
  assert (Hcount : App.anomalyCount data = QaSpec.jump_count data).
  { unfold App.anomalyCount. destruct data as [|d rest]; [reflexivity|].
    rewrite anomalyLoop_scan, scan_count. reflexivity. }
  split; [exact Hcount|]. split; [|split].
  - unfold App.anomalyDivisors. destruct data as [|d rest]; [constructor|].
    rewrite anomalyLoop_scan. apply scan_divisors; [|constructor].
    intros p Hp. split; [exact Hp | exact (positive_nonzero p Hp)].
  - intros Hne. destruct data as [|d rest]; [contradiction|].
    eexists. split; [reflexivity|]. exact Hcount.
  - intros ->. reflexivity.
Qed.

(** C8 as stated fails on the empty sequence: it has no adjacent pair, and
    [stats] returns [null] for it, so no anomaly count of 0 is reported. *)
Lemma anomaly_count_empty_is_null :
  option_map App.statsAnomalyCount (App.stats []) = None
  /\ QaSpec.jump_count [] = 0%nat.
Proof. split; reflexivity. Qed.

End AnomalyCount.

(* ===================================================================== *)
(** * Binary64 rounding: upper bounds *)
(* ===================================================================== *)

Section RoundingBounds.

Local Open Scope Z_scope.

Lemma pow2_pos (k : Z) : 0 <= k -> 0 < 2 ^ k.
Proof. intros. apply Z.pow_pos_nonneg; lia. Qed.

Lemma pow2_step (e : Z) : e < 0 -> 2 ^ (- e) = 2 * 2 ^ (- (e + 1)).
Proof.
  intros He. replace (- e) with (Z.succ (- (e + 1))) by lia.
  apply Z.pow_succ_r. lia.
Qed.

(** Halving keeps a mantissa at most [b], and below [b] once a bit was
    shifted out. *)
Lemma shr_1_below (b e : Z) (mrs : shr_record) :
  e < 0 -> Binary64.below b e mrs -> Binary64.below b (e + 1) (shr_1 mrs).
Proof.
  intros He (H0 & H1 & H2). unfold Binary64.below in *.
  rewrite (pow2_step e He) in H1, H2.
  pose proof (pow2_pos (- (e + 1)) ltac:(lia)) as HP.
  set (P := 2 ^ (- (e + 1))) in *.
  destruct mrs as [m r s]. cbn [shr_m shr_r shr_s] in *.
  assert (Hs : r || s = true -> m < b * (2 * P)) by exact H2.
  destruct m as [|p|p].
  - cbn [shr_1 shr_m shr_r shr_s]. split; [lia|]. split; [lia|].
    rewrite orb_false_l. intros Hrs. specialize (Hs Hrs). lia.
  - destruct p as [p|p|]; cbn [shr_1 shr_m shr_r shr_s].
    + rewrite Pos2Z.inj_xI in H1. split; [lia|]. split; [lia|]. intros _. lia.
    + rewrite Pos2Z.inj_xO in H1, Hs. split; [lia|]. split; [lia|].
      rewrite orb_false_l. intros Hrs. specialize (Hs Hrs). lia.
    + split; [lia|]. split; [lia|]. intros _. lia.
  - lia.
Qed.

Lemma iter_shr_1_below (b : Z) (p : positive) : forall (e : Z) (mrs : shr_record),
  e + Z.pos p <= 0 -> Binary64.below b e mrs ->
  Binary64.below b (e + Z.pos p) (iter_pos shr_1 p mrs).
Proof.
  induction p as [p IH|p IH|]; intros e mrs He H; cbn [iter_pos].
  - rewrite Pos2Z.inj_xI in *.
    replace (e + (2 * Z.pos p + 1)) with (((e + 1) + Z.pos p) + Z.pos p) by lia.
    apply IH; [lia|]. apply IH; [lia|]. apply shr_1_below; [lia|exact H].
  - rewrite Pos2Z.inj_xO in *.
    replace (e + 2 * Z.pos p) with ((e + Z.pos p) + Z.pos p) by lia.
    apply IH; [lia|]. apply IH; [lia|exact H].
  - apply shr_1_below; [lia|exact H].
Qed.

Lemma shr_below (b e n : Z) (mrs : shr_record) :
  e <= 0 -> e + n <= 0 -> Binary64.below b e mrs ->
  Binary64.below b (snd (shr mrs e n)) (fst (shr mrs e n)) /\ snd (shr mrs e n) <= 0.
Proof.
  intros He Hn H. destruct n as [|p|p]; cbn [shr fst snd]; auto.
  split; [|lia]. now apply iter_shr_1_below.
Qed.

(** A positive number is at least two to its number of digits less one. *)
Lemma digits2_pos_le (p : positive) : 2 ^ (Z.pos (digits2_pos p) - 1) <= Z.pos p.
Proof.
  induction p as [p IH|p IH|]; cbn [digits2_pos]; [| |reflexivity];
    rewrite Pos2Z.inj_succ;
    replace (Z.succ (Z.pos (digits2_pos p)) - 1) with (Z.succ (Z.pos (digits2_pos p) - 1))
      by (generalize (digits2_pos p); intros; lia);
    rewrite Z.pow_succ_r by (generalize (digits2_pos p); intros; lia);
    revert IH; generalize (2 ^ (Z.pos (digits2_pos p) - 1)); intros; lia.
Qed.

Lemma digits2_pos_gt (p : positive) : Z.pos p < 2 ^ Z.pos (digits2_pos p).
Proof.
  induction p as [p IH|p IH|]; cbn [digits2_pos]; [| |reflexivity];
    rewrite Pos2Z.inj_succ, Z.pow_succ_r by (generalize (digits2_pos p); intros; lia);
    revert IH; generalize (2 ^ Z.pos (digits2_pos p)); intros; lia.
Qed.

(** The exponent a mantissa at most [b] is rounded at is not positive. *)
Lemma fexp_below (b e m : Z) :
  0 < b <= 2 ^ 52 -> e <= 0 -> 0 <= m <= b * 2 ^ (- e) ->
  fexp prec emax (Zdigits2 m + e) <= 0.
Proof.
  intros Hb He Hm. unfold fexp, SpecFloat.emin, prec, emax.
  destruct m as [|p|p]; cbn [Zdigits2]; [lia| |lia].
  pose proof (digits2_pos_le p) as Hd.
  pose proof (pow2_pos (- e) ltac:(lia)) as HP.
  assert (Hlt : 2 ^ (Z.pos (digits2_pos p) - 1) <= 2 ^ (52 - e)).
  { replace (52 - e) with (52 + - e) by lia. rewrite Z.pow_add_r by lia. nia. }
  apply Z.pow_le_mono_r_iff in Hlt; lia.
Qed.

Lemma shr_fexp_below (b m e : Z) (l : location) :
  0 < b <= 2 ^ 52 -> e <= 0 -> Binary64.below b e (shr_record_of_loc m l) ->
  Binary64.below b (snd (shr_fexp prec emax m e l)) (fst (shr_fexp prec emax m e l))
  /\ snd (shr_fexp prec emax m e l) <= 0.
Proof.
  intros Hb He H. unfold shr_fexp. apply shr_below; [exact He| |exact H].
  assert (Hm : 0 <= m <= b * 2 ^ (- e)).
  { destruct H as (H0 & H1 & _). destruct l as [|[| |]]; cbn [shr_record_of_loc shr_m] in *; lia. }
  pose proof (fexp_below b e m Hb He Hm). lia.
Qed.

(** Rounding to nearest does not pass an integer bound: a number at most
    [b] rounds to [+0] or to a positive number at most [b]. *)
Lemma binary_round_aux_at_most (b m e : Z) (l : location) :
  0 < b <= 2 ^ 52 -> e <= 0 -> Binary64.below b e (shr_record_of_loc m l) ->
  Binary64.at_most b (binary_round_aux prec emax false m e l).
Proof.
  intros Hb He H. unfold binary_round_aux.
  destruct (shr_fexp_below b m e l Hb He H) as [H1 He1].
  destruct (shr_fexp prec emax m e l) as [mrs1 e1]. cbn [fst snd] in *.
  set (m2 := round_nearest_even (shr_m mrs1) (loc_of_shr_record mrs1)).
  assert (H2 : Binary64.below b e1 (shr_record_of_loc m2 loc_Exact)).
  { destruct H1 as (H10 & H11 & H12). subst m2.
    destruct mrs1 as [m1 r1 s1]. cbn [shr_m shr_r shr_s] in *.
    unfold Binary64.below. cbn [shr_record_of_loc shr_m shr_r shr_s].
    destruct r1, s1; cbn [loc_of_shr_record round_nearest_even orb] in *;
      try destruct (Z.even m1); repeat split; try discriminate;
      try specialize (H12 eq_refl); lia. }
  destruct (shr_fexp_below b m2 e1 loc_Exact Hb He1 H2) as [H3 He3].
  destruct (shr_fexp prec emax m2 e1 loc_Exact) as [mrs3 e3]. cbn [fst snd] in *.
  destruct H3 as (H30 & H31 & _).
  destruct (shr_m mrs3) as [|mz|mz]; [now left| |lia].
  right. exists mz, e3.
  assert (Hle : (e3 <=? emax - prec) = true) by (apply Z.leb_le; unfold emax, prec; lia).
  rewrite Hle. auto.
Qed.

End RoundingBounds.

Section Binary64Operations.

Local Open Scope Z_scope.

Lemma pow2_add (a b : Z) : 0 <= a -> 0 <= b -> 2 ^ (a + b) = 2 ^ a * 2 ^ b.
Proof. intros. apply Z.pow_add_r; assumption. Qed.

Lemma iter_xO (p : positive) (k : positive) :
  Z.pos (Pos.iter xO p k) = Z.pos p * 2 ^ Z.pos k.
Proof.
  induction k as [|k IH] using Pos.peano_ind.
  - cbn [Pos.iter]. rewrite Pos2Z.inj_xO. change (2 ^ 1) with 2. lia.
  - rewrite Pos.iter_succ, Pos2Z.inj_xO, IH, Pos2Z.inj_succ, Z.pow_succ_r by lia. lia.
Qed.

(** [shl_align] lowers the exponent and keeps the value. *)
Lemma shl_align_spec (mx : positive) (ex ex' : Z) :
  snd (shl_align mx ex ex') <= ex
  /\ Z.pos (fst (shl_align mx ex ex')) = Z.pos mx * 2 ^ (ex - snd (shl_align mx ex ex'))
  /\ (ex' <= ex -> snd (shl_align mx ex ex') = ex').
Proof.
  unfold shl_align. destruct (ex' - ex) as [|d|d] eqn:E; cbn [fst snd].
  - rewrite Z.sub_diag. change (2 ^ 0) with 1. lia.
  - rewrite Z.sub_diag. change (2 ^ 0) with 1. lia.
  - rewrite iter_xO. replace (ex - ex') with (Z.pos d) by lia. lia.
Qed.

(** A mantissa of at most 53 bits at an exponent in range is kept as it
    is. *)
Lemma binary_round_aux_exact (s : bool) (m : positive) (e : Z) :
  Z.pos m < 2 ^ 53 -> SpecFloat.emin prec emax <= e <= emax - prec ->
  binary_round_aux prec emax s (Z.pos m) e loc_Exact = S754_finite s m e.
Proof.
  intros Hm He.
  assert (Hn : fexp prec emax (Zdigits2 (Z.pos m) + e) - e <= 0).
  { pose proof (digits2_pos_le m) as Hd. cbn [Zdigits2].
    assert (Hlt : 2 ^ (Z.pos (digits2_pos m) - 1) < 2 ^ 53) by lia.
    apply Z.pow_lt_mono_r_iff in Hlt; [|lia|lia].
    unfold fexp. unfold SpecFloat.emin, prec, emax in *. lia. }
  unfold binary_round_aux, shr_fexp.
  destruct (fexp prec emax (Zdigits2 (Z.pos m) + e) - e) as [|n|n] eqn:E; [| lia |];
    cbn [shr shr_record_of_loc shr_m loc_of_shr_record round_nearest_even];
    rewrite E; cbn [shr shr_m];
    (destruct (e <=? emax - prec) eqn:El; [reflexivity|apply Z.leb_gt in El; lia]).
Qed.

(** A count below [2^53] is a number of its own value. *)
Lemma of_nat_exact (n : nat) :
  0 < Z.of_nat n < 2 ^ 53 ->
  exists m e,
    Prim2SF (Js.of_nat n) = S754_finite false m e
    /\ -53 <= e <= 0 /\ Z.pos m = Z.of_nat n * 2 ^ (- e).
Proof.
  intros Hn. unfold Js.of_nat. rewrite of_uint63_spec, Uint63.of_Z_spec.
  rewrite Z.mod_small by (change Uint63.wB with (2 ^ 63); lia).
  destruct (Z.of_nat n) as [|p|p]; [lia| |lia].
  cbn [binary_normalize]. unfold binary_round.
  pose proof (digits2_pos_le p) as Hd. pose proof (digits2_pos_gt p) as Hg.
  set (d := Z.pos (digits2_pos p)) in *.
  assert (Hd1 : 1 <= d) by (subst d; generalize (digits2_pos p); intros; lia).
  assert (Hd53 : d <= 53).
  { assert (Hlt : 2 ^ (d - 1) < 2 ^ 53) by lia.
    apply Z.pow_lt_mono_r_iff in Hlt; lia. }
  assert (Hf : fexp prec emax (d + 0) = d - 53)
    by (unfold fexp, SpecFloat.emin, prec, emax; lia).
  rewrite Hf.
  destruct (shl_align_spec p 0 (d - 53)) as (H1 & H2 & H3).
  specialize (H3 ltac:(lia)).
  destruct (shl_align p 0 (d - 53)) as [mz ez]. cbn [fst snd] in *. subst ez.
  exists mz, (d - 53).
  assert (Hmz : Z.pos mz < 2 ^ 53).
  { rewrite H2. replace 53 with (d + (0 - (d - 53))) at 2 by lia.
    rewrite pow2_add by lia.
    pose proof (pow2_pos (0 - (d - 53)) ltac:(lia)). nia. }
  rewrite binary_round_aux_exact; [|exact Hmz|unfold SpecFloat.emin, prec, emax; lia].
  split; [reflexivity|]. split; [lia|].
  rewrite H2. now replace (0 - (d - 53)) with (- (d - 53)) by lia.
Qed.

(** The quotient of a count by a count that is not smaller is at most 1. *)
Lemma div_at_most (m1 m2 : positive) (e1 e2 a t : Z) :
  e1 <= 0 -> -53 <= e2 <= 0 ->
  Z.pos m1 = a * 2 ^ (- e1) -> Z.pos m2 = t * 2 ^ (- e2) -> a <= t ->
  Binary64.at_most 1 (SFdiv prec emax (S754_finite false m1 e1) (S754_finite false m2 e2)).
Proof.
  intros He1 He2 Hm1 Hm2 Hat.
  pose proof (pow2_pos (- e1) ltac:(lia)) as HP1.
  pose proof (pow2_pos (- e2) ltac:(lia)) as HP2.
  assert (Ha : 0 < a) by nia. assert (Ht : 0 < t) by nia.
  unfold SFdiv, SFdiv_core_binary. cbn [Zdigits2 xorb].
  set (d1 := Z.pos (digits2_pos m1)). set (d2 := Z.pos (digits2_pos m2)).
  set (e' := Z.min (fexp prec emax (d1 + e1 - (d2 + e2))) (e1 - e2)).
  set (s := e1 - e2 - e').
  (* the exponent of the quotient is not positive *)
  assert (Hdd : d1 + e1 <= d2).
  { pose proof (digits2_pos_le m1) as Hd. pose proof (digits2_pos_gt m2) as Hg.
    fold d1 in Hd. fold d2 in Hg.
    assert (Hd1 : 1 <= d1) by (subst d1; generalize (digits2_pos m1); intros; lia).
    assert (Hd2 : 1 <= d2) by (subst d2; generalize (digits2_pos m2); intros; lia).
    assert (Hlt : 2 ^ (d1 - 1) < 2 ^ (d2 - e1)).
    { replace (d2 - e1) with (d2 + - e1) by lia. rewrite pow2_add by lia.
      assert (Ht2 : t <= Z.pos m2) by nia.
      assert (H1 : a * 2 ^ (- e1) <= t * 2 ^ (- e1)) by nia.
      assert (H2 : t * 2 ^ (- e1) <= Z.pos m2 * 2 ^ (- e1)) by nia.
      assert (H3 : Z.pos m2 * 2 ^ (- e1) < 2 ^ d2 * 2 ^ (- e1)) by nia.
      lia. }
    apply Z.pow_lt_mono_r_iff in Hlt; lia. }
  assert (He' : e' <= 0 /\ e' <= e1 - e2).
  { subst e'. unfold fexp, SpecFloat.emin, prec, emax. lia. }
  assert (Hs : 0 <= s) by (subst s; lia).
  set (m' := match s with
             | 0 => Z.pos m1
             | Z.pos _ => Z.shiftl (Z.pos m1) s
             | Z.neg _ => 0
             end).
  assert (Hm' : m' = Z.pos m1 * 2 ^ s).
  { subst m'. destruct s as [|p|p] eqn:Es; [change (2 ^ 0) with 1; lia| |lia].
    apply Z.shiftl_mul_pow2. lia. }
  pose proof (Z_div_mod m' (Z.pos m2) ltac:(lia)) as Hdiv.
  destruct (Z.div_eucl m' (Z.pos m2)) as [q r]. destruct Hdiv as [Hq Hr].
  assert (Hpow : 2 ^ (- e2) * 2 ^ (- e') = 2 ^ (- e1) * 2 ^ s).
  { rewrite <- !pow2_add by lia. f_equal. subst s. lia. }
  pose proof (pow2_pos (- e') ltac:(lia)) as HPe.
  pose proof (pow2_pos s Hs) as HPs.
  assert (Hq0 : 0 <= q) by nia.
  assert (Hbound : q * Z.pos m2 + r <= Z.pos m2 * 2 ^ (- e')).
  { rewrite Z.mul_comm, <- Hq, Hm', Hm1, Hm2.
    replace (t * 2 ^ (- e2) * 2 ^ (- e')) with (t * (2 ^ (- e2) * 2 ^ (- e'))) by ring.
    rewrite Hpow. nia. }
  apply binary_round_aux_at_most; [lia|lia|].
  unfold Binary64.below. rewrite Z.mul_1_l.
  assert (Hle : q <= 2 ^ (- e')) by nia.
  assert (Hlt : r <> 0 -> q < 2 ^ (- e')) by (intros; nia).
  assert (Hloc : forall l, l = loc_Exact \/ r <> 0 ->
                           (fun mrs => 0 <= shr_m mrs /\ shr_m mrs <= 2 ^ (- e')
                                       /\ (shr_r mrs || shr_s mrs = true -> shr_m mrs < 2 ^ (- e')))
                             (shr_record_of_loc q l)).
  { intros l [-> | Hr0]; [cbn; repeat split; try lia; discriminate|].
    destruct l as [|[| |]]; cbn; repeat split; try lia; intros; auto. }
  apply Hloc. unfold new_location, new_location_even, new_location_odd.
  destruct (Z.even (Z.pos m2)); destruct (Z.eqb_spec r 0); auto.
Qed.

(** The product of a number at most [b] and a constant of value [c] is at
    most [b * c]. *)
Lemma mul_at_most (x : spec_float) (mc : positive) (ec b c : Z) :
  Binary64.at_most b x -> ec <= 0 -> Z.pos mc = c * 2 ^ (- ec) -> 0 < b * c <= 2 ^ 52 ->
  Binary64.at_most (b * c) (SFmul prec emax x (S754_finite false mc ec)).
Proof.
  intros [-> | (m & e & -> & He & Hm)] Hec Hmc Hbc; [now left|].
  unfold SFmul. cbn [xorb].
  apply binary_round_aux_at_most; [lia|lia|].
  unfold Binary64.below. cbn [shr_record_of_loc shr_m shr_r shr_s orb].
  split; [lia|]. split; [|discriminate].
  replace (- (e + ec)) with (- e + - ec) by lia. rewrite pow2_add by lia.
  rewrite Pos2Z.inj_mul, Hmc.
  pose proof (pow2_pos (- e) ltac:(lia)). pose proof (pow2_pos (- ec) ltac:(lia)).
  assert (0 < c) by nia. nia.
Qed.

(** A constant of value [b] less a number at most [b] is at most [b], and
    not negative. *)
Lemma sub_at_most (x : spec_float) (mc : positive) (ec b : Z) :
  Binary64.at_most b x -> ec <= 0 -> Z.pos mc = b * 2 ^ (- ec) -> 0 < b <= 2 ^ 52 ->
  Binary64.at_most b (SFsub prec emax (S754_finite false mc ec) x).
Proof.
  intros [-> | (m & e & -> & He & Hm)] Hec Hmc Hb.
  - right. exists mc, ec. cbn. split; [reflexivity|]. split; lia.
  - unfold SFsub. cbn [cond_Zopp].
    set (ez := Z.min ec e).
    destruct (shl_align_spec mc ec ez) as (_ & Hc & Hce).
    destruct (shl_align_spec m e ez) as (_ & Hx & Hxe).
    rewrite (Hce ltac:(lia)) in Hc. rewrite (Hxe ltac:(lia)) in Hx.
    rewrite Hc, Hx. clear Hc Hx Hce Hxe.
    assert (Hez : ez <= 0) by lia.
    pose proof (pow2_pos (- ec) ltac:(lia)). pose proof (pow2_pos (- e) ltac:(lia)).
    pose proof (pow2_pos (ec - ez) ltac:(lia)). pose proof (pow2_pos (e - ez) ltac:(lia)).
    assert (Hpc : 2 ^ (- ec) * 2 ^ (ec - ez) = 2 ^ (- ez))
      by (rewrite <- pow2_add by lia; f_equal; lia).
    assert (Hpx : 2 ^ (- e) * 2 ^ (e - ez) = 2 ^ (- ez))
      by (rewrite <- pow2_add by lia; f_equal; lia).
    assert (HD : 0 <= Z.pos mc * 2 ^ (ec - ez) - Z.pos m * 2 ^ (e - ez) <= b * 2 ^ (- ez)).
    { rewrite Hmc.
      replace (b * 2 ^ (- ec) * 2 ^ (ec - ez)) with (b * (2 ^ (- ec) * 2 ^ (ec - ez))) by ring.
      rewrite Hpc.
      assert (Z.pos m * 2 ^ (e - ez) <= b * 2 ^ (- ez)).
      { rewrite <- Hpx. nia. }
      nia. }
    destruct (Z.pos mc * 2 ^ (ec - ez) - Z.pos m * 2 ^ (e - ez)) as [|d|d];
      [now left| |lia].
    cbn [binary_normalize]. unfold binary_round.
    destruct (shl_align_spec d ez (fexp prec emax (Z.pos (digits2_pos d) + ez)))
      as (He2 & Hd2 & _).
    destruct (shl_align d ez (fexp prec emax (Z.pos (digits2_pos d) + ez))) as [mz ez2].
    cbn [fst snd] in *.
    apply binary_round_aux_at_most; [lia|lia|].
    unfold Binary64.below. cbn [shr_record_of_loc shr_m shr_r shr_s orb].
    split; [lia|]. split; [|discriminate].
    rewrite Hd2.
    assert (Hp2 : 2 ^ (- ez) * 2 ^ (ez - ez2) = 2 ^ (- ez2))
      by (rewrite <- pow2_add by lia; f_equal; lia).
    rewrite <- Hp2. pose proof (pow2_pos (ez - ez2) ltac:(lia)). nia.
Qed.

End Binary64Operations.

Section QualityScoreBounds.

Local Open Scope float_scope.

Lemma SFeqb_finite_refl (s : bool) (m : positive) (e : Z) :
  SFeqb (S754_finite s m e) (S754_finite s m e) = true.
Proof.
  unfold SFeqb, SFcompare. rewrite Z.compare_refl.
  change (PosDef.Pos.compare_cont Eq m m) with (Pos.compare m m).
  rewrite Pos.compare_refl. destruct s; reflexivity.
Qed.

(** [Math.max(0, x)] of a positive finite [x] is [x]. *)
Lemma Math_max_0_positive (x : float) (m : positive) (e : Z) :
  Prim2SF x = S754_finite false m e -> Js.Math_max 0 x = x.
Proof.
  intros Hx. unfold Js.Math_max.
  assert (Hnan : is_nan x = false).
  { unfold is_nan. rewrite FloatAxioms.eqb_spec, Hx, SFeqb_finite_refl. reflexivity. }
  assert (Hlt : (0 <? x) = true).
  { rewrite ltb_spec, Hx. reflexivity. }
  rewrite Hnan, Hlt. reflexivity.
Qed.

(** The number the score is printed from, when a pm25 is missing: [+0] or
    a positive number of value at most 100. *)
Lemma score_at_most (missing total : nat) :
  (0 < missing <= total)%nat -> (Z.of_nat total < 2 ^ 53)%Z ->
  Binary64.at_most 100
    (Prim2SF (100 - (Js.of_nat missing / Js.of_nat total * 100))).
Proof.
  intros Hm Ht.
  destruct (of_nat_exact missing ltac:(lia)) as (m1 & e1 & H1 & He1 & Hv1).
  destruct (of_nat_exact total ltac:(lia)) as (m2 & e2 & H2 & He2 & Hv2).
  rewrite sub_spec, mul_spec, div_spec, H1, H2.
  change (Prim2SF 100) with (S754_finite false 7036874417766400 (-46)).
  apply sub_at_most; [|lia|reflexivity|lia].
  change 100%Z with (1 * 100)%Z at 1.
  apply mul_at_most; [|lia|reflexivity|lia].
  apply (div_at_most m1 m2 e1 e2 (Z.of_nat missing) (Z.of_nat total)); lia.
Qed.

(** A number at most 100 is printed as an integer from 0 to 100. *)
Lemma round_half_up_at_most (m : positive) (e : Z) :
  (e <= 0)%Z -> (Z.pos m <= 100 * 2 ^ (- e))%Z ->
  (0 <= Js.round_half_up false m e <= 100)%Z.
Proof.
  intros He Hm. unfold Js.round_half_up.
  destruct (Z.leb_spec 0 e) as [H0|H0].
  - assert (e = 0%Z) by lia. subst e. change (2 ^ 0)%Z with 1%Z in *. lia.
  - pose proof (pow2_pos (- e) ltac:(lia)) as HP.
    replace (- e + 1)%Z with (Z.succ (- e)) by lia. rewrite Z.pow_succ_r by lia.
    split.
    + apply Z.div_pos; lia.
    + assert (H : ((2 * Z.pos m + 2 ^ (- e)) / (2 * 2 ^ (- e)) < 101)%Z)
        by (apply Z.div_lt_upper_bound; lia).
      lia.
Qed.

(** The score of every sequence of fewer than [2^53] rows is in range. *)
Lemma score_in_range_all (missing total : nat) :
  (1 <= total)%nat -> (Z.of_nat total < 2 ^ 53)%Z -> (missing <= total)%nat ->
  QaSpec.score_in_range missing total = true.
Proof.
  intros Ht Hlt Hm. unfold QaSpec.score_in_range, QaSpec.score_value.
  destruct missing as [|missing'].
  - (* nothing is missing: the score is exactly 100 *)
    destruct (of_nat_exact total ltac:(lia)) as (m2 & e2 & H2 & _).
    assert (Hq : Js.of_nat 0 / Js.of_nat total = 0).
    { apply Prim2SF_inj. rewrite div_spec, H2. reflexivity. }
    rewrite Hq. vm_compute. reflexivity.
  - set (missing := S missing') in *.
    destruct (score_at_most missing total ltac:(lia) Hlt) as [Hs | (m & e & Hs & He & Hv)].
    + assert (Hz : 100 - Js.of_nat missing / Js.of_nat total * 100 = 0)
        by (apply Prim2SF_inj; rewrite Hs; reflexivity).
      rewrite Hz. reflexivity.
    + rewrite (Math_max_0_positive _ m e Hs), Hs.
      destruct (round_half_up_at_most m e He Hv) as [Hk0 Hk100].
      apply Z.leb_le in Hk0, Hk100. rewrite Hk0, Hk100. reflexivity.
Qed.

End QualityScoreBounds.

(* ===================================================================== *)
(** * [App.tsx]: the quality score *)
(* ===================================================================== *)

Section QualityScore.

Local Open Scope float_scope.

Lemma missingPM_count data : App.missingPM data = QaSpec.missing_target_count data.
Proof.
  unfold App.missingPM. induction data as [|d data IH]; simpl; [reflexivity|].
  destruct (pm25 d); simpl; rewrite IH; reflexivity.
Qed.

Lemma missing_le_total data : (QaSpec.missing_target_count data <= length data)%nat.
Proof.
  induction data as [|d data IH]; simpl; [lia|]. destruct (pm25 d); lia.
Qed.

Lemma qualityScore_value data :
  App.qualityScore data
  = Js.toFixed0 (QaSpec.score_value (QaSpec.missing_target_count data) (length data)).
Proof. unfold App.qualityScore, QaSpec.score_value. rewrite missingPM_count. reflexivity. Qed.

Lemma score_in_range_prints missing total :
  QaSpec.score_in_range missing total = true ->
  exists k : Z,
    Js.toFixed0 (QaSpec.score_value missing total) = Some (Js.string_of_Z k)
    /\ (0 <= k <= 100)%Z /\ (missing = 0%nat -> k = 100%Z).
Proof.
  unfold QaSpec.score_in_range, Js.toFixed0.
  destruct (Prim2SF (QaSpec.score_value missing total)) as [s|s| |s m e]; try discriminate.
  - intros H. exists 0%Z. split; [reflexivity|]. split; [lia|].
    intros ->. discriminate.
  - destruct s; [discriminate|].
    set (k := Js.round_half_up false m e). intros H.
    apply andb_true_iff in H as [H H3]. apply andb_true_iff in H as [H1 H2].
    apply Z.leb_le in H1, H2. exists k. split; [|split; [lia|]].
    + destruct (k <? 10 ^ 21)%Z eqn:Hk; [reflexivity|]. apply Z.ltb_ge in Hk. lia.
    + intros ->. simpl in H3. apply Z.eqb_eq in H3. exact H3.
Qed.

(** C1, amended: a non-empty row sequence gets a report whose quality score
    is [max(0, 100 - missing / total * 100)], in binary64, printed by
    [toFixed(0)], with the number of null pm25 rows as [missing]; whatever
    the number of rows (an array holds fewer than 2^32, a count is exact
    below 2^53) it prints an integer between 0 and 100, and 100 when no pm25
    is missing. *)
Theorem quality_score_nonempty (data : list UnifiedDataPoint) :
  data <> [] ->
  exists s,
    App.stats data = Some s
    /\ App.totalRows s = length data
    /\ App.statsMissingPM s = QaSpec.missing_target_count data
    /\ App.statsQualityScore s
       = Js.toFixed0 (Js.Math_max 0
           (100 - (Js.of_nat (QaSpec.missing_target_count data)
                   / Js.of_nat (length data) * 100)))
    /\ ((Z.of_nat (length data) < 2 ^ 53)%Z ->
        exists k : Z,
          App.statsQualityScore s = Some (Js.string_of_Z k)
          /\ (0 <= k <= 100)%Z
          /\ (QaSpec.missing_target_count data = 0%nat -> k = 100%Z)).
Proof.
  intros Hne. destruct data as [|d rest]; [contradiction|].
  eexists. split; [reflexivity|]. cbn [App.totalRows App.statsMissingPM App.statsQualityScore].
  split; [reflexivity|]. split; [apply missingPM_count|].
  split; [apply qualityScore_value|].
  intros Hlen. rewrite qualityScore_value.
  apply score_in_range_prints, score_in_range_all.
  - simpl. lia.
  - exact Hlen.
  - apply missing_le_total.
Qed.

Lemma quality_score_nonempty_witness :
  exists s,
    App.stats Samples.three_points = Some s
    /\ App.totalRows s = 3%nat
    /\ App.statsMissingPM s = 1%nat
    /\ App.statsQualityScore s = Some "67"%string.
Proof.
  destruct (quality_score_nonempty Samples.three_points) as (s & Hs & Hn & Hm & Hq & _).
  - discriminate.
  - exists s. split; [exact Hs|]. split; [exact Hn|]. split; [exact Hm|].
    rewrite Hq. vm_compute. reflexivity.
Defined.

(** C1 as stated fails on the empty sequence: [stats] returns [null], so no
    score of 100 is reported; and one null pm25 out of three is reported as
    the string "67", not as 66.67. *)
Lemma quality_score_empty_is_null :
  App.stats [] = None
  /\ App.qualityScore Samples.three_points = Some "67"%string.
Proof. split; [reflexivity | vm_compute; reflexivity]. Qed.

End QualityScore.

(* ===================================================================== *)
(** * [DashboardCharts.tsx]: the risk heatmap and the Pearson helper *)
(* ===================================================================== *)

Section Heatmap.

Local Open Scope float_scope.

(** C9: a data point whose pm25 is exactly 0 gets the placeholder "-" in
    its heatmap cell, the very content a null pm25 gets, while its colour
    class is the one of an excellent reading and differs from the class of a
    missing one; and this is how [RiskHeatmap] renders each of the 48 most
    recent points. *)
Theorem heatmap_zero_pm25_placeholder (d : UnifiedDataPoint) :
  pm25 d = Some 0 ->
  Charts.cellChild (Charts.renderCell d) = Charts.JsxText "-"
  /\ Charts.cellChild (Charts.renderCell d)
     = Charts.cellChild (Charts.renderCell (Samples.with_pm25 None d))
  /\ Charts.className (Charts.renderCell d)
     = "bg-emerald-100 text-emerald-700 border-emerald-200"%string
  /\ Charts.className (Charts.renderCell d)
     <> Charts.className (Charts.renderCell (Samples.with_pm25 None d))
  /\ (forall data, In d (firstn 48 (rev data)) ->
      In {| Charts.className := "bg-emerald-100 text-emerald-700 border-emerald-200";
            Charts.cellChild := Charts.JsxText "-" |}
         (Charts.RiskHeatmap data)).
Proof.
  intros H.
  assert (Hcell : Charts.renderCell d
                  = {| Charts.className := "bg-emerald-100 text-emerald-700 border-emerald-200";
                       Charts.cellChild := Charts.JsxText "-" |}).
  { unfold Charts.renderCell, Charts.cellValue. rewrite H. reflexivity. }
  rewrite Hcell. repeat split; try reflexivity.
  - simpl. discriminate.
  - intros data Hin. unfold Charts.RiskHeatmap. rewrite <- Hcell.
    apply in_map. exact Hin.
Qed.

Lemma heatmap_zero_pm25_placeholder_witness :
  Charts.renderCell (Samples.point (Some 0))
  = {| Charts.className := "bg-emerald-100 text-emerald-700 border-emerald-200";
       Charts.cellChild := Charts.JsxText "-" |}
  /\ In {| Charts.className := "bg-emerald-100 text-emerald-700 border-emerald-200";
           Charts.cellChild := Charts.JsxText "-" |}
        (Charts.RiskHeatmap [Samples.point (Some 0); Samples.point (Some 16)]).
Proof.
  destruct (heatmap_zero_pm25_placeholder (Samples.point (Some 0)) eq_refl)
    as (_ & _ & _ & _ & Hmap).
  split; [reflexivity|].
  apply Hmap. simpl. right. left. reflexivity.
Defined.

End Heatmap.

Section Pearson.

Local Open Scope float_scope.

Lemma pearson_empty y : Charts.calculatePearsonCorrelation [] y = 0.
Proof. reflexivity. Qed.

(** C10 at a constant series: with a wind speed that stays at 12.3 and a
    temperature that rises 0, 1, 2, rounding leaves a negative variance
    term, its square root is [NaN], the test [denominator === 0] does not
    hold, and the helper returns [NaN] instead of 0. *)
Theorem pearson_constant_series_is_nan :
  Samples.steady_wind = [12.3; 12.3; 12.3]
  /\ length Samples.steady_wind = length Samples.rising_temperature
  /\ is_nan (Charts.calculatePearsonCorrelation Samples.steady_wind Samples.rising_temperature)
     = true
  /\ (Charts.calculatePearsonCorrelation Samples.steady_wind Samples.rising_temperature =? 0)
     = false.
Proof. repeat split; vm_compute; reflexivity. Qed.

End Pearson.

(* ===================================================================== *)
(** * The Outlier Scrubber *)
(* ===================================================================== *)

Section Scrubber.

Import Etl.

Local Open Scope Q_scope.

Lemma is_negative_lt x : is_negative x = true <-> x < 0.
Proof.
  unfold is_negative, Qlt. simpl. rewrite Z.mul_1_r. apply Z.ltb_lt.
Qed.

Lemma scrub_value_cases v :
  (forall x, v = Some x -> x < 0 -> scrub_value v = None)
  /\ (forall x, v = Some x -> ~ x < 0 -> scrub_value v = Some x)
  /\ (v = None -> scrub_value v = None).
Proof.
  repeat split.
  - intros x -> Hx. simpl. apply is_negative_lt in Hx. now rewrite Hx.
  - intros x -> Hx. simpl. destruct (is_negative x) eqn:E; [|reflexivity].
    apply is_negative_lt in E. contradiction.
  - intros ->. reflexivity.
Qed.

Lemma scrub_value_nonneg v x : scrub_value v = Some x -> 0 <= x.
Proof.
  destruct v as [y|]; simpl; [|discriminate].
  destruct (is_negative y) eqn:E; [discriminate|].
  intros [= <-]. apply Qnot_lt_le. intros H. apply is_negative_lt in H. congruence.
Qed.

Lemma scrub_value_idempotent v : scrub_value (scrub_value v) = scrub_value v.
Proof.
  destruct v as [y|]; simpl; [|reflexivity].
  destruct (is_negative y) eqn:E; simpl; [reflexivity|]. now rewrite E.
Qed.

Lemma scrub_row_idempotent r : scrub_row (scrub_row r) = scrub_row r.
Proof.
  unfold scrub_row, set_pm. simpl. now rewrite !scrub_value_idempotent.
Qed.

(** C6: the Outlier Scrubber maps every row on its own (the i-th output row
    is the scrubbed i-th input row, whatever the other rows are), and, being
    a total function into rows, never raises; a negative pm10 or pm25
    becomes null, any other pm10 or pm25 and every other field is kept;
    after scrubbing pm10 and pm25 are null or at least 0; scrubbing twice is
    scrubbing once. *)
Theorem scrubber_is_pure_and_idempotent (rows : list row) :
  (forall i, nth_error (scrub rows) i = option_map scrub_row (nth_error rows i))
  /\ (forall r,
        timestamp (scrub_row r) = timestamp r
        /\ temperature (scrub_row r) = temperature r
        /\ humidity (scrub_row r) = humidity r
        /\ wind_speed (scrub_row r) = wind_speed r
        /\ predicted_pm25 (scrub_row r) = predicted_pm25 r
        /\ (forall x, pm10 r = Some x -> x < 0 -> pm10 (scrub_row r) = None)
        /\ (forall x, pm10 r = Some x -> ~ x < 0 -> pm10 (scrub_row r) = Some x)
        /\ (pm10 r = None -> pm10 (scrub_row r) = None)
        /\ (forall x, pm25 r = Some x -> x < 0 -> pm25 (scrub_row r) = None)
        /\ (forall x, pm25 r = Some x -> ~ x < 0 -> pm25 (scrub_row r) = Some x)
        /\ (pm25 r = None -> pm25 (scrub_row r) = None))
  /\ (forall r x, In r (scrub rows) -> pm10 r = Some x -> 0 <= x)
  /\ (forall r x, In r (scrub rows) -> pm25 r = Some x -> 0 <= x)
  /\ scrub (scrub rows) = scrub rows.
Proof.
  split; [|split; [|split; [|split]]].
  - intros i. unfold scrub. apply nth_error_map.
  - intros r.
    destruct (scrub_value_cases (pm10 r)) as (A1 & A2 & A3).
    destruct (scrub_value_cases (pm25 r)) as (B1 & B2 & B3).
    repeat split; auto.
  - intros r x Hin. unfold scrub in Hin. apply in_map_iff in Hin as (r0 & <- & _).
    simpl. apply scrub_value_nonneg.
  - intros r x Hin. unfold scrub in Hin. apply in_map_iff in Hin as (r0 & <- & _).
    simpl. apply scrub_value_nonneg.
  - unfold scrub. rewrite map_map. apply map_ext. intros r. apply scrub_row_idempotent.
Qed.

End Scrubber.

(* ===================================================================== *)
(** * The Forecast Model *)
(* ===================================================================== *)

Section Forecast.

Import Etl.

Local Open Scope Q_scope.

Variable model : Type.
Variable fit : list (Q * Q * Q) -> list Q -> model.
Variable predict : model -> Q * Q * Q -> Q.

(** [dropna] keeps the training subset of section 4.4. *)
Lemma dropna_training_subset df : dropna df = EtlSpec.training_subset df.
Proof.
  unfold dropna, EtlSpec.training_subset. apply filter_ext. intros r.
  unfold complete, EtlSpec.present.
  destruct (temperature r), (wind_speed r), (humidity r), (pm25 r); reflexivity.
Qed.

Lemma dropna_complete df : Forall (fun r => complete r = true) (dropna df).
Proof.
  apply Forall_forall. intros r H. unfold dropna in H. now apply filter_In in H.
Qed.

(** On complete rows the training data are the rows' own values. *)
Lemma training_observations rows :
  Forall (fun r => complete r = true) rows ->
  EtlSpec.observations rows (training_X rows) (training_y rows)
  /\ values temperature rows = map (fun x => fst (fst x)) (training_X rows)
  /\ values wind_speed rows = map (fun x => snd (fst x)) (training_X rows)
  /\ values humidity rows = map snd (training_X rows)
  /\ length (training_X rows) = length rows.
Proof.
  unfold EtlSpec.observations, training_X, training_y, values.
  induction 1 as [|r rows Hr _ IH]; [repeat split|].
  destruct IH as ((I1 & I2 & I3 & I4) & I5 & I6 & I7 & I8).
  unfold complete in Hr. cbn [flat_map map].
  destruct (temperature r), (wind_speed r), (humidity r), (pm25 r); try discriminate.
  cbn [app map fst snd length]. rewrite I1, I2, I3, I4, I5, I6, I7, I8. repeat split.
Qed.

Lemma fold_left_Qplus xs : forall a, fold_left Qplus xs a == a + fold_right Qplus 0 xs.
Proof.
  induction xs as [|x xs IH]; intros a; simpl.
  - now rewrite Qplus_0_r.
  - rewrite IH. now rewrite Qplus_assoc.
Qed.

(** [mean] gives the mean. *)
Lemma mean_is_mean xs : xs <> [] -> exists m, mean xs = Some m /\ EtlSpec.is_mean xs m.
Proof.
  intros Hne. destruct xs as [|x xs]; [contradiction|].
  eexists. split; [reflexivity|]. split; [exact Hne|].
  rewrite fold_left_Qplus, Qplus_0_l.
  rewrite Qmult_comm. apply Qmult_div_r.
  intros H. unfold Qeq in H. simpl in H. lia.
Qed.

Lemma round_half_even_near q :
  Qabs (inject_Z (round_half_even q) - q) <= 1 # 2.
Proof.
  unfold round_half_even.
  pose proof (Qfloor_le q) as Hlo. pose proof (Qlt_floor q) as Hhi.
  set (n := Qfloor q) in *.
  rewrite inject_Z_plus in Hhi. change (inject_Z 1) with 1 in Hhi.
  apply Qabs_Qle_condition.
  destruct (Qcompare (q - inject_Z n) (1 # 2)) eqn:E.
  - apply Qeq_alt in E.
    destruct (Z.even n); [|rewrite inject_Z_plus; change (inject_Z 1) with 1]; lra.
  - apply Qlt_alt in E. lra.
  - apply Qgt_alt in E. rewrite inject_Z_plus. change (inject_Z 1) with 1. lra.
Qed.

Lemma hundredths n : n # 100 == inject_Z n / 100.
Proof. unfold Qeq, Qdiv, inject_Z. simpl. lia. Qed.

(** [round2] rounds to 2 decimal places. *)
Lemma round2_rounded q : EtlSpec.rounded_to_2_places q (round2 q).
Proof.
  unfold EtlSpec.rounded_to_2_places, round2. eexists. split; [reflexivity|].
  pose proof (round_half_even_near (q * 100)) as H.
  apply Qabs_Qle_condition in H. apply Qabs_Qle_condition.
  rewrite hundredths. set (z := inject_Z (round_half_even (q * 100))) in *.
  unfold Qdiv. change (/ 100) with (1 # 100). lra.
Qed.

Lemma nth_error_map_set {A B : Type} (f : A -> B) (l : list A) i r :
  nth_error l i = Some r -> nth_error (map f l) i = Some (f r).
Proof. intros H. rewrite nth_error_map, H. reflexivity. Qed.

(** C2: with a training subset (the rows where temperature, wind_speed,
    humidity and pm25 are all non-null) of fewer than ten rows
    [train_and_predict_ml] returns, without raising and whatever fitting
    would do, the frame with predicted_pm25 null in every row.  With ten or
    more it returns, without raising, a frame of as many rows in which
    every row of the full sequence carries a non-null predicted_pm25: the
    prediction, rounded to 2 decimal places, of the model fitted on the
    predictors and targets of the training subset, from the row's
    predictors with each missing one replaced by that predictor's mean over
    the training subset. *)
Theorem forecast_threshold (df : list row) :
  ((length (EtlSpec.training_subset df) < 10)%nat ->
     train_and_predict_ml model fit predict df = Ok (map (set_predicted None) df)
     /\ (forall r, In r (map (set_predicted None) df) -> predicted_pm25 r = None))
  /\ ((10 <= length (EtlSpec.training_subset df))%nat ->
      exists X y mt mw mh out,
        EtlSpec.observations (EtlSpec.training_subset df) X y
        /\ EtlSpec.is_mean (map (fun x => fst (fst x)) X) mt
        /\ EtlSpec.is_mean (map (fun x => snd (fst x)) X) mw
        /\ EtlSpec.is_mean (map snd X) mh
        /\ train_and_predict_ml model fit predict df = Ok out
        /\ length out = length df
        /\ forall i r, nth_error df i = Some r ->
             exists p,
               nth_error out i = Some (set_predicted (Some p) r)
               /\ EtlSpec.rounded_to_2_places
                    (predict (fit X y)
                       (EtlSpec.imputed mt (temperature r),
                        EtlSpec.imputed mw (wind_speed r),
                        EtlSpec.imputed mh (humidity r))) p).
Proof.
  rewrite <- dropna_training_subset. unfold train_and_predict_ml. split; intros Hlen.
  - apply Nat.ltb_lt in Hlen. rewrite Hlen. split; [reflexivity|].
    intros r Hin. apply in_map_iff in Hin as (r0 & <- & _). reflexivity.
  - assert (Hlt : (length (dropna df) <? 10)%nat = false) by (apply Nat.ltb_ge; exact Hlen).
    rewrite Hlt.
    destruct (training_observations (dropna df) (dropna_complete df))
      as (Hobs & Ht & Hw & Hh & HX).
    set (X := training_X (dropna df)) in *. set (y := training_y (dropna df)) in *.
    assert (Hne : forall {A : Type} (f : Q * Q * Q -> A), map f X <> []).
    { intros A f H. apply (f_equal (@length A)) in H. rewrite length_map, HX in H.
      simpl in H. lia. }
    destruct (mean_is_mean _ (Hne _ (fun x => fst (fst x)))) as (mt & Hmt & Hmt').
    destruct (mean_is_mean _ (Hne _ (fun x => snd (fst x)))) as (mw & Hmw & Hmw').
    destruct (mean_is_mean _ (Hne _ snd)) as (mh & Hmh & Hmh').
    exists X, y, mt, mw, mh. eexists.
    repeat (split; [first [assumption | reflexivity]|]).
    split; [apply length_map|].
    intros i r Hi.
    exists (round2 (predict (fit X y)
                      (EtlSpec.imputed mt (temperature r),
                       EtlSpec.imputed mw (wind_speed r),
                       EtlSpec.imputed mh (humidity r)))).
    split; [|apply round2_rounded].
    rewrite (nth_error_map_set _ _ _ _ Hi). do 2 f_equal.
    unfold forecast, features, column_mean. rewrite Ht, Hw, Hh, Hmt, Hmw, Hmh.
    destruct (temperature r), (wind_speed r), (humidity r); reflexivity.
Qed.

End Forecast.

Section ForecastExamples.

Import Etl.

Local Open Scope Q_scope.

Lemma forecast_threshold_witness :
  train_and_predict_ml Q EtlSamples.fit_mean EtlSamples.predict_mean EtlSamples.nine_rows
  = Ok (map (set_predicted None) EtlSamples.nine_rows)
  /\ exists out,
       train_and_predict_ml Q EtlSamples.fit_mean EtlSamples.predict_mean
         EtlSamples.ten_rows_and_a_sparse_one = Ok out
       /\ map predicted_pm25 out = repeat (Some (1450 # 100)) 11.
Proof.
  split.
  - apply (forecast_threshold Q EtlSamples.fit_mean EtlSamples.predict_mean
             EtlSamples.nine_rows).
    vm_compute. reflexivity.
  - destruct (forecast_threshold Q EtlSamples.fit_mean EtlSamples.predict_mean
                EtlSamples.ten_rows_and_a_sparse_one) as [_ H].
    assert (Hlen : (10 <= length (EtlSpec.training_subset
                                    EtlSamples.ten_rows_and_a_sparse_one))%nat)
      by (vm_compute; reflexivity).
    destruct (H Hlen) as (X & y & mt & mw & mh & out & _ & _ & _ & _ & Hrun & _).
    exists out. split; [exact Hrun|].
    vm_compute in Hrun. injection Hrun as <-. reflexivity.
Defined.

End ForecastExamples.

(* ===================================================================== *)
(** * The Series Aligner *)
(* ===================================================================== *)

Section Aligner.

Import Etl.

Local Open Scope Z_scope.

Variable to_datetime : string -> option Z.

Lemma in_join ws qs r :
  In r (join ws qs) <->
  exists w q, In w ws /\ In q qs /\ fst q = fst w
    /\ r = {| timestamp := fst w;
              temperature := w_temperature (snd w);
              humidity := w_humidity (snd w);
              wind_speed := w_wind_speed (snd w);
              pm10 := s_pm10 (snd q);
              pm25 := s_pm25 (snd q);
              predicted_pm25 := None |}.
Proof.
  unfold join. rewrite in_flat_map. split.
  - intros (w & Hw & Hr). apply in_map_iff in Hr as (q & <- & Hq).
    apply filter_In in Hq as [Hq E]. apply Z.eqb_eq in E.
    exists w, q. auto.
  - intros (w & q & Hw & Hq & E & ->). exists w. split; [exact Hw|].
    apply in_map_iff. exists q. split; [reflexivity|].
    apply filter_In. split; [exact Hq|]. now apply Z.eqb_eq.
Qed.

(** Under a key that occurs at most once the join finds one sample or
    none. *)
Lemma matches_of_unique_key {V : Type} (qs : list (Z * V)) (t : Z) :
  NoDup (map fst qs) ->
  map (fun _ : Z * V => t) (filter (fun q => fst q =? t) qs)
  = if existsb (Z.eqb t) (map fst qs) then [t] else [].
Proof.
  induction qs as [|[k v] qs IH]; intros Hnd; simpl; [reflexivity|].
  inversion Hnd as [|? ? Hnotin Hnd']; subst.
  rewrite (Z.eqb_sym t k).
  destruct (k =? t) eqn:E; simpl.
  - apply Z.eqb_eq in E. subst k.
    assert (Hnone : filter (fun q : Z * V => fst q =? t) qs = []).
    { clear -Hnotin. induction qs as [|[k v] qs IH]; simpl; [reflexivity|].
      simpl in Hnotin. destruct (k =? t) eqn:E.
      - apply Z.eqb_eq in E. subst. exfalso. apply Hnotin. now left.
      - apply IH. intros H. apply Hnotin. now right. }
    rewrite Hnone. reflexivity.
  - apply IH. exact Hnd'.
Qed.

Lemma join_timestamps ws qs :
  NoDup (map fst qs) ->
  map timestamp (join ws qs)
  = filter (fun t => existsb (Z.eqb t) (map fst qs)) (map fst ws).
Proof.
  intros Hq. unfold join.
  induction ws as [|w ws IH]; simpl; [reflexivity|].
  rewrite map_app, IH, map_map. simpl.
  rewrite (matches_of_unique_key qs (fst w) Hq).
  destruct (existsb (Z.eqb (fst w)) (map fst qs)); reflexivity.
Qed.

Lemma existsb_eqb_In t l : existsb (Z.eqb t) l = true <-> In t l.
Proof.
  rewrite existsb_exists. split.
  - intros (x & Hx & E). apply Z.eqb_eq in E. now subst.
  - intros H. exists t. split; [exact H | apply Z.eqb_refl].
Qed.

Lemma traverse_parsed (ts : list string) : forall instants,
  traverse to_datetime ts = Some instants ->
  length instants = length ts
  /\ forall t, In t instants -> exists s, In s ts /\ to_datetime s = Some t.
Proof.
  induction ts as [|s ts IH]; simpl; intros instants H.
  - injection H as <-. split; [reflexivity|]. intros t [].
  - destruct (to_datetime s) as [t0|] eqn:E; [|discriminate].
    destruct (traverse to_datetime ts) as [rest|]; [|discriminate].
    injection H as <-. destruct (IH rest eq_refl) as [Hl Hin]. split.
    + simpl. now rewrite Hl.
    + intros t [<- | Ht]; [exists s; auto|].
      destruct (Hin t Ht) as (s' & Hs' & E'). exists s'. auto.
Qed.

Lemma weather_series_parsed w ws :
  weather_series to_datetime w = Ok ws ->
  forall t, In t (map fst ws) -> exists s, to_datetime s = Some t.
Proof.
  unfold weather_series.
  destruct (w_hourly w) as [h|]; [|discriminate].
  destruct (w_time h) as [ts|]; [|discriminate].
  destruct (temperature_2m h) as [te|]; [|discriminate].
  destruct (relative_humidity_2m h) as [hu|]; [|discriminate].
  destruct (wind_speed_10m h) as [wi|]; [|discriminate].
  destruct (_ && _); [|discriminate].
  destruct (traverse to_datetime ts) as [instants|] eqn:E; [|discriminate].
  intros [= <-] t Ht.
  apply in_map_iff in Ht as ([t' v] & <- & Hin). apply in_combine_l in Hin.
  destruct (traverse_parsed ts instants E) as [_ H].
  destruct (H t' Hin) as (s & _ & Hs). eauto.
Qed.

(** C4: for weather and air-quality collections keyed by timestamp (no
    timestamp twice in a collection) that are neither empty nor malformed,
    the Series Aligner returns rows whose timestamps are exactly the
    timestamps present in both collections, each once, in the order of the
    weather collection; every row carries the three weather fields and the
    two air-quality fields of the samples at its timestamp; and every row's
    timestamp is an instant parsed from a source time string, never a null. *)
Theorem aligner_exact_timestamps (w : OpenMeteoWeatherResponse) (aq : OpenMeteoAQResponse)
    (ws : list (Z * weather_values)) (qs : list (Z * aq_sample)) :
  weather_series to_datetime w = Ok ws ->
  aq_series to_datetime aq = Ok qs ->
  ws <> [] -> qs <> [] ->
  NoDup (map fst ws) -> NoDup (map fst qs) ->
  exists rows,
    align to_datetime w aq = Ok rows
    /\ (forall t, In t (map timestamp rows) <-> In t (map fst ws) /\ In t (map fst qs))
    /\ NoDup (map timestamp rows)
    /\ map timestamp rows
       = filter (fun t => existsb (Z.eqb t) (map fst qs)) (map fst ws)
    /\ (forall r, In r rows ->
        exists wv qv,
          In (timestamp r, wv) ws /\ In (timestamp r, qv) qs
          /\ temperature r = w_temperature wv
          /\ humidity r = w_humidity wv
          /\ wind_speed r = w_wind_speed wv
          /\ pm10 r = s_pm10 qv
          /\ pm25 r = s_pm25 qv)
    /\ (forall r, In r rows -> exists s, to_datetime s = Some (timestamp r)).
Proof.
  intros Hw Hq Hwne Hqne Hwd Hqd.
  exists (join ws qs). unfold align. rewrite Hw, Hq.
  destruct ws as [|w0 ws']; [contradiction|].
  destruct qs as [|q0 qs']; [contradiction|].
  cbn [is_empty orb].
  set (ws := w0 :: ws') in *. set (qs := q0 :: qs') in *.
  pose proof (join_timestamps ws qs Hqd) as Hts.
  split; [reflexivity|]. split; [|split; [|split; [exact Hts|split]]].
  - intros t. rewrite Hts, filter_In, existsb_eqb_In. tauto.
  - rewrite Hts. apply NoDup_filter. exact Hwd.
  - intros r Hr. apply in_join in Hr as ([t wv] & [t' qv] & Hinw & Hinq & E & ->).
    simpl in *. subst t'. exists wv, qv. repeat split; auto.
  - intros r Hr.
    apply (weather_series_parsed w ws Hw).
    apply in_join in Hr as (w1 & q1 & Hinw & _ & _ & ->).
    exact (in_map fst ws w1 Hinw).
Qed.

End Aligner.

Section AlignerExamples.

Import Etl.

Local Open Scope Z_scope.

Lemma aligner_exact_timestamps_witness :
  exists rows,
    align EtlSamples.to_datetime EtlSamples.weather EtlSamples.air_quality = Ok rows
    /\ map timestamp rows = [1766620800; 1766624400].
Proof.
  destruct (aligner_exact_timestamps EtlSamples.to_datetime
              EtlSamples.weather EtlSamples.air_quality _ _ eq_refl eq_refl)
    as (rows & Hal & _ & _ & Hts & _).
  - discriminate.
  - discriminate.
  - vm_compute. repeat constructor; simpl; intuition discriminate.
  - vm_compute. repeat constructor; simpl; intuition discriminate.
  - exists rows. split; [exact Hal|]. rewrite Hts. vm_compute. reflexivity.
Defined.

End AlignerExamples.

(* ===================================================================== *)
(** * Malformed source data and [main]'s per-city isolation *)
(* ===================================================================== *)

Section MalformedSource.

Import Etl.

Variable to_datetime : string -> option Z.
Variable model : Type.
Variable fit : list (Q * Q * Q) -> list Q -> model.
Variable predict : model -> Q * Q * Q -> Q.

Lemma weather_defective_series w :
  EtlSpec.weather_incomplete w || EtlSpec.weather_empty w || EtlSpec.weather_mismatched w
  = true ->
  weather_series to_datetime w = Raise MalformedSourceData
  \/ weather_series to_datetime w = Ok [].
Proof.
  unfold EtlSpec.weather_incomplete, EtlSpec.weather_empty, EtlSpec.weather_mismatched,
    weather_series.
  destruct (w_hourly w) as [h|]; [|now left].
  destruct (w_time h) as [ts|]; [|now left].
  destruct (temperature_2m h) as [te|]; [|now left].
  destruct (relative_humidity_2m h) as [hu|]; [|now left].
  destruct (wind_speed_10m h) as [wi|]; [|now left].
  destruct (_ && _) eqn:E; [|now left].
  destruct ts as [|s ts]; simpl; [now right | discriminate].
Qed.

Lemma aq_defective_series aq :
  EtlSpec.aq_incomplete aq || EtlSpec.aq_empty aq || EtlSpec.aq_mismatched aq = true ->
  aq_series to_datetime aq = Raise MalformedSourceData
  \/ aq_series to_datetime aq = Ok [].
Proof.
  unfold EtlSpec.aq_incomplete, EtlSpec.aq_empty, EtlSpec.aq_mismatched, aq_series.
  destruct (aq_hourly aq) as [h|]; [|now left].
  destruct (aq_time h) as [ts|]; [|now left].
  destruct (aq_pm10 h) as [p10|]; [|now left].
  destruct (pm2_5 h) as [p25|]; [|now left].
  destruct (_ && _) eqn:E; [|now left].
  destruct ts as [|s ts]; simpl; [now right | discriminate].
Qed.

Lemma defective_align w aq :
  EtlSpec.defective w aq = true -> align to_datetime w aq = Raise MalformedSourceData.
Proof.
  unfold EtlSpec.defective. intros H.
  assert (Hcases :
    EtlSpec.weather_incomplete w || EtlSpec.weather_empty w || EtlSpec.weather_mismatched w
    = true
    \/ EtlSpec.aq_incomplete aq || EtlSpec.aq_empty aq || EtlSpec.aq_mismatched aq = true).
  { repeat (apply orb_true_iff in H as [H|H]);
      rewrite ?H, ?orb_true_r; simpl; auto. }
  unfold align. destruct Hcases as [Hw | Hq].
  - destruct (weather_defective_series w Hw) as [-> | ->]; [reflexivity|].
    destruct (aq_series to_datetime aq); reflexivity.
  - destruct (aq_defective_series aq Hq) as [-> | ->];
      destruct (weather_series to_datetime w) as [ws|]; try reflexivity.
    simpl. now rewrite orb_true_r.
Qed.

Lemma run_cities_log cities : forall conn log,
  fold_left
    (fun st c =>
       let (conn', r) := run_city to_datetime model fit predict (fst st) c in
       (conn', snd st ++ [(city_name (city c), r)]))
    cities (conn, log)
  = (fst (run_cities to_datetime model fit predict cities conn),
     log ++ snd (run_cities to_datetime model fit predict cities conn)).
Proof.
  unfold run_cities.
  induction cities as [|c cities IH]; intros conn log; simpl.
  - now rewrite app_nil_r.
  - destruct (run_city to_datetime model fit predict conn c) as [conn' r]. simpl.
    rewrite IH. rewrite (IH conn' [_]). simpl. now rewrite <- app_assoc.
Qed.

Lemma run_cities_app l1 l2 conn :
  run_cities to_datetime model fit predict (l1 ++ l2) conn
  = (fst (run_cities to_datetime model fit predict l2
            (fst (run_cities to_datetime model fit predict l1 conn))),
     snd (run_cities to_datetime model fit predict l1 conn)
     ++ snd (run_cities to_datetime model fit predict l2
               (fst (run_cities to_datetime model fit predict l1 conn)))).
Proof.
  unfold run_cities at 1. rewrite fold_left_app.
  fold (run_cities to_datetime model fit predict l1 conn).
  destruct (run_cities to_datetime model fit predict l1 conn) as [c1 log1]. simpl.
  apply run_cities_log.
Qed.

Lemma run_cities_cons c l conn :
  run_cities to_datetime model fit predict (c :: l) conn
  = (fst (run_cities to_datetime model fit predict l
            (fst (run_city to_datetime model fit predict conn c))),
     (city_name (city c), snd (run_city to_datetime model fit predict conn c))
     :: snd (run_cities to_datetime model fit predict l
               (fst (run_city to_datetime model fit predict conn c)))).
Proof.
  unfold run_cities at 1. simpl.
  destruct (run_city to_datetime model fit predict conn c) as [conn' r]. simpl.
  apply run_cities_log.
Qed.

Lemma run_cities_length l : forall conn,
  length (snd (run_cities to_datetime model fit predict l conn)) = length l.
Proof.
  induction l as [|c l IH]; intros conn; [reflexivity|].
  rewrite run_cities_cons. simpl. now rewrite IH.
Qed.

(** C5: when a city's fetched payloads are empty or malformed (the [hourly]
    object or one of its arrays is missing, the [time] array is empty, or
    the arrays differ in length), the Series Aligner raises
    [MalformedSourceData] and returns no rows, so does [transform_data], and
    the city's run ends there with the connection untouched; in [main] the
    other cities run as if that city were not in the list: the final
    database is the same and their outcomes are the same. *)
Theorem malformed_source_aborts_only_that_city (c : city_run)
    (w : OpenMeteoWeatherResponse) (aq : OpenMeteoAQResponse) :
  fetched c = Ok (w, aq) ->
  EtlSpec.defective w aq = true ->
  align to_datetime w aq = Raise MalformedSourceData
  /\ transform_data to_datetime w aq = Raise MalformedSourceData
  /\ (forall conn,
        run_city to_datetime model fit predict conn c = (conn, Raise MalformedSourceData))
  /\ (forall before after d,
        fst (main to_datetime model fit predict (before ++ c :: after) d)
        = fst (main to_datetime model fit predict (before ++ after) d)
        /\ exists log1 log2,
             snd (main to_datetime model fit predict (before ++ after) d) = log1 ++ log2
             /\ length log1 = length before
             /\ snd (main to_datetime model fit predict (before ++ c :: after) d)
                = log1 ++ (city_name (city c), Raise MalformedSourceData) :: log2).
Proof.
  intros Hf Hd.
  pose proof (defective_align w aq Hd) as Hal.
  assert (Htr : transform_data to_datetime w aq = Raise MalformedSourceData)
    by (unfold transform_data; now rewrite Hal).
  assert (Hrun : forall conn,
             run_city to_datetime model fit predict conn c
             = (conn, Raise MalformedSourceData))
    by (intros conn; unfold run_city; now rewrite Hf, Htr).
  split; [exact Hal|]. split; [exact Htr|]. split; [exact Hrun|].
  intros before after d. unfold main.
  rewrite !run_cities_app, run_cities_cons, Hrun. simpl.
  split; [reflexivity|].
  eexists _, _. split; [reflexivity|]. split; [apply run_cities_length | reflexivity].
Qed.

End MalformedSource.

Section MalformedSourceExamples.

Import Etl.

Lemma malformed_source_aborts_only_that_city_witness :
  align EtlSamples.to_datetime EtlSamples.weather EtlSamples.no_hours
  = Raise MalformedSourceData
  /\ snd (main EtlSamples.to_datetime Q EtlSamples.fit_mean EtlSamples.predict_mean
            [EtlSamples.berlin_run; EtlSamples.moscow_run] empty_database)
     = [("Berlin"%string, Raise MalformedSourceData); ("Moscow"%string, Ok tt)]
  /\ fst (main EtlSamples.to_datetime Q EtlSamples.fit_mean EtlSamples.predict_mean
            [EtlSamples.berlin_run; EtlSamples.moscow_run] empty_database)
     = fst (main EtlSamples.to_datetime Q EtlSamples.fit_mean EtlSamples.predict_mean
              [EtlSamples.moscow_run] empty_database).
Proof.
  destruct (malformed_source_aborts_only_that_city EtlSamples.to_datetime Q
              EtlSamples.fit_mean EtlSamples.predict_mean EtlSamples.berlin_run
              EtlSamples.weather EtlSamples.no_hours eq_refl eq_refl)
    as (Hal & _ & _ & Hmain).
  split; [exact Hal|].
  destruct (Hmain [] [EtlSamples.moscow_run] empty_database) as [Hdb _].
  split; [vm_compute; reflexivity | exact Hdb].
Defined.

End MalformedSourceExamples.

(* ===================================================================== *)
(** * The Upsert Loader *)
(* ===================================================================== *)

Section Tables.

Import Etl.

Context {V : Type}.

Lemma key_eqb_eq (a b : key) : key_eqb a b = true <-> a = b.
Proof.
  unfold key_eqb. destruct a as [a1 a2], b as [b1 b2]. simpl.
  rewrite andb_true_iff, !Z.eqb_eq. split; [intros [-> ->]; reflexivity|].
  intros [= -> ->]. auto.
Qed.

Lemma key_eqb_refl (a : key) : key_eqb a a = true.
Proof. now apply key_eqb_eq. Qed.

Lemma key_eqb_neq (a b : key) : a <> b -> key_eqb a b = false.
Proof.
  intros H. destruct (key_eqb a b) eqn:E; [|reflexivity].
  apply key_eqb_eq in E. contradiction.
Qed.

Lemma existsb_key_eqb (k : key) (l : list key) : existsb (key_eqb k) l = true <-> In k l.
Proof.
  rewrite existsb_exists. split.
  - intros (x & Hin & E). apply key_eqb_eq in E. now subst.
  - intros H. exists k. split; [exact H | apply key_eqb_refl].
Qed.

Lemma lookup_upsert_same (k : key) (v : V) (t : table V) : lookup k (upsert k v t) = Some v.
Proof.
  induction t as [|[k' v'] t IH]; simpl.
  - now rewrite key_eqb_refl.
  - destruct (key_eqb k' k) eqn:E; simpl; rewrite E; [reflexivity | exact IH].
Qed.

Lemma lookup_upsert_other (k k' : key) (v : V) (t : table V) :
  k <> k' -> lookup k' (upsert k v t) = lookup k' t.
Proof.
  intros Hne. induction t as [|[k0 v0] t IH]; simpl.
  - now rewrite key_eqb_neq.
  - destruct (key_eqb k0 k) eqn:E; simpl.
    + apply key_eqb_eq in E. subst k0. now rewrite key_eqb_neq.
    + now rewrite IH.
Qed.

(** Writing the value a key holds already changes nothing. *)
Lemma upsert_same (k : key) (v : V) (t : table V) : lookup k t = Some v -> upsert k v t = t.
Proof.
  induction t as [|[k' v'] t IH]; simpl; [discriminate|].
  destruct (key_eqb k' k) eqn:E.
  - intros [= ->]. reflexivity.
  - intros H. now rewrite IH.
Qed.

Lemma keys_upsert (k : key) (v : V) (t : table V) :
  (In k (keys t) -> keys (upsert k v t) = keys t)
  /\ (~ In k (keys t) -> keys (upsert k v t) = keys t ++ [k]).
Proof.
  induction t as [|[k0 v0] t [IH1 IH2]]; simpl.
  - split; [intros [] | reflexivity].
  - destruct (key_eqb k0 k) eqn:E; simpl.
    + apply key_eqb_eq in E. subst k0. split; [reflexivity|].
      intros H. exfalso. apply H. now left.
    + split.
      * intros [H | H]; [subst; now rewrite key_eqb_refl in E|]. now rewrite IH1.
      * intros H. rewrite IH2; [reflexivity|]. intros H'. apply H. now right.
Qed.

Lemma in_keys_upsert (k k' : key) (v : V) (t : table V) :
  In k' (keys (upsert k v t)) <-> k' = k \/ In k' (keys t).
Proof.
  destruct (keys_upsert k v t) as [H1 H2].
  destruct (in_dec (fun a b : key => ltac:(decide equality; apply Z.eq_dec)) k (keys t))
    as [Hin | Hnin].
  - rewrite (H1 Hin). split; [auto|]. intros [-> | H]; assumption.
  - rewrite (H2 Hnin), in_app_iff. simpl. intuition.
Qed.

Lemma upsert_unique (k : key) (v : V) (t : table V) :
  NoDup (keys t) -> NoDup (keys (upsert k v t)).
Proof.
  intros Hnd. destruct (keys_upsert k v t) as [H1 H2].
  destruct (in_dec (fun a b : key => ltac:(decide equality; apply Z.eq_dec)) k (keys t))
    as [Hin | Hnin].
  - now rewrite (H1 Hin).
  - rewrite (H2 Hnin). apply NoDup_app; [exact Hnd | repeat constructor; intros [] |].
    intros x Hx [<- | []]. contradiction.
Qed.

Lemma upserts_unique (batch : list (key * V)) : forall t : table V,
  NoDup (keys t) -> NoDup (keys (EtlSpec.upserts t batch)).
Proof.
  unfold EtlSpec.upserts.
  induction batch as [|[k v] batch IH]; intros t Hnd; simpl; [exact Hnd|].
  apply IH, upsert_unique, Hnd.
Qed.

Lemma in_keys_upserts (batch : list (key * V)) : forall (t : table V) (k : key),
  In k (keys (EtlSpec.upserts t batch)) <-> In k (keys batch) \/ In k (keys t).
Proof.
  unfold EtlSpec.upserts.
  induction batch as [|[k0 v0] batch IH]; intros t k; simpl; [tauto|].
  rewrite IH, in_keys_upsert. intuition.
Qed.

(** A key the batch does not name keeps its value. *)
Lemma lookup_upserts_other (batch : list (key * V)) : forall (t : table V) (k : key),
  ~ In k (keys batch) -> lookup k (EtlSpec.upserts t batch) = lookup k t.
Proof.
  unfold EtlSpec.upserts.
  induction batch as [|[k0 v0] batch IH]; intros t k Hk; simpl; [reflexivity|].
  rewrite IH by (intros H; apply Hk; now right).
  apply lookup_upsert_other. intros ->. apply Hk. now left.
Qed.

(** After a batch that names each key once, a key of the batch holds the
    value the batch gives it. *)
Lemma lookup_upserts_in (batch : list (key * V)) : forall (t : table V) k v,
  NoDup (keys batch) -> In (k, v) batch -> lookup k (EtlSpec.upserts t batch) = Some v.
Proof.
  induction batch as [|[k0 v0] batch IH]; intros t k v Hnd Hin; [contradiction|].
  simpl in Hnd. inversion Hnd as [|? ? Hnotin Hnd']; subst.
  change (EtlSpec.upserts t ((k0, v0) :: batch))
    with (EtlSpec.upserts (upsert k0 v0 t) batch).
  destruct Hin as [[= -> ->] | Hin].
  - rewrite lookup_upserts_other by exact Hnotin. apply lookup_upsert_same.
  - now apply IH.
Qed.

Lemma keys_upserts_present (batch : list (key * V)) : forall t : table V,
  (forall k, In k (keys batch) -> In k (keys t)) ->
  keys (EtlSpec.upserts t batch) = keys t.
Proof.
  unfold EtlSpec.upserts.
  induction batch as [|[k0 v0] batch IH]; intros t H; simpl; [reflexivity|].
  assert (Hk : keys (upsert k0 v0 t) = keys t)
    by (apply keys_upsert, H; now left).
  rewrite IH, Hk; [reflexivity|].
  intros k Hin. rewrite Hk. apply H. now right.
Qed.

Lemma lookup_absent (k : key) (t : table V) : ~ In k (keys t) -> lookup k t = None.
Proof.
  induction t as [|[k0 v0] t IH]; simpl; intros H; [reflexivity|].
  destruct (key_eqb k0 k) eqn:E.
  - apply key_eqb_eq in E. exfalso. apply H. now left.
  - apply IH. intros H'. apply H. now right.
Qed.

(** Two tables with the same keys in the same order, each once, and the
    same value under every key are the same table. *)
Lemma table_ext (t1 : table V) : forall t2 : table V,
  NoDup (keys t1) -> keys t1 = keys t2 ->
  (forall k, lookup k t1 = lookup k t2) -> t1 = t2.
Proof.
  induction t1 as [|[k1 v1] t1 IH]; intros [|[k2 v2] t2] Hnd Hk Hl;
    try discriminate; [reflexivity|].
  simpl in Hk. injection Hk as -> Hk.
  inversion Hnd as [|? ? Hnotin Hnd']; subst.
  pose proof (Hl k2) as H2. simpl in H2. rewrite key_eqb_refl in H2.
  injection H2 as ->. f_equal. apply IH; [exact Hnd' | exact Hk|].
  intros k. destruct (key_eqb k2 k) eqn:E.
  - apply key_eqb_eq in E. subst k.
    rewrite !lookup_absent; [reflexivity | now rewrite <- Hk | exact Hnotin].
  - specialize (Hl k). simpl in Hl. now rewrite E in Hl.
Qed.

Lemma key_in_dec (k : key) (l : list key) : {In k l} + {~ In k l}.
Proof. apply in_dec. decide equality; apply Z.eq_dec. Qed.

(** What a key of the batch holds after the batch is the batch's matter
    alone. *)
Lemma lookup_upserts_base (batch : list (key * V)) : forall (t1 t2 : table V) k,
  In k (keys batch) ->
  lookup k (EtlSpec.upserts t1 batch) = lookup k (EtlSpec.upserts t2 batch).
Proof.
  induction batch as [|[k0 v0] batch IH]; intros t1 t2 k Hin; [contradiction|].
  change (EtlSpec.upserts t1 ((k0, v0) :: batch))
    with (EtlSpec.upserts (upsert k0 v0 t1) batch).
  change (EtlSpec.upserts t2 ((k0, v0) :: batch))
    with (EtlSpec.upserts (upsert k0 v0 t2) batch).
  destruct (key_in_dec k (keys batch)) as [Hk | Hk]; [now apply IH|].
  destruct Hin as [<- | Hin]; [|contradiction].
  rewrite !lookup_upserts_other by exact Hk. simpl. now rewrite !lookup_upsert_same.
Qed.

(** After a batch a key holds the value of the batch's last row for it. *)
Lemma lookup_upserts_last (b1 b2 : list (key * V)) (t : table V) k v :
  ~ In k (keys b2) -> lookup k (EtlSpec.upserts t (b1 ++ (k, v) :: b2)) = Some v.
Proof.
  intros Hk. unfold EtlSpec.upserts. rewrite fold_left_app. simpl.
  fold (EtlSpec.upserts (upsert k v (fold_left (fun t kv => upsert (fst kv) (snd kv) t) b1 t)) b2).
  rewrite lookup_upserts_other by exact Hk. apply lookup_upsert_same.
Qed.

Lemma upserts_app (b1 b2 : list (key * V)) (t : table V) :
  EtlSpec.upserts t (b1 ++ b2) = EtlSpec.upserts (EtlSpec.upserts t b1) b2.
Proof. unfold EtlSpec.upserts. apply fold_left_app. Qed.

(** The same batch written a second time leaves the table as it is. *)
Lemma upserts_idempotent (t : table V) (batch : list (key * V)) :
  NoDup (keys t) ->
  EtlSpec.upserts (EtlSpec.upserts t batch) batch = EtlSpec.upserts t batch.
Proof.
  intros Hnd. apply table_ext.
  - apply upserts_unique, upserts_unique, Hnd.
  - apply keys_upserts_present. intros k Hk. apply in_keys_upserts. now left.
  - intros k. destruct (key_in_dec k (keys batch)) as [Hk | Hk].
    + now apply lookup_upserts_base.
    + now apply lookup_upserts_other.
Qed.

Lemma rows_with_key_absent (k : key) (t : table V) :
  ~ In k (keys t) -> EtlSpec.rows_with_key k t = 0%nat.
Proof.
  unfold EtlSpec.rows_with_key.
  induction t as [|[k0 v0] t IH]; simpl; intros H; [reflexivity|].
  destruct (key_eqb k0 k) eqn:E.
  - apply key_eqb_eq in E. exfalso. apply H. now left.
  - apply IH. intros H'. apply H. now right.
Qed.

Lemma rows_with_key_unique (k : key) (t : table V) :
  NoDup (keys t) ->
  (EtlSpec.rows_with_key k t <= 1)%nat
  /\ (In k (keys t) -> EtlSpec.rows_with_key k t = 1%nat).
Proof.
  induction t as [|[k0 v0] t IH]; simpl; intros Hnd.
  - split; [unfold EtlSpec.rows_with_key; simpl; lia | intros []].
  - inversion Hnd as [|? ? Hnotin Hnd']; subst.
    destruct (IH Hnd') as [IH1 IH2].
    unfold EtlSpec.rows_with_key in *. simpl.
    destruct (key_eqb k0 k) eqn:E; simpl.
    + apply key_eqb_eq in E. subst k0.
      pose proof (rows_with_key_absent k t Hnotin) as H0.
      unfold EtlSpec.rows_with_key in H0. rewrite H0. split; [lia | reflexivity].
    + split; [exact IH1|]. intros [-> | H]; [now rewrite key_eqb_refl in E | auto].
Qed.

(** *** One statement for all rows *)

Variable assign : V -> outcome V.

Lemma assigned_keys batch batch' : Forall2 (EtlSpec.assigned assign) batch batch' -> keys batch' = keys batch.
Proof.
  induction 1 as [|kv kv' b b' [Hk _] _ IH]; [reflexivity|].
  unfold keys in *. simpl. now rewrite Hk, IH.
Qed.

(** A statement that is not refused names each key once, none of them
    affected before, and writes the rows with their values as the columns
    take them. *)
Lemma insert_rows_ok (batch : list (key * V)) : forall affected t t',
  insert_rows assign affected t batch = Ok t' ->
  exists batch',
    Forall2 (EtlSpec.assigned assign) batch batch' /\ t' = EtlSpec.upserts t batch'
    /\ NoDup (keys batch) /\ (forall k, In k (keys batch) -> ~ In k affected).
Proof.
  induction batch as [|[k v] batch IH]; intros affected t t' H; simpl in H.
  - injection H as <-. exists []. repeat split; [constructor | constructor | intros k []].
  - unfold bind in H. destruct (assign v) as [v'|e] eqn:Ev; [|discriminate].
    destruct (existsb (key_eqb k) affected) eqn:Ea; [discriminate|].
    destruct (IH _ _ _ H) as (b' & HF & -> & Hnd & Hdis).
    exists ((k, v') :: b'). repeat split.
    + constructor; [split; [reflexivity | exact Ev] | exact HF].
    + simpl. constructor; [|exact Hnd]. intros Hin. apply (Hdis k Hin). now left.
    + intros k0 [<- | Hin] Haff.
      * apply existsb_key_eqb in Haff. simpl in Haff. congruence.
      * apply (Hdis k0 Hin). now right.
Qed.

(** And a batch of that kind is not refused. *)
Lemma insert_rows_succeeds (batch batch' : list (key * V)) :
  Forall2 (EtlSpec.assigned assign) batch batch' -> forall affected t,
  NoDup (keys batch) -> (forall k, In k (keys batch) -> ~ In k affected) ->
  insert_rows assign affected t batch = Ok (EtlSpec.upserts t batch').
Proof.
  induction 1 as [|[k v] [k' v'] b b' [Hk Hv] _ IH]; intros affected t Hnd Hdis;
    [reflexivity|].
  simpl in Hk, Hv. subst k'. simpl. rewrite Hv. unfold bind.
  destruct (existsb (key_eqb k) affected) eqn:Ea.
  - apply existsb_key_eqb in Ea. exfalso. apply (Hdis k); [now left | exact Ea].
  - simpl in Hnd. inversion Hnd as [|? ? Hnotin Hnd']; subst.
    apply IH; [exact Hnd'|].
    intros k0 Hin [<- | Haff]; [contradiction|].
    apply (Hdis k0); [now right | exact Haff].
Qed.

(** *** One statement per page *)

Lemma paginate_from_concat {A : Type} (page_size : nat) (seq : list A) :
  forall room page, concat (paginate_from page_size room page seq) = page ++ seq.
Proof.
  induction seq as [|x seq IH]; intros room page; simpl.
  - destruct page; simpl; [reflexivity | now rewrite !app_nil_r].
  - destruct room as [|[|r]]; simpl; rewrite IH, <- ?app_assoc; reflexivity.
Qed.

(** The pages hold the rows, in order. *)
Lemma paginate_concat {A : Type} (page_size : nat) (seq : list A) :
  concat (paginate page_size seq) = seq.
Proof. unfold paginate. now rewrite paginate_from_concat. Qed.

(** A page that holds all rows is the only one. *)
Lemma paginate_from_one {A : Type} (page_size : nat) (seq : list A) :
  forall room page, (length seq <= room)%nat -> page ++ seq <> [] ->
  paginate_from page_size room page seq = [page ++ seq].
Proof.
  induction seq as [|x seq IH]; intros room page Hlen Hne; simpl.
  - rewrite app_nil_r in *. destruct page; [contradiction | reflexivity].
  - simpl in Hlen. destruct room as [|[|r]]; [lia | |].
    + destruct seq; [reflexivity | simpl in Hlen; lia].
    + rewrite IH; [now rewrite <- app_assoc | lia |].
      intros H. apply app_eq_nil in H as [H _]. now apply app_eq_nil in H as [_ H].
Qed.

Lemma keys_app (b1 b2 : list (key * V)) : keys (b1 ++ b2) = keys b1 ++ keys b2.
Proof. unfold keys. apply map_app. Qed.

(** No key twice among the rows: none twice in a page. *)
Lemma pages_unique (pages : list (list (key * V))) :
  NoDup (keys (concat pages)) -> Forall (fun p => NoDup (keys p)) pages.
Proof.
  induction pages as [|p pages IH]; simpl; intros H; constructor.
  - rewrite keys_app in H. now apply NoDup_app_remove_r in H.
  - apply IH. rewrite keys_app in H. now apply NoDup_app_remove_l in H.
Qed.

(** The statements of a call that is not refused name no key twice within
    a page, and write the rows, one after the other, with their values as
    the columns take them. *)
Lemma execute_pages_ok (pages : list (list (key * V))) : forall t t',
  execute_pages assign t pages = Ok t' ->
  exists batch',
    Forall2 (EtlSpec.assigned assign) (concat pages) batch'
    /\ t' = EtlSpec.upserts t batch'
    /\ Forall (fun p => NoDup (keys p)) pages.
Proof.
  induction pages as [|p pages IH]; intros t t' H; simpl in H.
  - injection H as <-. exists []. repeat split; constructor.
  - unfold bind in H. destruct (insert_rows assign [] t p) as [t1|e] eqn:E; [|discriminate].
    destruct (insert_rows_ok _ _ _ _ E) as (b1 & HF1 & -> & Hnd & _).
    destruct (IH _ _ H) as (b2 & HF2 & -> & Hnds).
    exists (b1 ++ b2). split; [now apply Forall2_app|].
    split; [now rewrite upserts_app | now constructor].
Qed.

(** And a call of that kind is not refused. *)
Lemma execute_pages_succeeds (pages : list (list (key * V))) : forall batch' t,
  Forall2 (EtlSpec.assigned assign) (concat pages) batch' ->
  Forall (fun p => NoDup (keys p)) pages ->
  execute_pages assign t pages = Ok (EtlSpec.upserts t batch').
Proof.
  induction pages as [|p pages IH]; intros batch' t HF Hnd; simpl in *.
  - inversion HF. reflexivity.
  - apply Forall2_app_inv_l in HF as (b1 & b2 & HF1 & HF2 & ->).
    inversion Hnd as [|? ? Hp Hps]; subst.
    rewrite (insert_rows_succeeds _ _ HF1 [] t Hp) by (intros k _ []).
    unfold bind. rewrite (IH _ _ HF2 Hps). now rewrite upserts_app.
Qed.

Lemma execute_values_ok (page_size : nat) (batch : list (key * V)) t t' :
  execute_values assign page_size t batch = Ok t' ->
  exists batch',
    Forall2 (EtlSpec.assigned assign) batch batch' /\ t' = EtlSpec.upserts t batch'
    /\ Forall (fun p => NoDup (keys p)) (paginate page_size batch).
Proof.
  intros H. destruct (execute_pages_ok _ _ _ H) as (b' & HF & Ht & Hnd).
  rewrite paginate_concat in HF. eauto.
Qed.

Lemma execute_values_succeeds (page_size : nat) (batch batch' : list (key * V)) t :
  Forall2 (EtlSpec.assigned assign) batch batch' ->
  Forall (fun p => NoDup (keys p)) (paginate page_size batch) ->
  execute_values assign page_size t batch = Ok (EtlSpec.upserts t batch').
Proof.
  intros HF Hnd. apply execute_pages_succeeds; [|exact Hnd]. now rewrite paginate_concat.
Qed.

(** A call that was not refused is not refused a second time, and leaves
    the table as the first left it. *)
Lemma execute_values_idempotent (page_size : nat) (batch : list (key * V)) t t' :
  NoDup (keys t) ->
  execute_values assign page_size t batch = Ok t' ->
  execute_values assign page_size t' batch = Ok t'.
Proof.
  intros Hu H. destruct (execute_values_ok _ _ _ _ H) as (b' & HF & -> & Hnd).
  rewrite (execute_values_succeeds _ _ _ _ HF Hnd). f_equal.
  now apply upserts_idempotent.
Qed.

(** A call keeps the uniqueness constraint. *)
Lemma execute_values_unique (page_size : nat) (batch : list (key * V)) t t' :
  execute_values assign page_size t batch = Ok t' -> NoDup (keys t) -> NoDup (keys t').
Proof.
  intros H Hnd. destruct (execute_values_ok _ _ _ _ H) as (b' & _ & -> & _).
  now apply upserts_unique.
Qed.

(** No key twice among the rows: the call is one that repeats no key
    within a statement, whatever the page size. *)
Lemma paginate_unique (page_size : nat) (batch : list (key * V)) :
  NoDup (keys batch) -> Forall (fun p => NoDup (keys p)) (paginate page_size batch).
Proof. intros H. apply pages_unique. now rewrite paginate_concat. Qed.

(** With all rows in one page a repeated key is refused. *)
Lemma single_statement_refuses_repeats (page_size : nat) (batch : list (key * V)) t t' :
  (length batch <= page_size)%nat ->
  execute_values assign page_size t batch = Ok t' -> NoDup (keys batch).
Proof.
  intros Hlen H. destruct (execute_values_ok _ _ _ _ H) as (_ & _ & _ & Hnd).
  destruct batch as [|kv batch]; [constructor|].
  unfold paginate in Hnd. rewrite paginate_from_one in Hnd by (simpl in *; try lia; discriminate).
  now inversion Hnd.
Qed.

End Tables.

Section TablesLookup.

Import Etl.

Context {V : Type}.

Variable assign : V -> outcome V.

Lemma assigned_split (b1 b2 b' : list (key * V)) k v :
  Forall2 (EtlSpec.assigned assign) (b1 ++ (k, v) :: b2) b' ->
  exists b1' v' b2',
    b' = b1' ++ (k, v') :: b2' /\ assign v = Ok v' /\ keys b2' = keys b2.
Proof.
  intros H. apply Forall2_app_inv_l in H as (b1' & l & _ & H & ->).
  inversion H as [|? [k' v'] ? b2' [Hk Hv] H2]; subst. simpl in Hk, Hv. subst k'.
  exists b1', v', b2'. split; [reflexivity|]. split; [exact Hv|].
  exact (assigned_keys _ _ _ H2).
Qed.

(** After a call a key of the batch holds the value of the batch's last
    row for it, as the column takes it. *)
Lemma execute_values_lookup (page_size : nat) (b1 b2 : list (key * V)) t t' k v :
  execute_values assign page_size t (b1 ++ (k, v) :: b2) = Ok t' ->
  ~ In k (keys b2) ->
  exists v', assign v = Ok v' /\ lookup k t' = Some v' /\ In k (keys t').
Proof.
  intros H Hk. destruct (execute_values_ok _ _ _ _ _ H) as (b' & HF & -> & _).
  destruct (assigned_split _ _ _ _ _ HF) as (b1' & v' & b2' & -> & Hv' & Hk2).
  exists v'. split; [exact Hv'|]. split.
  - apply lookup_upserts_last. now rewrite Hk2.
  - apply in_keys_upserts. left. rewrite keys_app, in_app_iff. right. now left.
Qed.

(** And every other key holds what it held. *)
Lemma execute_values_lookup_other (page_size : nat) (batch : list (key * V)) t t' k :
  execute_values assign page_size t batch = Ok t' -> ~ In k (keys batch) ->
  lookup k t' = lookup k t.
Proof.
  intros H Hk. destruct (execute_values_ok _ _ _ _ _ H) as (b' & HF & -> & _).
  apply lookup_upserts_other. now rewrite (assigned_keys _ _ _ HF).
Qed.

(** A batch whose values the columns take has its assigned rows. *)
Lemma assigned_exists (batch : list (key * V)) :
  (forall k v, In (k, v) batch -> exists v', assign v = Ok v') ->
  exists batch', Forall2 (EtlSpec.assigned assign) batch batch'.
Proof.
  induction batch as [|[k v] batch IH]; intros H; [exists []; constructor|].
  destruct (H k v (or_introl eq_refl)) as [v' Hv'].
  destruct IH as [b' Hb']; [intros k0 v0 Hin; apply (H k0 v0); now right|].
  exists ((k, v') :: b'). constructor; [split; [reflexivity | exact Hv'] | exact Hb'].
Qed.

End TablesLookup.

Section Columns.

Import Etl.

Local Open Scope Q_scope.

Lemma round_half_away_near x : Qabs (inject_Z (round_half_away x) - x) <= 1 # 2.
Proof.
  unfold round_half_away. apply Qabs_Qle_condition.
  destruct (Qle_bool 0 x).
  - pose proof (Qfloor_le (x + (1 # 2))) as Hlo.
    pose proof (Qlt_floor (x + (1 # 2))) as Hhi.
    rewrite inject_Z_plus in Hhi. change (inject_Z 1) with 1 in Hhi. lra.
  - pose proof (Qfloor_le (- x + (1 # 2))) as Hlo.
    pose proof (Qlt_floor (- x + (1 # 2))) as Hhi.
    rewrite inject_Z_plus in Hhi. change (inject_Z 1) with 1 in Hhi.
    rewrite inject_Z_opp. lra.
Qed.

Lemma round_half_away_integer n : round_half_away ((n # 100) * inject_Z 100) = n.
Proof.
  unfold round_half_away.
  destruct (Qle_bool 0 ((n # 100) * inject_Z 100)).
  - unfold Qfloor, Qplus, inject_Z. simpl.
    symmetry. apply (Z.div_unique _ _ n 100); lia.
  - unfold Qfloor, Qplus, Qopp, inject_Z. simpl.
    rewrite <- (Z.opp_involutive n) at 2. f_equal.
    symmetry. apply (Z.div_unique _ _ (- n) 100); lia.
Qed.

(** A number of hundredths within the column's range is stored as it
    is. *)
Lemma to_decimal_exact (precision n : Z) :
  (Z.abs n < 10 ^ precision)%Z -> to_decimal precision 2 (n # 100) = Ok (n # 100).
Proof.
  intros H. unfold to_decimal. change (10 ^ 2)%Z with 100%Z.
  rewrite round_half_away_integer. apply Z.ltb_lt in H. rewrite H. reflexivity.
Qed.

(** What a [DECIMAL(_, 2)] column stores is the value rounded to 2 decimal
    places. *)
Lemma to_decimal_near (precision : Z) x y :
  to_decimal precision 2 x = Ok y -> Qabs (y - x) <= 1 # 200.
Proof.
  unfold to_decimal. change (10 ^ 2)%Z with 100%Z.
  destruct (_ <? _)%Z; [|discriminate]. intros [= <-].
  pose proof (round_half_away_near (x * inject_Z 100)) as H.
  apply Qabs_Qle_condition in H. apply Qabs_Qle_condition.
  change (Z.to_pos 100) with 100%positive.
  rewrite hundredths. set (z := inject_Z (round_half_away (x * inject_Z 100))) in *.
  unfold Qdiv. change (/ 100) with (1 # 100). change (inject_Z 100) with 100 in H. lra.
Qed.

End Columns.

Section Loader.

Import Etl.

Lemma find_city_app n l1 l2 :
  find_city n (l1 ++ l2)
  = match find_city n l1 with Some id => Some id | None => find_city n l2 end.
Proof.
  unfold find_city. induction l1 as [|c l1 IH]; simpl; [reflexivity|].
  destruct (String.eqb (name c) n); [reflexivity | exact IH].
Qed.

Lemma find_city_in n cities id :
  find_city n cities = Some id -> exists r, In r cities /\ name r = n.
Proof.
  unfold find_city. destruct (find _ cities) as [r|] eqn:E; [|discriminate].
  intros _. apply find_some in E as [Hin Heq]. apply String.eqb_eq in Heq. eauto.
Qed.

(** Step 1, when it is not refused: the name as the column takes it is in
    the dimension under the identifier the step resolved; the dimension is
    as it was, or has the city as a new last row under the identifier of
    the sequence. *)
Lemma upsert_city_ok serial c cities cities' id :
  (forall r, In r cities -> varchar 100 (name r) = Ok (name r)) ->
  upsert_city serial c cities = Ok (cities', id) ->
  exists n,
    varchar 100 (city_name c) = Ok n /\ find_city n cities' = Some id
    /\ ((cities' = cities /\ n = city_name c)
        \/ (find_city n cities = None
            /\ exists r, cities' = cities ++ [r] /\ name r = n /\ city_id r = id)).
Proof.
  intros Hfit. unfold upsert_city, bind.
  destruct (varchar 100 (city_name c)) as [n|] eqn:En; [|discriminate].
  destruct (varchar 5 (country c)) as [cc|]; [|discriminate].
  destruct (to_decimal 9 6 (lat c)) as [la|]; [|discriminate].
  destruct (to_decimal 9 6 (lng c)) as [lo|]; [|discriminate].
  destruct (find_city n cities) as [id0|] eqn:Ef.
  - destruct (find_city (city_name c) cities) as [id1|] eqn:Ef'; [|discriminate].
    intros [= <- <-]. exists n.
    destruct (find_city_in _ _ _ Ef') as (r & Hin & Hr).
    pose proof (Hfit r Hin) as Hr'. rewrite Hr, En in Hr'. injection Hr' as ->.
    split; [reflexivity|]. split; [exact Ef' | left; split; reflexivity].
  - destruct (existsb _ cities); [discriminate|].
    intros [= <- <-]. exists n. split; [reflexivity|]. split.
    + rewrite find_city_app, Ef. unfold find_city. simpl. now rewrite String.eqb_refl.
    + right. split; [exact Ef|]. eexists. split; [reflexivity|]. split; reflexivity.
Qed.

(** Step 1 a second time resolves the same identifier and leaves the
    dimension as it is; only a name that the column cut is not found again
    by the fallback query. *)
Lemma upsert_city_again serial serial' c cities cities' id :
  (forall r, In r cities -> varchar 100 (name r) = Ok (name r)) ->
  upsert_city serial c cities = Ok (cities', id) ->
  upsert_city serial' c cities' = Ok (cities', id)
  \/ (upsert_city serial' c cities' = Raise CityNotFound
      /\ varchar 100 (city_name c) <> Ok (city_name c)).
Proof.
  intros Hfit H. destruct (upsert_city_ok _ _ _ _ _ Hfit H) as (n & En & Ef & Hcase).
  revert H. unfold upsert_city, bind. rewrite En.
  destruct (varchar 5 (country c)) as [cc|]; [|discriminate].
  destruct (to_decimal 9 6 (lat c)) as [la|]; [|discriminate].
  destruct (to_decimal 9 6 (lng c)) as [lo|]; [|discriminate].
  intros _. rewrite Ef.
  destruct Hcase as [[-> ->] | (Hnone & r & -> & Hr & Hid)].
  - left. rewrite Ef. reflexivity.
  - rewrite find_city_app.
    destruct (find_city (city_name c) cities) as [id'|] eqn:Ef'.
    + exfalso. destruct (find_city_in _ _ _ Ef') as (r' & Hin & Hr').
      pose proof (Hfit r' Hin) as H'. rewrite Hr', En in H'. injection H' as ->.
      congruence.
    + unfold find_city. simpl. rewrite Hr.
      destruct (String.eqb n (city_name c)) eqn:E.
      * left. now rewrite Hid.
      * right. split; [reflexivity|]. intros H'. injection H' as ->.
        now rewrite String.eqb_refl in E.
Qed.

(** A load whose statements are not refused. *)
Lemma load_ok serial d c df d' :
  load serial d c df = Ok d' ->
  exists cities id w a,
    upsert_city serial c (dim_city d) = Ok (cities, id)
    /\ execute_values store_weather default_page_size (fact_weather d)
         (weather_data id df) = Ok w
    /\ execute_values store_aq default_page_size (fact_air_quality d) (aq_data id df)
       = Ok a
    /\ d' = {| dim_city := cities; fact_weather := w; fact_air_quality := a |}.
Proof.
  unfold load, bind.
  destruct (upsert_city serial c (dim_city d)) as [[cities id]|]; [|discriminate].
  cbn [fst snd].
  destruct (execute_values store_weather _ _ _) as [w|] eqn:Ew; [|discriminate].
  destruct (execute_values store_aq _ _ _) as [a|] eqn:Ea; [|discriminate].
  intros [= <-]. exists cities, id, w, a. repeat split; assumption.
Qed.

(** On a connection of its own a load that meets no storage failure
    commits the effect of its statements; when a statement is refused the
    load raises the error, the transaction is aborted and nothing is
    committed. *)
Lemma load_to_db_load serial d c df :
  match load serial d c df with
  | Ok d' => load_to_db None (connect d) serial df c = (connect d', Ok tt)
  | Raise e =>
      exists p, load_to_db None (connect d) serial df c
                = ({| committed := d; pending := p; aborted := true |}, Raise e)
  end.
Proof.
  unfold load, load_to_db, bind, connect, refused. cbn.
  destruct (upsert_city serial c (dim_city d)) as [[cities id]|e]; [|eauto].
  cbn [fst snd].
  destruct (execute_values store_weather _ _ _) as [w|e]; [|eauto].
  destruct (execute_values store_aq _ _ _) as [a|e]; [|eauto].
  reflexivity.
Qed.

Lemma load_once_load serial d c df :
  EtlSpec.load_once serial d c df
  = match load serial d c df with Ok d' => (d', Ok tt) | Raise e => (d, Raise e) end.
Proof.
  unfold EtlSpec.load_once. pose proof (load_to_db_load serial d c df) as H.
  destruct (load serial d c df) as [d'|e].
  - rewrite H. reflexivity.
  - destruct H as [p ->]. reflexivity.
Qed.

(** The same load again. *)
Lemma load_again serial serial' d c df d' :
  EtlSpec.constraints_hold d -> load serial d c df = Ok d' ->
  load serial' d' c df = Ok d'
  \/ (load serial' d' c df = Raise CityNotFound
      /\ varchar 100 (city_name c) <> Ok (city_name c)).
Proof.
  intros (Hw & Ha & Hfit) H.
  destruct (load_ok _ _ _ _ _ H) as (cities & id & w & a & Hc & Hfw & Hfa & ->).
  unfold load, bind. cbn [dim_city fact_weather fact_air_quality].
  destruct (upsert_city_again serial serial' _ _ _ _ Hfit Hc) as [-> | [-> Hn]];
    [left | right; split; [reflexivity | exact Hn]].
  cbn [fst snd].
  rewrite (execute_values_idempotent _ _ _ _ _ Hw Hfw),
          (execute_values_idempotent _ _ _ _ _ Ha Hfa).
  reflexivity.
Qed.

Lemma weather_data_keys id df :
  keys (weather_data id df) = map (pair id) (map timestamp df).
Proof. unfold keys, weather_data. rewrite !map_map. reflexivity. Qed.

Lemma aq_data_keys id df : keys (aq_data id df) = map (pair id) (map timestamp df).
Proof. unfold keys, aq_data. rewrite !map_map. reflexivity. Qed.

Lemma NoDup_pair (id : Z) (l : list Z) : NoDup l <-> NoDup (map (pair id) l).
Proof.
  split; [|apply NoDup_map_inv].
  induction 1 as [|x l Hx _ IH]; simpl; constructor; [|exact IH].
  intros H. apply in_map_iff in H as (y & [= ->] & Hy). contradiction.
Qed.

(** The last row of a frame for a timestamp of the frame, and where it
    stands. *)
Lemma last_row_split (r : row) (df : list row) :
  In r df ->
  exists r' df1 df2,
    EtlSpec.last_row_at (timestamp r) df = Some r'
    /\ df = df1 ++ r' :: df2 /\ timestamp r' = timestamp r
    /\ ~ In (timestamp r) (map timestamp df2).
Proof.
  unfold EtlSpec.last_row_at.
  induction df as [|x df IH] using rev_ind; intros Hin; [contradiction|].
  rewrite rev_app_distr. simpl.
  destruct (timestamp x =? timestamp r)%Z eqn:E.
  - apply Z.eqb_eq in E. exists x, df, []. repeat split; [exact E | intros []].
  - apply in_app_iff in Hin as [Hin | [-> | []]]; [|now rewrite Z.eqb_refl in E].
    destruct (IH Hin) as (r' & df1 & df2 & Hf & -> & Hts & Hnot).
    exists r', df1, (df2 ++ [x]). split; [exact Hf|].
    split; [now rewrite <- app_assoc|]. split; [exact Hts|].
    rewrite map_app, in_app_iff. simpl. apply Z.eqb_neq in E. tauto.
Qed.

(** When step 1 resolves the city, no timestamp comes twice and the values
    of every row fit the columns, no statement of the load is refused. *)
Lemma load_succeeds serial d c df cities id :
  upsert_city serial c (dim_city d) = Ok (cities, id) ->
  NoDup (map timestamp df) -> (forall r, In r df -> EtlSpec.fits_columns r) ->
  exists d', load serial d c df = Ok d'.
Proof.
  intros Hc Hnd Hfit. unfold load, bind. rewrite Hc. cbn [fst snd].
  destruct (assigned_exists store_weather (weather_data id df)) as [wb Hwb].
  { intros k v Hin. apply in_map_iff in Hin as (r & [= <- <-] & Hr).
    exact (proj1 (Hfit r Hr)). }
  destruct (assigned_exists store_aq (aq_data id df)) as [ab Hab].
  { intros k v Hin. apply in_map_iff in Hin as (r & [= <- <-] & Hr).
    exact (proj2 (Hfit r Hr)). }
  rewrite (execute_values_succeeds _ _ _ _ _ Hwb)
    by (apply paginate_unique; rewrite weather_data_keys; now apply NoDup_pair).
  rewrite (execute_values_succeeds _ _ _ _ _ Hab)
    by (apply paginate_unique; rewrite aq_data_keys; now apply NoDup_pair).
  eauto.
Qed.

(** Whatever a load meets, the fact tables keep their uniqueness
    constraints, in what is committed and in the open transaction. *)
Lemma load_to_db_unique fault conn serial df c :
  let conn' := fst (load_to_db fault conn serial df c) in
  (EtlSpec.unique_keys (fact_weather (committed conn))
   /\ EtlSpec.unique_keys (fact_air_quality (committed conn))
   /\ EtlSpec.unique_keys (fact_weather (pending conn))
   /\ EtlSpec.unique_keys (fact_air_quality (pending conn))) ->
  EtlSpec.unique_keys (fact_weather (committed conn'))
  /\ EtlSpec.unique_keys (fact_air_quality (committed conn'))
  /\ EtlSpec.unique_keys (fact_weather (pending conn'))
  /\ EtlSpec.unique_keys (fact_air_quality (pending conn')).
Proof.
  cbv zeta. intros (H1 & H2 & H3 & H4). unfold load_to_db, raised, refused.
  destruct (aborted conn); [cbn; auto|].
  destruct (fails_at fault UpsertCity); [cbn; auto|].
  destruct (upsert_city serial c _) as [[cities id]|e]; [|cbn; auto].
  destruct (fails_at fault InsertWeather); [cbn; auto|].
  destruct (execute_values store_weather _ _ _) as [w|e] eqn:Ew; [|cbn; auto].
  pose proof (execute_values_unique _ _ _ _ _ Ew H3) as Hw.
  destruct (fails_at fault InsertAirQuality); [cbn; auto|].
  destruct (execute_values store_aq _ _ _) as [a|e] eqn:Ea; [|cbn; auto].
  pose proof (execute_values_unique _ _ _ _ _ Ea H4) as Ha.
  destruct (fails_at fault Commit); cbn; auto.
Qed.

Lemma run_loads_unique ls : forall conn,
  (EtlSpec.unique_keys (fact_weather (committed conn))
   /\ EtlSpec.unique_keys (fact_air_quality (committed conn))
   /\ EtlSpec.unique_keys (fact_weather (pending conn))
   /\ EtlSpec.unique_keys (fact_air_quality (pending conn))) ->
  EtlSpec.unique_keys (fact_weather (committed (EtlSpec.run_loads conn ls)))
  /\ EtlSpec.unique_keys (fact_air_quality (committed (EtlSpec.run_loads conn ls))).
Proof.
  unfold EtlSpec.run_loads.
  induction ls as [|l ls IH]; intros conn H; simpl; [tauto|].
  apply IH. apply load_to_db_unique. exact H.
Qed.

Lemma pipeline_runs_unique runs : forall d,
  EtlSpec.unique_keys (fact_weather d) /\ EtlSpec.unique_keys (fact_air_quality d) ->
  EtlSpec.unique_keys (fact_weather (EtlSpec.pipeline_runs d runs))
  /\ EtlSpec.unique_keys (fact_air_quality (EtlSpec.pipeline_runs d runs)).
Proof.
  unfold EtlSpec.pipeline_runs.
  induction runs as [|ls runs IH]; intros d H; simpl; [exact H|].
  apply IH. unfold close. apply run_loads_unique. cbn. tauto.
Qed.

End Loader.

Section UpsertLoader.

Import Etl.

Local Open Scope Q_scope.

Lemma load_twice_load serial serial' d c df :
  EtlSpec.load_twice serial serial' d c df
  = match load serial d c df with
    | Ok d1 =>
        match load serial' d1 c df with
        | Ok d2 => (d2, Ok tt)
        | Raise e => (d1, Raise e)
        end
    | Raise e => (d, Raise StorageUnavailable)
    end.
Proof.
  unfold EtlSpec.load_twice. pose proof (load_to_db_load serial d c df) as H.
  destruct (load serial d c df) as [d1|e].
  - rewrite H. pose proof (load_to_db_load serial' d1 c df) as H'.
    destruct (load serial' d1 c df) as [d2|e].
    + rewrite H'. reflexivity.
    + destruct H' as [p ->]. reflexivity.
  - destruct H as [p ->]. reflexivity.
Qed.

Lemma in_pair_keys (id id' ts : Z) (l : list Z) :
  In (id', ts) (map (pair id) l) <-> id' = id /\ In ts l.
Proof.
  rewrite in_map_iff. split.
  - intros (x & [= <- <-] & Hx). auto.
  - intros [-> H]. eauto.
Qed.

(** C3: on a database that satisfies its uniqueness constraints (and holds
    names of the column's type), for a load of a city's rows that meets no
    storage failure: (1) loading the same city and rows a second time, on
    the same connection or on a new one, leaves the stored state of the
    first load, and the second load is not refused when the first was not
    (but for a name the column cut); (2) a load that is refused stores
    nothing; (3) after any sequence of loads, whatever they meet, each fact
    table has at most one row per (city, timestamp); (4) after a load that
    was not refused the city is in the dimension, and every loaded
    timestamp has exactly one weather row and one air-quality row under the
    city's identifier, holding the values of the last row given for it as
    the columns take them, whether or not the key was there before, while
    every other key holds what it held; and no timestamp came twice if the
    rows went in one statement; (5) a load is not refused when step 1
    resolves the city, no timestamp comes twice and the values fit the
    columns; (6) a column of two decimals stores a number of hundredths
    within its range as it is, and any value within 0.005; (7) whatever the
    page size (at least 1), a batch that was not refused is not refused a
    second time and leaves the table as it left it. *)
Theorem upsert_loader_idempotent (d : database) (c : City) (df : list row)
    (serial serial' : Z) :
  EtlSpec.constraints_hold d ->
  (fst (EtlSpec.load_twice serial serial' d c df) = fst (EtlSpec.load_once serial d c df)
   /\ (snd (EtlSpec.load_once serial d c df) = Ok tt ->
       fst (EtlSpec.load_once serial' (fst (EtlSpec.load_once serial d c df)) c df)
       = fst (EtlSpec.load_once serial d c df)
       /\ (varchar 100 (city_name c) = Ok (city_name c) ->
           snd (EtlSpec.load_twice serial serial' d c df) = Ok tt
           /\ snd (EtlSpec.load_once serial' (fst (EtlSpec.load_once serial d c df)) c df)
              = Ok tt)))
  /\ (snd (EtlSpec.load_once serial d c df) <> Ok tt ->
      fst (EtlSpec.load_once serial d c df) = d)
  /\ (forall runs k,
        (EtlSpec.rows_with_key k (fact_weather (EtlSpec.pipeline_runs d runs)) <= 1)%nat
        /\ (EtlSpec.rows_with_key k (fact_air_quality (EtlSpec.pipeline_runs d runs))
            <= 1)%nat)
  /\ (snd (EtlSpec.load_once serial d c df) = Ok tt ->
      ((length df <= default_page_size)%nat -> NoDup (map timestamp df))
      /\ exists n id,
           varchar 100 (city_name c) = Ok n
           /\ find_city n (dim_city (fst (EtlSpec.load_once serial d c df))) = Some id
           /\ (forall r, In r df ->
               exists r' wv av,
                 EtlSpec.last_row_at (timestamp r) df = Some r'
                 /\ store_weather (EtlSpec.weather_values_of r') = Ok wv
                 /\ store_aq (EtlSpec.aq_values_of r') = Ok av
                 /\ EtlSpec.rows_with_key (id, timestamp r)
                      (fact_weather (fst (EtlSpec.load_once serial d c df))) = 1%nat
                 /\ lookup (id, timestamp r)
                      (fact_weather (fst (EtlSpec.load_once serial d c df))) = Some wv
                 /\ EtlSpec.rows_with_key (id, timestamp r)
                      (fact_air_quality (fst (EtlSpec.load_once serial d c df))) = 1%nat
                 /\ lookup (id, timestamp r)
                      (fact_air_quality (fst (EtlSpec.load_once serial d c df))) = Some av)
           /\ (forall id' ts, id' <> id \/ ~ In ts (map timestamp df) ->
               lookup (id', ts) (fact_weather (fst (EtlSpec.load_once serial d c df)))
               = lookup (id', ts) (fact_weather d)
               /\ lookup (id', ts) (fact_air_quality (fst (EtlSpec.load_once serial d c df)))
                  = lookup (id', ts) (fact_air_quality d)))
  /\ (forall cities id,
        upsert_city serial c (dim_city d) = Ok (cities, id) ->
        NoDup (map timestamp df) -> (forall r, In r df -> EtlSpec.fits_columns r) ->
        snd (EtlSpec.load_once serial d c df) = Ok tt)
  /\ (forall precision n,
        (Z.abs n < 10 ^ precision)%Z -> to_decimal precision 2 (n # 100) = Ok (n # 100))
  /\ (forall precision x y, to_decimal precision 2 x = Ok y -> Qabs (y - x) <= 1 # 200)
  /\ (forall (V : Type) (assign : V -> outcome V) page_size (t t' : table V) batch,
        (1 <= page_size)%nat -> NoDup (keys t) ->
        execute_values assign page_size t batch = Ok t' ->
        execute_values assign page_size t' batch = Ok t').
Proof.
  intros Hd. pose proof Hd as (Hw & Ha & Hn).
  rewrite load_twice_load, !load_once_load.
  split; [|split; [|split; [|split; [|split; [|split; [|split]]]]]].
  - destruct (load serial d c df) as [d1|e] eqn:E; cbn [fst snd].
    + destruct (load_again serial serial' _ _ _ _ Hd E) as [-> | [-> Hcut]]; cbn [fst snd].
      * repeat split; reflexivity.
      * split; [reflexivity|]. intros _. split; [reflexivity|].
        intros Hfit. contradiction.
    + split; [reflexivity|]. discriminate.
  - destruct (load serial d c df) as [d1|e]; cbn [fst snd]; [|reflexivity].
    intros H. now contradiction H.
  - intros runs k. destruct (pipeline_runs_unique runs d (conj Hw Ha)) as [Hw' Ha'].
    split; apply rows_with_key_unique; assumption.
  - destruct (load serial d c df) as [d1|e] eqn:E; cbn [fst snd]; [|discriminate].
    intros _.
    destruct (load_ok _ _ _ _ _ E) as (cities & id & w & a & Hc & Hfw & Hfa & ->).
    destruct (upsert_city_ok _ _ _ _ _ Hn Hc) as (n & En & Ef & _).
    cbn [dim_city fact_weather fact_air_quality].
    split.
    { intros Hlen.
      assert (Hnd : NoDup (keys (weather_data id df))).
      { apply (single_statement_refuses_repeats store_weather default_page_size
                 (weather_data id df) (fact_weather d) w); [|exact Hfw].
        unfold weather_data. now rewrite length_map. }
      rewrite weather_data_keys in Hnd. now apply NoDup_pair in Hnd. }
    exists n, id. split; [exact En|]. split; [exact Ef|]. split.
    + intros r Hr.
      destruct (last_row_split r df Hr) as (r' & df1 & df2 & Hlast & Hdf & Hts & Hnot).
      assert (Hkey : forall l, ~ In (id, timestamp r') (map (pair id) (map timestamp l))
                               <-> ~ In (timestamp r') (map timestamp l))
        by (intros l; rewrite in_pair_keys; tauto).
      destruct (execute_values_lookup store_weather default_page_size
                  (weather_data id df1) (weather_data id df2) (fact_weather d) w
                  (id, timestamp r') (EtlSpec.weather_values_of r'))
        as (wv & Hwv & Hlw & Hkw).
      { rewrite <- Hfw, Hdf. unfold weather_data. now rewrite map_app. }
      { rewrite weather_data_keys, Hkey, Hts. exact Hnot. }
      destruct (execute_values_lookup store_aq default_page_size
                  (aq_data id df1) (aq_data id df2) (fact_air_quality d) a
                  (id, timestamp r') (EtlSpec.aq_values_of r'))
        as (av & Hav & Hla & Hka).
      { rewrite <- Hfa, Hdf. unfold aq_data. now rewrite map_app. }
      { rewrite aq_data_keys, Hkey, Hts. exact Hnot. }
      rewrite Hts in *.
      exists r', wv, av. repeat split; try assumption.
      * apply rows_with_key_unique; [|exact Hkw].
        exact (execute_values_unique _ _ _ _ _ Hfw Hw).
      * apply rows_with_key_unique; [|exact Hka].
        exact (execute_values_unique _ _ _ _ _ Hfa Ha).
    + intros id' ts Hout.
      assert (Hk : ~ In (id', ts) (map (pair id) (map timestamp df)))
        by (rewrite in_pair_keys; tauto).
      split.
      * apply (execute_values_lookup_other _ _ _ _ _ _ Hfw). now rewrite weather_data_keys.
      * apply (execute_values_lookup_other _ _ _ _ _ _ Hfa). now rewrite aq_data_keys.
  - intros cities id Hc Hnd Hfit.
    destruct (load_succeeds _ _ _ _ _ _ Hc Hnd Hfit) as [d' ->]. reflexivity.
  - intros precision n. apply to_decimal_exact.
  - intros precision x y. apply to_decimal_near.
  - intros V assign page_size t t' batch _ Hu H.
    exact (execute_values_idempotent assign page_size batch t t' Hu H).
Qed.

(** Two hours of Moscow loaded into the empty database, twice; then the
    first hour again with a corrected pm25. *)
Lemma upsert_loader_idempotent_witness :
  fst (EtlSpec.load_twice 1 2 empty_database EtlSamples.moscow EtlSamples.two_hours)
  = fst (EtlSpec.load_once 1 empty_database EtlSamples.moscow EtlSamples.two_hours)
  /\ snd (EtlSpec.load_once 1 empty_database EtlSamples.moscow EtlSamples.two_hours)
     = Ok tt
  /\ keys (fact_air_quality
             (EtlSpec.pipeline_runs empty_database
                [[{| EtlSpec.call_fault := None; EtlSpec.call_serial := 1;
                     EtlSpec.call_city := EtlSamples.moscow;
                     EtlSpec.call_rows := EtlSamples.two_hours |}];
                 [{| EtlSpec.call_fault := None; EtlSpec.call_serial := 2;
                     EtlSpec.call_city := EtlSamples.moscow;
                     EtlSpec.call_rows := EtlSamples.first_hour_corrected |}]]))
     = [(1, 1766620800); (1, 1766624400)]%Z
  /\ option_map a_pm25
       (lookup (1, 1766620800)%Z
          (fact_air_quality
             (EtlSpec.pipeline_runs empty_database
                [[{| EtlSpec.call_fault := None; EtlSpec.call_serial := 1;
                     EtlSpec.call_city := EtlSamples.moscow;
                     EtlSpec.call_rows := EtlSamples.two_hours |}];
                 [{| EtlSpec.call_fault := None; EtlSpec.call_serial := 2;
                     EtlSpec.call_city := EtlSamples.moscow;
                     EtlSpec.call_rows := EtlSamples.first_hour_corrected |}]])))
     = Some (Some (1500 # 100)).
Proof.
  assert (H0 : EtlSpec.constraints_hold empty_database).
  { split; [constructor | split; [constructor | intros r []]]. }
  split; [|split; [|split]].
  - exact (proj1 (proj1 (upsert_loader_idempotent empty_database EtlSamples.moscow
                           EtlSamples.two_hours 1 2 H0))).
  - vm_compute. reflexivity.
  - vm_compute. reflexivity.
  - vm_compute. reflexivity.
Defined.

(** C7 at a failing load: Moscow's load fails at the air-quality batch,
    after its weather batch was written, and nothing rolls the unit back.
    When the driver raised before the statement reached the server, Berlin's
    load, which succeeds, commits Moscow's weather rows (city 1) with it, and
    no air-quality row of Moscow: the failed unit is stored in part.  When
    the server rejected the statement, the aborted transaction makes
    Berlin's load fail as well, and nothing of either city is stored. *)
Theorem failed_load_is_not_rolled_back :
  (let run := main EtlSamples.to_datetime Q EtlSamples.fit_mean EtlSamples.predict_mean
                [EtlSamples.moscow_failing_run BeforeSending; EtlSamples.berlin_sound_run]
                empty_database in
   snd run = [("Moscow"%string, Raise StorageUnavailable); ("Berlin"%string, Ok tt)]
   /\ keys (fact_weather (fst run))
      = [(1, 1766620800); (1, 1766624400); (2, 1766620800); (2, 1766624400)]%Z
   /\ keys (fact_air_quality (fst run)) = [(2, 1766620800); (2, 1766624400)]%Z)
  /\ (let run := main EtlSamples.to_datetime Q EtlSamples.fit_mean EtlSamples.predict_mean
                   [EtlSamples.moscow_failing_run OnServer; EtlSamples.berlin_sound_run]
                   empty_database in
      snd run = [("Moscow"%string, Raise StorageUnavailable);
                 ("Berlin"%string, Raise StorageUnavailable)]
      /\ fst run = empty_database).
Proof. repeat split; vm_compute; reflexivity. Qed.

End UpsertLoader.
(* ===================================================================== *)
(** * Arrays: [map] with an index and [slice] *)
(* ===================================================================== *)

Section Arrays.

Context {A B : Type}.

Lemma map_from_length (f : nat -> A -> B) (xs : list A) : forall i,
  length (map_from f i xs) = length xs.
Proof. induction xs as [|a xs IH]; intros i; simpl; [reflexivity|]. now rewrite IH. Qed.

Lemma nth_error_map_from (f : nat -> A -> B) (xs : list A) : forall i k,
  nth_error (map_from f i xs) k = option_map (f (i + k)%nat) (nth_error xs k).
Proof.
  induction xs as [|a xs IH]; intros i k; simpl.
  - destruct k; reflexivity.
  - destruct k as [|k]; simpl.
    + now rewrite Nat.add_0_r.
    + rewrite IH. now replace (S i + k)%nat with (i + S k)%nat by lia.
Qed.

Lemma nth_error_mapi (f : nat -> A -> B) (xs : list A) (k : nat) :
  nth_error (mapi f xs) k = option_map (f k) (nth_error xs k).
Proof. unfold mapi. now rewrite nth_error_map_from. Qed.

(** The elements of [xs.slice(start, stop)] are the elements of [xs] at the
    indices from [start] up to, not including, [stop]. *)
Lemma in_slice (xs : list A) (start stop : Z) (a : A) :
  (0 <= start)%Z ->
  In a (slice xs start stop)
  <-> exists j, (start <= Z.of_nat j < stop)%Z /\ nth_error xs j = Some a.
Proof.
  intros Hs. unfold slice. split.
  - intros Hin. apply In_nth_error in Hin. destruct Hin as [k Hk].
    assert (Hlt : (k < Z.to_nat (stop - start))%nat).
    { assert (H : (k < length (firstn (Z.to_nat (stop - start)) (skipn (Z.to_nat start) xs)))%nat)
        by (apply nth_error_Some; rewrite Hk; discriminate).
      rewrite length_firstn in H. lia. }
    rewrite nth_error_firstn in Hk.
    destruct (Nat.ltb_spec k (Z.to_nat (stop - start))) as [_|]; [|lia].
    rewrite nth_error_skipn in Hk.
    exists (Z.to_nat start + k)%nat. split; [lia|exact Hk].
  - intros (j & Hj & Hnth).
    apply (nth_error_In _ (j - Z.to_nat start)).
    rewrite nth_error_firstn.
    destruct (Nat.ltb_spec (j - Z.to_nat start) (Z.to_nat (stop - start))) as [_|]; [|lia].
    rewrite nth_error_skipn.
    now replace (Z.to_nat start + (j - Z.to_nat start))%nat with j by lia.
Qed.

Lemma slice_length (xs : list A) (start stop : Z) :
  (length (slice xs start stop) <= Z.to_nat (stop - start))%nat.
Proof. unfold slice. rewrite length_firstn. lia. Qed.

End Arrays.

(* ===================================================================== *)
(** * [components/DashboardCharts.tsx]: the rolling average of the trend
      chart *)
(* ===================================================================== *)

Section RollingAverage.

Local Open Scope float_scope.

Lemma validValues_nil (sl : list UnifiedDataPoint) :
  Trends.validValues sl = [] <-> (forall d, In d sl -> pm25 d = None).
Proof.
  unfold Trends.validValues. induction sl as [|d sl IH]; simpl.
  - split; [intros _ ? []|reflexivity].
  - destruct (pm25 d) as [v|] eqn:E; simpl.
    + split; [discriminate|]. intros H. specialize (H d (or_introl eq_refl)). congruence.
    + rewrite IH. split.
      * intros H d' [<-|Hin]; auto.
      * intros H d' Hin. apply H. now right.
Qed.

Lemma in_validValues (sl : list UnifiedDataPoint) (v : float) :
  In v (Trends.validValues sl) -> exists d, In d sl /\ pm25 d = Some v.
Proof.
  unfold Trends.validValues. rewrite in_map_iff. intros (d & Hv & Hin).
  apply filter_In in Hin. destruct Hin as [Hin Hnn].
  exists d. split; [exact Hin|]. destruct (pm25 d); [congruence|discriminate].
Qed.

Lemma validValues_length (sl : list UnifiedDataPoint) :
  (length (Trends.validValues sl) <= length sl)%nat.
Proof. unfold Trends.validValues. rewrite length_map. apply filter_length_le. Qed.

(** The window of index [idx]: the points at the indices above
    [idx - window] up to [idx]. *)
Lemma in_window_of (data : list UnifiedDataPoint) (window : Z) (idx : nat) (d : UnifiedDataPoint) :
  In d (Trends.window_of data window idx)
  <-> exists j, (Z.of_nat idx - window < Z.of_nat j)%Z /\ (j <= idx)%nat
                /\ nth_error data j = Some d.
Proof.
  unfold Trends.window_of. rewrite in_slice by lia. split.
  - intros (j & Hj & Hn). exists j. repeat split; [lia|lia|exact Hn].
  - intros (j & Hj1 & Hj2 & Hn). exists j. split; [lia|exact Hn].
Qed.

Lemma window_of_length (data : list UnifiedDataPoint) (window : Z) (idx : nat) :
  (1 <= window)%Z -> (Z.of_nat (length (Trends.window_of data window idx)) <= window)%Z.
Proof.
  intros Hw. unfold Trends.window_of.
  pose proof (slice_length data (Z.max 0 (Z.of_nat idx - window + 1)) (Z.of_nat idx + 1)).
  lia.
Qed.

Lemma rolling_average_at (data : list UnifiedDataPoint) (window : Z) (idx : nat) :
  (idx < length data)%nat ->
  nth_error (Trends.calculateRollingAverage data window) idx
  = Some (let vs := Trends.validValues (Trends.window_of data window idx) in
          if Nat.eqb (length vs) 0 then None
          else Some (reduce (fun a b _ => a + b) 0 vs / Js.of_nat (length vs))).
Proof.
  intros Hidx. unfold Trends.calculateRollingAverage. rewrite nth_error_mapi.
  destruct (nth_error data idx) eqn:E; [reflexivity|].
  apply nth_error_None in E. lia.
Qed.

(** X1: [calculateRollingAverage] returns one entry per data point; the
    entry of a point is null exactly when no point of its window (the
    indices above [idx - window] up to [idx]) has a pm25, and otherwise the
    sum of the window's non-null pm25 values divided by their number, which
    is at least 1 and at most [window]. *)
Theorem rolling_average_window (data : list UnifiedDataPoint) (window : Z) (idx : nat)
    (Hidx : (idx < length data)%nat) :
  length (Trends.calculateRollingAverage data window) = length data
  /\ (nth_error (Trends.calculateRollingAverage data window) idx = Some None
      <-> (forall j d, (Z.of_nat idx - window < Z.of_nat j)%Z -> (j <= idx)%nat ->
                       nth_error data j = Some d -> pm25 d = None))
  /\ (forall a, nth_error (Trends.calculateRollingAverage data window) idx = Some (Some a) ->
        let vs := Trends.validValues (Trends.window_of data window idx) in
        (1 <= length vs)%nat /\ (Z.of_nat (length vs) <= window)%Z
        /\ a = reduce (fun a b _ => a + b) 0 vs / Js.of_nat (length vs)).
Proof.
  split; [|split].
  - unfold Trends.calculateRollingAverage, mapi. apply map_from_length.
  - rewrite (rolling_average_at data window idx Hidx). cbv zeta.
    destruct (Nat.eqb_spec (length (Trends.validValues (Trends.window_of data window idx))) 0)
      as [E|E].
    + apply length_zero_iff_nil in E. split; [|reflexivity].
      intros _ j d Hj1 Hj2 Hn. apply (proj1 (validValues_nil _) E).
      apply in_window_of. eauto.
    + split; [discriminate|]. intros H. exfalso. apply E.
      apply length_zero_iff_nil. apply validValues_nil.
      intros d Hin. apply in_window_of in Hin. destruct Hin as (j & Hj1 & Hj2 & Hn). eauto.
  - intros a. rewrite (rolling_average_at data window idx Hidx). cbv zeta.
    destruct (Nat.eqb_spec (length (Trends.validValues (Trends.window_of data window idx))) 0)
      as [E|E]; [discriminate|].
    intros H. injection H as <-. split; [lia|]. split; [|reflexivity].
    destruct (Z.leb_spec 1 window) as [Hw|Hw].
    + pose proof (window_of_length data window idx Hw).
      pose proof (validValues_length (Trends.window_of data window idx)). lia.
    + exfalso. apply E. apply length_zero_iff_nil. apply validValues_nil.
      intros d Hin. apply in_window_of in Hin. destruct Hin as (j & Hj1 & Hj2 & Hn). lia.
Qed.

Lemma rolling_average_window_witness :
  nth_error (Trends.calculateRollingAverage Samples.three_points 2) 1 = Some (Some 10).
Proof.
  assert (Hidx : (1 < length Samples.three_points)%nat) by (simpl; lia).
  destruct (rolling_average_window Samples.three_points 2 1 Hidx) as (_ & _ & H).
  destruct (nth_error (Trends.calculateRollingAverage Samples.three_points 2) 1)
    as [[a|]|] eqn:E; try (vm_compute in E; discriminate).
  destruct (H a eq_refl) as (_ & _ & ->). vm_compute. reflexivity.
Defined.

(** A zero added to [+0] gives [+0]. *)
Lemma add_zero_zero (v : float) : is_zero v = true -> 0 + v = 0.
Proof.
  unfold is_zero. rewrite FloatAxioms.eqb_spec. change (Prim2SF zero) with (S754_zero false).
  intros H. apply Prim2SF_inj. rewrite add_spec. change (Prim2SF 0) with (S754_zero false).
  destruct (Prim2SF v) as [s|s| |s m e]; unfold SFeqb, SFcompare in H;
    try destruct s; try discriminate; reflexivity.
Qed.

Lemma sum_of_zeros (vs : list float) : forall i,
  Forall (fun v => is_zero v = true) vs ->
  reduce_from (fun a b (_ : nat) => a + b) i vs 0 = 0.
Proof.
  induction vs as [|v vs IH]; intros i Hz; simpl; [reflexivity|].
  inversion Hz; subst. rewrite add_zero_zero by assumption. now apply IH.
Qed.

(** X2: in [chartData] of the trend chart, a point whose six-hour window
    holds no reading other than 0 gets [rollingAvgPM25 = null], as if the
    window held no reading at all: the average 0 is falsy. *)
Theorem zero_window_has_no_rolling_average (data : list UnifiedDataPoint) (idx : nat)
    (d : UnifiedDataPoint)
    (Hd : nth_error data idx = Some d)
    (Hzero : forall j dj v, (Z.of_nat idx - 6 < Z.of_nat j)%Z -> (j <= idx)%nat ->
                            nth_error data j = Some dj -> pm25 dj = Some v -> is_zero v = true) :
  nth_error (Trends.chartData data) idx
  = Some (Some {| Trends.chartPoint := d; Trends.rollingAvgPM25 := None |}).
Proof.
  assert (Hidx : (idx < length data)%nat) by (apply nth_error_Some; congruence).
  unfold Trends.chartData. cbv zeta. rewrite nth_error_mapi, Hd. simpl option_map.
  rewrite (rolling_average_at data 6 idx Hidx). cbv zeta.
  set (vs := Trends.validValues (Trends.window_of data 6 idx)).
  assert (Hall : Forall (fun v => is_zero v = true) vs).
  { apply Forall_forall. intros v Hin. apply in_validValues in Hin.
    destruct Hin as (dj & Hin & Hv). apply in_window_of in Hin.
    destruct Hin as (j & Hj1 & Hj2 & Hn). eauto. }
  assert (Hlen : (length vs <= 6)%nat).
  { pose proof (window_of_length data 6 idx ltac:(lia)).
    pose proof (validValues_length (Trends.window_of data 6 idx)). subst vs. lia. }
  unfold reduce. rewrite (sum_of_zeros vs 0 Hall).
  destruct (length vs) as [|[|[|[|[|[|[|n]]]]]]]; try lia; reflexivity.
Qed.

Lemma zero_window_has_no_rolling_average_witness :
  nth_error (Trends.chartData [Samples.point (Some 0); Samples.point None]) 1
  = Some (Some {| Trends.chartPoint := Samples.point None; Trends.rollingAvgPM25 := None |}).
Proof.
  apply zero_window_has_no_rolling_average; [reflexivity|].
  intros [|[|j]] dj v Hj1 Hj2 Hn Hv; simpl in Hn.
  - injection Hn as <-. simpl in Hv. injection Hv as <-. reflexivity.
  - injection Hn as <-. discriminate.
  - lia.
Defined.

End RollingAverage.

(* ===================================================================== *)
(** * [components/DashboardCharts.tsx]: the cells of [RiskHeatmap] *)
(* ===================================================================== *)

Section RiskHeatmapCells.

(** X3: [RiskHeatmap] renders the 48 newest points, or all of them when
    there are fewer, newest first: cell [k] is the rendering of the point
    at index [data.length - 1 - k]. *)
Theorem risk_heatmap_newest_first (data : list UnifiedDataPoint) :
  length (Charts.RiskHeatmap data) = Nat.min 48 (length data)
  /\ (forall k, (k < Nat.min 48 (length data))%nat ->
        nth_error (Charts.RiskHeatmap data) k
        = option_map Charts.renderCell (nth_error data (length data - 1 - k))).
Proof.
  unfold Charts.RiskHeatmap. split.
  - now rewrite length_map, length_firstn, length_rev.
  - intros k Hk. rewrite nth_error_map, nth_error_firstn.
    destruct (Nat.ltb_spec k 48) as [_|]; [|lia].
    rewrite nth_error_rev.
    destruct (Nat.ltb_spec k (length data)) as [_|]; [|lia].
    now replace (length data - S k)%nat with (length data - 1 - k)%nat by lia.
Qed.

End RiskHeatmapCells.

(* ===================================================================== *)
(** * [App.tsx] and [services/api.ts]: loading the data of a city *)
(* ===================================================================== *)

Section LoadData.

Variable formatDisplayTime : string -> string.
Variable stamp : string * string.

Lemma stats_of_rows (l : list UnifiedDataPoint) (d : UnifiedDataPoint) :
  exists report,
    App.stats (l ++ [d]) = Some report
    /\ App.current report = d /\ App.totalRows report = S (length l).
Proof.
  destruct (l ++ [d]) as [|d0 l'] eqn:E; [destruct l; discriminate|].
  eexists. split; [reflexivity|]. cbv [App.current App.totalRows].
  rewrite <- E. split; [apply last_last|].
  rewrite length_app. simpl. lia.
Qed.

Lemma loadData_selected (r : Api.response) (s : AppLoad.state) :
  AppLoad.selectedCityName s <> ""%string ->
  AppLoad.loadData formatDisplayTime stamp r s
  = AppLoad.setLoading false
      match Api.fetchDashboardData formatDisplayTime r with
      | Api.Fulfilled result =>
          AppLoad.addLog stamp AppLoad.success
            ("Загружено " ++ AppLoad.string_of_nat (length result) ++ " строк для "
             ++ AppLoad.selectedCityName s)
            (AppLoad.setData (rev result) (AppLoad.setLoading true s))
      | Api.Thrown m =>
          AppLoad.setData [] (AppLoad.addLog stamp AppLoad.error m (AppLoad.setLoading true s))
      end.
Proof.
  intros Hcity. unfold AppLoad.loadData.
  destruct (String.eqb_spec (AppLoad.selectedCityName s) ""); [contradiction|].
  reflexivity.
Qed.

(** X4: what [loadData] leaves behind.  Without a selected city it changes
    nothing.  With one, [loading] ends false whatever happened; a served
    answer puts the rows into [data] in the reverse of the served order and
    logs their number; a failed request (the fetch rejected, or the server
    answered with a status that is not ok) empties [data], so that no row
    of an earlier load stays on screen, and puts the error message at the
    head of the log. *)
Theorem load_data_outcomes (r : Api.response) (s : AppLoad.state) :
  (AppLoad.selectedCityName s = ""%string ->
     AppLoad.loadData formatDisplayTime stamp r s = s)
  /\ (AppLoad.selectedCityName s <> ""%string ->
      let s' := AppLoad.loadData formatDisplayTime stamp r s in
      AppLoad.loading s' = false
      /\ AppLoad.selectedCityName s' = AppLoad.selectedCityName s
      /\ (forall statusText rows, r = Api.Response true statusText rows ->
            AppLoad.data s' = rev (map (Api.toDataPoint formatDisplayTime) rows)
            /\ AppLoad.logs s'
               = {| AppLoad.id := fst stamp; AppLoad.time := snd stamp;
                    AppLoad.type := AppLoad.success;
                    AppLoad.message :=
                      "Загружено " ++ AppLoad.string_of_nat (length rows) ++ " строк для "
                      ++ AppLoad.selectedCityName s |} :: AppLoad.logs s)
      /\ (forall statusText rows, r = Api.Response false statusText rows ->
            AppLoad.data s' = []
            /\ AppLoad.logs s'
               = {| AppLoad.id := fst stamp; AppLoad.time := snd stamp;
                    AppLoad.type := AppLoad.error;
                    AppLoad.message := "Ошибка сервера: " ++ statusText |} :: AppLoad.logs s)
      /\ (forall m, r = Api.Rejected m ->
            AppLoad.data s' = []
            /\ AppLoad.logs s'
               = {| AppLoad.id := fst stamp; AppLoad.time := snd stamp;
                    AppLoad.type := AppLoad.error; AppLoad.message := m |} :: AppLoad.logs s)).
Proof.
  split.
  - intros Hcity. unfold AppLoad.loadData. now rewrite Hcity.
  - intros Hcity s'. subst s'. rewrite (loadData_selected r s Hcity).
    split; [reflexivity|]. split.
    { destruct (Api.fetchDashboardData formatDisplayTime r); reflexivity. }
    split; [|split].
    + intros statusText rows ->. simpl. rewrite length_map. split; reflexivity.
    + intros statusText rows ->. simpl. split; reflexivity.
    + intros m ->. simpl. split; reflexivity.
Qed.

(** X5: after a successful load the KPI block reads its current point from
    the first row the server sent (the view serves the newest row first and
    [loadData] reverses the rows), and counts every served row; after a
    failed load, or a load that served no row, [stats] is null and no KPI
    is shown. *)
Theorem stats_after_load (s : AppLoad.state) (statusText : string)
    (row : Api.ApiRow) (rows : list Api.ApiRow)
    (Hcity : AppLoad.selectedCityName s <> ""%string) :
  (exists report,
     App.stats (AppLoad.data (AppLoad.loadData formatDisplayTime stamp
                                (Api.Response true statusText (row :: rows)) s))
     = Some report
     /\ App.current report = Api.toDataPoint formatDisplayTime row
     /\ App.totalRows report = S (length rows))
  /\ App.stats (AppLoad.data (AppLoad.loadData formatDisplayTime stamp
                                (Api.Response true statusText []) s)) = None
  /\ App.stats (AppLoad.data (AppLoad.loadData formatDisplayTime stamp
                                (Api.Response false statusText (row :: rows)) s)) = None
  /\ (forall m, App.stats (AppLoad.data (AppLoad.loadData formatDisplayTime stamp
                                           (Api.Rejected m) s)) = None).
Proof.
  destruct (load_data_outcomes (Api.Response true statusText (row :: rows)) s)
    as (_ & H1).
  destruct (H1 Hcity) as (_ & _ & Hok & _). destruct (Hok _ _ eq_refl) as (Hdata & _).
  split; [|split; [|split]].
  - rewrite Hdata. simpl map. simpl rev.
    destruct (stats_of_rows (rev (map (Api.toDataPoint formatDisplayTime) rows))
                (Api.toDataPoint formatDisplayTime row)) as (report & Hs & Hc & Hn).
    exists report. rewrite length_rev, length_map in Hn. auto.
  - rewrite (loadData_selected _ s Hcity). reflexivity.
  - rewrite (loadData_selected _ s Hcity). reflexivity.
  - intros m. rewrite (loadData_selected _ s Hcity). reflexivity.
Qed.

End LoadData.

Lemma stats_after_load_witness :
  App.stats (AppLoad.data (AppLoad.loadData (fun ts => ts) ("a1b2c3d4e", "12:00:00")%string
                             (Api.Response false "Not Found"%string [AppSamples.served_row])
                             AppSamples.moscow_selected)) = None.
Proof.
  assert (Hcity : AppLoad.selectedCityName AppSamples.moscow_selected <> ""%string)
    by (simpl; discriminate).
  exact (proj1 (proj2 (proj2
           (stats_after_load (fun ts => ts) ("a1b2c3d4e", "12:00:00")%string
              AppSamples.moscow_selected "Not Found"%string AppSamples.served_row [] Hcity)))).
Defined.

(* ===================================================================== *)
(** * [components/DashboardCharts.tsx]: the correlation matrix *)
(* ===================================================================== *)

Section CorrelationMatrix.

Local Open Scope float_scope.

(** Binary64 multiplication is commutative, bit for bit. *)
Lemma mul_comm (a b : float) : a * b = b * a.
Proof.
  apply Prim2SF_inj. rewrite !mul_spec. unfold SF64mul, SFmul.
  destruct (Prim2SF a) as [sa|sa| |sa ma ea], (Prim2SF b) as [sb|sb| |sb mb eb];
    try reflexivity; try (now rewrite xorb_comm).
  now rewrite xorb_comm, Pos.mul_comm, Z.add_comm.
Qed.

Lemma at_index_cons (v : float) (l : list float) (i : nat) :
  Charts.at_index (v :: l) (S i) = Charts.at_index l i.
Proof. reflexivity. Qed.

(** The sum of the products does not depend on which array is walked. *)
Lemma sum_of_products_comm (x : list float) : forall (y px py : list float) (acc : float),
  length x = length y -> length px = length py ->
  reduce_from (fun sum xi i => sum + xi * Charts.at_index (py ++ y) i) (length px) x acc
  = reduce_from (fun sum yi i => sum + yi * Charts.at_index (px ++ x) i) (length py) y acc.
Proof.
  induction x as [|a x IH]; intros [|b y] px py acc Hlen Hp; try discriminate; [reflexivity|].
  simpl reduce_from.
  assert (H1 : Charts.at_index (py ++ b :: y) (length px) = b)
    by (unfold Charts.at_index; now rewrite Hp, nth_error_middle).
  assert (H2 : Charts.at_index (px ++ a :: x) (length py) = a)
    by (unfold Charts.at_index; now rewrite <- Hp, nth_error_middle).
  rewrite H1, H2.
  rewrite (mul_comm a b).
  specialize (IH y (px ++ [a]) (py ++ [b]) (acc + b * a)).
  rewrite <- !app_assoc in IH. simpl in IH.
  rewrite !length_app in IH. simpl in IH.
  replace (length px + 1)%nat with (S (length px)) in IH by lia.
  replace (length py + 1)%nat with (S (length py)) in IH by lia.
  apply IH; [now injection Hlen|lia].
Qed.

(** X6: for two arrays of one length [calculatePearsonCorrelation] does
    not depend on the order of its arguments, bit for bit (whatever it
    returns, [NaN] included). *)
Theorem pearson_symmetric (x y : list float) (Hlen : length x = length y) :
  Charts.calculatePearsonCorrelation x y = Charts.calculatePearsonCorrelation y x.
Proof.
  unfold Charts.calculatePearsonCorrelation. cbv zeta. rewrite <- Hlen.
  destruct (Nat.eqb (length x) 0); [reflexivity|].
  unfold reduce.
  pose proof (sum_of_products_comm x y [] [] 0 Hlen eq_refl) as Hxy.
  simpl app in Hxy. simpl length in Hxy. rewrite Hxy. clear Hxy.
  set (n := Js.of_nat (length x)).
  set (sumX := reduce_from (fun a b (_ : nat) => a + b) 0 x 0).
  set (sumY := reduce_from (fun a b (_ : nat) => a + b) 0 y 0).
  set (sumX2 := reduce_from (fun sum xi (_ : nat) => sum + xi * xi) 0 x 0).
  set (sumY2 := reduce_from (fun sum yi (_ : nat) => sum + yi * yi) 0 y 0).
  rewrite (mul_comm sumY sumX).
  rewrite (mul_comm (n * sumY2 - sumY * sumY) (n * sumX2 - sumX * sumX)).
  reflexivity.
Qed.

Lemma pearson_symmetric_witness :
  Charts.calculatePearsonCorrelation Samples.steady_wind Samples.rising_temperature
  = Charts.calculatePearsonCorrelation Samples.rising_temperature Samples.steady_wind.
Proof. apply pearson_symmetric. reflexivity. Defined.

Lemma column_length (f g : UnifiedDataPoint -> option float) (rows : list UnifiedDataPoint) :
  length (Matrix.column f rows) = length (Matrix.column g rows).
Proof. unfold Matrix.column. now rewrite !length_map. Qed.

Lemma matrix_cells (data : list UnifiedDataPoint) :
  Matrix.matrix data
  = let rows := filter Matrix.is_complete data in
    let pm := Matrix.column pm25 rows in
    let temp := Matrix.column temperature rows in
    let wind := Matrix.column windSpeed rows in
    let hum := Matrix.column humidity rows in
    let c := Charts.calculatePearsonCorrelation in
    [ Matrix.Build_cell "PM 2.5" "PM 2.5" (c pm pm); Matrix.Build_cell "PM 2.5" "Темп" (c pm temp);
      Matrix.Build_cell "PM 2.5" "Ветер" (c pm wind); Matrix.Build_cell "PM 2.5" "Влажн" (c pm hum);
      Matrix.Build_cell "Темп" "PM 2.5" (c temp pm); Matrix.Build_cell "Темп" "Темп" (c temp temp);
      Matrix.Build_cell "Темп" "Ветер" (c temp wind); Matrix.Build_cell "Темп" "Влажн" (c temp hum);
      Matrix.Build_cell "Ветер" "PM 2.5" (c wind pm); Matrix.Build_cell "Ветер" "Темп" (c wind temp);
      Matrix.Build_cell "Ветер" "Ветер" (c wind wind); Matrix.Build_cell "Ветер" "Влажн" (c wind hum);
      Matrix.Build_cell "Влажн" "PM 2.5" (c hum pm); Matrix.Build_cell "Влажн" "Темп" (c hum temp);
      Matrix.Build_cell "Влажн" "Ветер" (c hum wind); Matrix.Build_cell "Влажн" "Влажн" (c hum hum) ].
Proof. reflexivity. Qed.

Ltac split_label l s :=
  destruct (String.eqb_spec l s) as [<-|?].

(** X7: the correlation matrix has its sixteen cells in the order of the
    labels, its four series have one length, and the value shown at row
    [r], column [c] is the value shown at row [c], column [r] (a label that
    is none of the four shows 0).  When no data point has all four values,
    every cell is 0, the diagonal included. *)
Theorem correlation_matrix_symmetric (data : list UnifiedDataPoint) :
  map (fun c => (Matrix.x c, Matrix.y c)) (Matrix.matrix data)
  = list_prod (map fst (Matrix.factors data)) (map fst (Matrix.factors data))
  /\ Forall (fun f => length (snd f) = length (filter Matrix.is_complete data))
            (Matrix.factors data)
  /\ (forall rowLabel colLabel,
        Matrix.cellValue data rowLabel colLabel = Matrix.cellValue data colLabel rowLabel)
  /\ (filter Matrix.is_complete data = [] ->
        Forall (fun c => Matrix.value c = 0) (Matrix.matrix data)).
Proof.
  split; [reflexivity|]. split; [|split].
  - unfold Matrix.factors, Matrix.column. cbv zeta.
    repeat constructor; simpl; now rewrite length_map.
  - intros r c. unfold Matrix.cellValue. rewrite matrix_cells. cbv zeta.
    set (rows := filter Matrix.is_complete data).
    rewrite (pearson_symmetric (Matrix.column temperature rows) (Matrix.column pm25 rows))
      by apply column_length.
    rewrite (pearson_symmetric (Matrix.column windSpeed rows) (Matrix.column pm25 rows))
      by apply column_length.
    rewrite (pearson_symmetric (Matrix.column humidity rows) (Matrix.column pm25 rows))
      by apply column_length.
    rewrite (pearson_symmetric (Matrix.column windSpeed rows) (Matrix.column temperature rows))
      by apply column_length.
    rewrite (pearson_symmetric (Matrix.column humidity rows) (Matrix.column temperature rows))
      by apply column_length.
    rewrite (pearson_symmetric (Matrix.column humidity rows) (Matrix.column windSpeed rows))
      by apply column_length.
    generalize (Charts.calculatePearsonCorrelation (Matrix.column pm25 rows) (Matrix.column pm25 rows)).
    generalize (Charts.calculatePearsonCorrelation (Matrix.column pm25 rows) (Matrix.column temperature rows)).
    generalize (Charts.calculatePearsonCorrelation (Matrix.column pm25 rows) (Matrix.column windSpeed rows)).
    generalize (Charts.calculatePearsonCorrelation (Matrix.column pm25 rows) (Matrix.column humidity rows)).
    generalize (Charts.calculatePearsonCorrelation (Matrix.column temperature rows) (Matrix.column temperature rows)).
    generalize (Charts.calculatePearsonCorrelation (Matrix.column temperature rows) (Matrix.column windSpeed rows)).
    generalize (Charts.calculatePearsonCorrelation (Matrix.column temperature rows) (Matrix.column humidity rows)).
    generalize (Charts.calculatePearsonCorrelation (Matrix.column windSpeed rows) (Matrix.column windSpeed rows)).
    generalize (Charts.calculatePearsonCorrelation (Matrix.column windSpeed rows) (Matrix.column humidity rows)).
    generalize (Charts.calculatePearsonCorrelation (Matrix.column humidity rows) (Matrix.column humidity rows)).
    intros v44 v34 v33 v24 v23 v22 v14 v13 v12 v11.
    cbv [find Matrix.x Matrix.y Matrix.value].
    split_label "PM 2.5"%string r;
      [|split_label "Темп"%string r;
        [|split_label "Ветер"%string r; [|split_label "Влажн"%string r]]];
      (split_label "PM 2.5"%string c;
        [|split_label "Темп"%string c;
          [|split_label "Ветер"%string c; [|split_label "Влажн"%string c]]]);
      cbv; reflexivity.
  - intros Hnone. rewrite matrix_cells. cbv zeta. rewrite Hnone.
    repeat constructor.
Qed.

End CorrelationMatrix.

(* ===================================================================== *)
(** * JavaScript [Map]s with string keys *)
(* ===================================================================== *)

Section JsMap.

Context {V : Type}.

Lemma get_set_same (k : string) (v : V) (m : TrueHeatmap.jsmap V) :
  TrueHeatmap.get k (TrueHeatmap.set k v m) = Some v.
Proof.
  induction m as [|[k' v'] m IH]; simpl.
  - now rewrite String.eqb_refl.
  - destruct (String.eqb_spec k' k) as [->|Hne]; simpl.
    + now rewrite String.eqb_refl.
    + destruct (String.eqb_spec k' k); [contradiction|exact IH].
Qed.

Lemma get_set_other (k k' : string) (v : V) (m : TrueHeatmap.jsmap V) :
  k <> k' -> TrueHeatmap.get k' (TrueHeatmap.set k v m) = TrueHeatmap.get k' m.
Proof.
  intros Hne. induction m as [|[k0 v0] m IH]; simpl.
  - destruct (String.eqb_spec k k'); [contradiction|reflexivity].
  - destruct (String.eqb_spec k0 k) as [->|Hk]; simpl.
    + destruct (String.eqb_spec k k'); [contradiction|reflexivity].
    + destruct (String.eqb_spec k0 k'); [reflexivity|exact IH].
Qed.






End JsMap.

(* ===================================================================== *)
(** * [components/DashboardCharts.tsx]: the grid of [TrueHeatmap] *)
(* ===================================================================== *)

Section HeatmapGrid.

Local Open Scope float_scope.

Variable getDay : string -> Z.
Variable getHours : string -> Z.

(** Every slot key reads back as its slot. *)
Lemma slot_keys_read_back :
  forallb (fun p => match TrueHeatmap.slot_of_key (TrueHeatmap.slot_key (fst p) (snd p)) with
                    | Some q => (fst p =? fst q)%Z && (snd p =? snd q)%Z
                    | None => false
                    end)
          TrueHeatmap.slots = true.
Proof. vm_compute. reflexivity. Qed.

Lemma in_slots (d h : Z) :
  (0 <= d <= 6)%Z -> (0 <= h <= 23)%Z -> In (d, h) TrueHeatmap.slots.
Proof.
  intros Hd Hh. unfold TrueHeatmap.slots. apply in_prod.
  - apply in_map_iff. exists (Z.to_nat d). split; [lia|]. apply in_seq. lia.
  - apply in_map_iff. exists (Z.to_nat h). split; [lia|]. apply in_seq. lia.
Qed.

Lemma slot_of_slot_key (d h : Z) :
  (0 <= d <= 6)%Z -> (0 <= h <= 23)%Z ->
  TrueHeatmap.slot_of_key (TrueHeatmap.slot_key d h) = Some (d, h).
Proof.
  intros Hd Hh.
  pose proof (proj1 (forallb_forall _ _) slot_keys_read_back (d, h) (in_slots d h Hd Hh)) as H.
  cbv beta in H. cbn [fst snd] in H.
  destruct (TrueHeatmap.slot_of_key (TrueHeatmap.slot_key d h)) as [[d' h']|]; [|discriminate].
  apply andb_prop in H. destruct H as [H1 H2]. cbn [fst snd] in H1, H2.
  apply Z.eqb_eq in H1, H2. now subst.
Qed.

(** Two slots of the grid with one key are one slot. *)
Lemma slot_key_inj (d h d' h' : Z) :
  (0 <= d <= 6)%Z -> (0 <= h <= 23)%Z -> (0 <= d' <= 6)%Z -> (0 <= h' <= 23)%Z ->
  TrueHeatmap.slot_key d h = TrueHeatmap.slot_key d' h' -> d = d' /\ h = h'.
Proof.
  intros Hd Hh Hd' Hh' E.
  pose proof (slot_of_slot_key d h Hd Hh) as H1.
  pose proof (slot_of_slot_key d' h' Hd' Hh') as H2.
  rewrite E in H1. rewrite H1 in H2. now injection H2.
Qed.

Lemma dayIdx_of_range (ts : string) :
  (0 <= getDay ts <= 6)%Z -> (0 <= TrueHeatmap.dayIdx_of getDay ts <= 6)%Z.
Proof.
  intros H. unfold TrueHeatmap.dayIdx_of. cbv zeta.
  destruct (Z.eqb_spec (getDay ts - 1) (-1)); lia.
Qed.

(** What one pass of the loop does to the entry of a slot. *)
Lemma accumulate_slot (m : TrueHeatmap.jsmap TrueHeatmap.entry) (d : UnifiedDataPoint)
    (dIdx h : Z) :
  (pm25 d <> None -> TrueHeatmap.is_date getDay getHours (timestamp d)) ->
  (0 <= dIdx <= 6)%Z -> (0 <= h <= 23)%Z ->
  TrueHeatmap.get (TrueHeatmap.slot_key dIdx h) (TrueHeatmap.accumulate getDay getHours m d)
  = match TrueHeatmap.slot_readings getDay getHours [d] dIdx h with
    | [] => TrueHeatmap.get (TrueHeatmap.slot_key dIdx h) m
    | v :: _ =>
        match TrueHeatmap.get (TrueHeatmap.slot_key dIdx h) m with
        | Some e => Some {| TrueHeatmap.sum := TrueHeatmap.sum e + v;
                            TrueHeatmap.count := TrueHeatmap.count e + 1 |}
        | None => Some {| TrueHeatmap.sum := 0 + v; TrueHeatmap.count := 0 + 1 |}
        end
    end.
Proof.
  intros Hdate Hd Hh. unfold TrueHeatmap.accumulate, TrueHeatmap.slot_readings. simpl flat_map.
  destruct (pm25 d) as [v|]; [|reflexivity].
  destruct (Hdate ltac:(discriminate)) as [Hday Hhour].
  pose proof (dayIdx_of_range _ Hday) as Hidx.
  cbv zeta.
  set (kd := TrueHeatmap.slot_key (TrueHeatmap.dayIdx_of getDay (timestamp d))
                                  (getHours (timestamp d))).
  destruct (Z.eqb_spec (TrueHeatmap.dayIdx_of getDay (timestamp d)) dIdx) as [E1|N1];
    [destruct (Z.eqb_spec (getHours (timestamp d)) h) as [E2|N2]|]; simpl.
  - subst dIdx h. fold kd.
    destruct (TrueHeatmap.get kd m) as [e|] eqn:E.
    + rewrite E. apply get_set_same.
    + rewrite get_set_same. apply get_set_same.
  - assert (Hne : kd <> TrueHeatmap.slot_key dIdx h).
    { intros E. apply slot_key_inj in E; try assumption. tauto. }
    destruct (TrueHeatmap.get kd m) as [e|] eqn:E.
    + rewrite E. now apply get_set_other.
    + rewrite get_set_same. rewrite !get_set_other by exact Hne. reflexivity.
  - assert (Hne : kd <> TrueHeatmap.slot_key dIdx h).
    { intros E. apply slot_key_inj in E; try assumption. tauto. }
    destruct (TrueHeatmap.get kd m) as [e|] eqn:E.
    + rewrite E. now apply get_set_other.
    + rewrite get_set_same. rewrite !get_set_other by exact Hne. reflexivity.
Qed.

Lemma slot_readings_app (l1 l2 : list UnifiedDataPoint) (dIdx h : Z) :
  TrueHeatmap.slot_readings getDay getHours (l1 ++ l2) dIdx h
  = TrueHeatmap.slot_readings getDay getHours l1 dIdx h
    ++ TrueHeatmap.slot_readings getDay getHours l2 dIdx h.
Proof. unfold TrueHeatmap.slot_readings. apply flat_map_app. Qed.

Lemma slot_readings_one (d : UnifiedDataPoint) (dIdx h : Z) :
  TrueHeatmap.slot_readings getDay getHours [d] dIdx h = []
  \/ exists v, TrueHeatmap.slot_readings getDay getHours [d] dIdx h = [v].
Proof.
  unfold TrueHeatmap.slot_readings. simpl. rewrite app_nil_r.
  destruct (pm25 d); [|now left].
  destruct (_ && _); [right; eauto|now left].
Qed.

(** The map after the loop: a slot has an entry exactly when a point with a
    pm25 fell into it, and the entry holds the sum and the number of the
    slot's readings. *)
Lemma accumulated_slots (data : list UnifiedDataPoint) (dIdx h : Z) :
  (forall d, In d data -> pm25 d <> None -> TrueHeatmap.is_date getDay getHours (timestamp d)) ->
  (0 <= dIdx <= 6)%Z -> (0 <= h <= 23)%Z ->
  TrueHeatmap.get (TrueHeatmap.slot_key dIdx h)
                  (fold_left (TrueHeatmap.accumulate getDay getHours) data [])
  = match TrueHeatmap.slot_readings getDay getHours data dIdx h with
    | [] => None
    | vs => Some {| TrueHeatmap.sum := fold_left PrimFloat.add vs 0;
                    TrueHeatmap.count := fold_left (fun c _ => c + 1) vs 0 |}
    end.
Proof.
  intros Hdates Hd Hh. induction data as [|d data IH] using rev_ind; [reflexivity|].
  rewrite fold_left_app. simpl fold_left.
  rewrite accumulate_slot; [| |assumption|assumption].
  2:{ apply Hdates. apply in_or_app. right. now left. }
  rewrite IH by (intros d' Hin; apply Hdates; apply in_or_app; now left).
  rewrite slot_readings_app.
  destruct (slot_readings_one d dIdx h) as [-> | [v ->]].
  - now rewrite app_nil_r.
  - destruct (TrueHeatmap.slot_readings getDay getHours data dIdx h) as [|v0 vs].
    + reflexivity.
    + cbn [app].
      change (v0 :: vs ++ [v]) with ((v0 :: vs) ++ [v]).
      rewrite !fold_left_app. reflexivity.
Qed.

(** X8: the grid of [TrueHeatmap] has seven rows of 24 cells; for data
    whose timestamps are dates, the cell of day [dIdx] and hour [h] bears
    the day's name and the hour, and its value is null when no point with a
    pm25 falls on that weekday and hour, and otherwise the sum of those
    readings divided by their count (points without a pm25 are skipped). *)
Theorem true_heatmap_cells (data : list UnifiedDataPoint)
    (Hdates : forall d, In d data -> pm25 d <> None ->
                        TrueHeatmap.is_date getDay getHours (timestamp d)) :
  length (TrueHeatmap.grid getDay getHours data) = 7%nat
  /\ (forall dIdx h, (dIdx < 7)%nat -> (h < 24)%nat ->
        exists row,
          nth_error (TrueHeatmap.grid getDay getHours data) dIdx = Some row
          /\ length row = 24%nat
          /\ nth_error row h
             = Some {| TrueHeatmap.day := nth dIdx TrueHeatmap.days EmptyString;
                       TrueHeatmap.hour := Z.of_nat h;
                       TrueHeatmap.value :=
                         match TrueHeatmap.slot_readings getDay getHours data
                                 (Z.of_nat dIdx) (Z.of_nat h) with
                         | [] => None
                         | vs => Some (fold_left PrimFloat.add vs 0
                                       / fold_left (fun c _ => c + 1) vs 0)
                         end |}).
Proof.
  split; [reflexivity|].
  intros dIdx h Hd Hh. unfold TrueHeatmap.grid. cbv zeta.
  rewrite nth_error_mapi.
  rewrite (nth_error_nth' TrueHeatmap.days EmptyString) by (simpl; lia).
  cbn [option_map].
  match goal with |- exists row, Some ?r = Some row /\ _ => exists r end.
  split; [reflexivity|]. split; [rewrite length_map; reflexivity|].
  rewrite nth_error_map. unfold TrueHeatmap.hours. rewrite nth_error_map.
  rewrite (nth_error_nth' (seq 0 24) 0%nat) by (rewrite length_seq; lia).
  rewrite seq_nth by lia. cbn [option_map]. rewrite Nat.add_0_l.
  rewrite (accumulated_slots data (Z.of_nat dIdx) (Z.of_nat h) Hdates) by lia.
  destruct (TrueHeatmap.slot_readings getDay getHours data (Z.of_nat dIdx) (Z.of_nat h));
    reflexivity.
Qed.

End HeatmapGrid.

Lemma true_heatmap_cells_witness :
  exists row,
    nth_error (TrueHeatmap.grid AppSamples.getDay AppSamples.getHours
                 [Samples.point (Some 10%float); AppSamples.point_at_one (Some 30%float);
                  Samples.point (Some 16%float); Samples.point None]) 3 = Some row
    /\ length row = 24%nat
    /\ nth_error row 0
       = Some {| TrueHeatmap.day := "Чт"; TrueHeatmap.hour := 0;
                 TrueHeatmap.value := Some 13%float |}.
Proof.
  refine (proj2 (true_heatmap_cells AppSamples.getDay AppSamples.getHours
                   [Samples.point (Some 10%float); AppSamples.point_at_one (Some 30%float);
                    Samples.point (Some 16%float); Samples.point None] _) 3%nat 0%nat _ _);
    [|lia|lia].
  intros d Hin _. unfold TrueHeatmap.is_date.
  repeat (destruct Hin as [<-|Hin]; [vm_compute; intuition discriminate|]).
  destruct Hin.
Defined.

(* ===================================================================== *)
(** * The order of binary64 numbers *)
(* ===================================================================== *)

Section FloatOrder.

Local Open Scope float_scope.











(** [NaN] is not at or below any number, nor any number at or below it. *)
Lemma leb_nan (a b : float) : is_nan a = true \/ is_nan b = true -> (a <=? b) = false.
Proof.
  unfold is_nan. rewrite !FloatAxioms.eqb_spec, leb_spec.
  intros H. unfold SFleb.
  destruct (Prim2SF a) as [sa|sa| |sa ma ea] eqn:Ea; [| |reflexivity|];
    (destruct (Prim2SF b) as [sb|sb| |sb mb eb] eqn:Eb;
       [| |unfold SFcompare; try destruct sa; reflexivity|]);
    exfalso; destruct H as [H|H]; unfold SFeqb, SFcompare in H;
    try destruct sa; try destruct sb; try discriminate;
    rewrite Z.compare_refl in H;
    match type of H with
    | context [PosDef.Pos.compare_cont Eq ?m ?m] =>
        change (PosDef.Pos.compare_cont Eq m m) with (Pos.compare m m) in H;
        rewrite Pos.compare_refl in H
    end; discriminate.
Qed.

End FloatOrder.

(* ===================================================================== *)
(** * [App.tsx]: the monotonicity check of the timestamps *)
(* ===================================================================== *)

Section TimestampIssues.

Local Open Scope float_scope.

Variable getTime : string -> float.

Lemma timestampStep_pair pre d c rest issues :
  AppQa.timestampStep getTime (pre ++ d :: c :: rest) (S (length pre)) issues
  = if getTime (timestamp c) <=? getTime (timestamp d) then S issues else issues.
Proof.
  unfold AppQa.timestampStep.
  replace (S (length pre) - 1)%nat with (length pre) by lia.
  rewrite nth_error_middle.
  replace (pre ++ d :: c :: rest) with ((pre ++ [d]) ++ c :: rest)
    by (rewrite <- app_assoc; reflexivity).
  replace (S (length pre)) with (length (pre ++ [d]))
    by (rewrite length_app; simpl; lia).
  rewrite nth_error_middle. reflexivity.
Qed.

(** The indexed loop counts the adjacent pairs whose later time is not
    after the earlier one. *)
Lemma timestamp_loop_pairs rest : forall pre d issues,
  fold_left (fun a i => AppQa.timestampStep getTime (pre ++ d :: rest) i a)
            (seq (S (length pre)) (length rest)) issues
  = Nat.add issues
      (length (filter (fun p => getTime (timestamp (snd p)) <=? getTime (timestamp (fst p)))
                      (QaSpec.adjacent_pairs (d :: rest)))).
Proof.
  induction rest as [|c rest IH]; intros pre d issues; simpl; [lia|].
  rewrite timestampStep_pair.
  specialize (IH (pre ++ [d]) c).
  rewrite <- app_assoc in IH. simpl in IH.
  rewrite length_app in IH. simpl in IH.
  replace (length pre + 1)%nat with (S (length pre)) in IH by lia.
  rewrite IH. unfold QaSpec.adjacent_pairs. simpl.
  destruct (getTime (timestamp c) <=? getTime (timestamp d)); simpl; lia.
Qed.

Lemma adjacent_pairs_length {A : Type} (l : list A) :
  length (QaSpec.adjacent_pairs l) = (length l - 1)%nat.
Proof.
  unfold QaSpec.adjacent_pairs. rewrite length_combine.
  destruct l as [|a l]; [reflexivity|].
  cbn [tl length]. rewrite Nat.min_r by lia. lia.
Qed.

Lemma in_adjacent_pairs {A : Type} (l : list A) (p : A * A) :
  In p (QaSpec.adjacent_pairs l) -> In (fst p) l /\ In (snd p) l.
Proof.
  unfold QaSpec.adjacent_pairs. destruct p as [a b]. intros H. split.
  - exact (in_combine_l _ _ _ _ H).
  - apply in_combine_r in H. destruct l; [destruct H|]. now right.
Qed.

Lemma filter_none {A : Type} (f : A -> bool) (l : list A) :
  (forall a, In a l -> f a = false) -> filter f l = [].
Proof.
  induction l as [|a l IH]; intros H; simpl; [reflexivity|].
  rewrite (H a (or_introl eq_refl)). apply IH. intros b Hb. apply H. now right.
Qed.

(** X9: [timestampIssues] is the number of adjacent pairs of points whose
    later time is at or before the earlier time; it is at most
    [data.length - 1]; and a pair with a timestamp that is no date (its
    time is [NaN]) is never counted, so data whose timestamps are all
    unreadable reports no issue. *)
Theorem timestamp_issues_count (data : list UnifiedDataPoint) :
  AppQa.timestampIssues getTime data
  = length (filter (fun p => getTime (timestamp (snd p)) <=? getTime (timestamp (fst p)))
                   (QaSpec.adjacent_pairs data))
  /\ (AppQa.timestampIssues getTime data <= length data - 1)%nat
  /\ (forall p, In p (QaSpec.adjacent_pairs data) ->
        is_nan (getTime (timestamp (fst p))) = true
        \/ is_nan (getTime (timestamp (snd p))) = true ->
        (getTime (timestamp (snd p)) <=? getTime (timestamp (fst p))) = false)
  /\ ((forall d, In d data -> is_nan (getTime (timestamp d)) = true) ->
      AppQa.timestampIssues getTime data = 0%nat).
Proof.
  assert (Hcount : AppQa.timestampIssues getTime data
                   = length (filter (fun p => getTime (timestamp (snd p))
                                              <=? getTime (timestamp (fst p)))
                                    (QaSpec.adjacent_pairs data))).
  { unfold AppQa.timestampIssues, for_loop. destruct data as [|d rest]; [reflexivity|].
    simpl length. replace (S (length rest) - 1)%nat with (length rest) by lia.
    exact (timestamp_loop_pairs rest [] d 0%nat). }
  split; [exact Hcount|]. split; [|split].
  - rewrite Hcount, <- adjacent_pairs_length. apply filter_length_le.
  - intros p _ Hnan. apply leb_nan. tauto.
  - intros Hall. rewrite Hcount.
    rewrite filter_none; [reflexivity|].
    intros p Hin. apply in_adjacent_pairs in Hin.
    apply leb_nan. right. apply Hall. tauto.
Qed.

End TimestampIssues.

(* ===================================================================== *)
(** * [App.tsx]: the daily maxima and the days above the WHO limit *)
(* ===================================================================== *)

Section DailyMax.

Local Open Scope float_scope.

Variable toLocaleDateString : string -> string.




End DailyMax.

(* ===================================================================== *)
(** * The view [dm_dashboard_analytics] over what the loader stored *)
(* ===================================================================== *)

Section DashboardView.

Import Etl.

Lemma in_insert_desc (v r : View.view_row) (l : list View.view_row) :
  In v (View.insert_desc r l) <-> v = r \/ In v l.
Proof.
  induction l as [|r' l IH]; simpl.
  - split; [intros [<-|[]]; now left|intros [->|[]]; now left].
  - destruct (View.v_timestamp r' <? View.v_timestamp r)%Z; simpl.
    + split; intros [H|H]; auto.
    + rewrite IH. split; intros H; intuition (subst; auto).
Qed.

(** [ORDER BY] keeps the rows. *)
Lemma in_order_by (v : View.view_row) (l : list View.view_row) :
  In v (View.order_by_timestamp_desc l) <-> In v l.
Proof.
  unfold View.order_by_timestamp_desc. induction l as [|r l IH]; simpl; [tauto|].
  rewrite in_insert_desc, IH. split; intros [H|H]; auto.
Qed.

(** Under [UNIQUE(city_id, timestamp)] the rows of a key are the row
    [lookup] finds. *)
Lemma filter_key_lookup {V : Type} (k : key) (t : table V) :
  NoDup (keys t) ->
  filter (fun a => key_eqb (fst a) k) t
  = match lookup k t with Some v => [(k, v)] | None => [] end.
Proof.
  induction t as [|[k0 v0] t IH]; simpl; intros Hnd; [reflexivity|].
  inversion Hnd as [|? ? Hnotin Hnd']; subst.
  destruct (key_eqb k0 k) eqn:E.
  - apply key_eqb_eq in E. subst k0. rewrite (IH Hnd').
    now rewrite (lookup_absent k t Hnotin).
  - exact (IH Hnd').
Qed.

Lemma lookup_in {V : Type} (k : key) (v : V) (t : table V) :
  lookup k t = Some v -> In (k, v) t.
Proof.
  induction t as [|[k0 v0] t IH]; simpl; [discriminate|].
  destruct (key_eqb k0 k) eqn:E.
  - apply key_eqb_eq in E. subst k0. intros H. injection H as ->. now left.
  - intros H. right. auto.
Qed.

Lemma in_lookup {V : Type} (k : key) (v : V) (t : table V) :
  NoDup (keys t) -> In (k, v) t -> lookup k t = Some v.
Proof.
  induction t as [|[k0 v0] t IH]; simpl; [intros _ []|].
  intros Hnd [H|H].
  - injection H as -> ->. now rewrite key_eqb_refl.
  - inversion Hnd as [|? ? Hnotin Hnd']; subst.
    destruct (key_eqb k0 k) eqn:E; [|auto].
    apply key_eqb_eq in E. subst k0. exfalso. apply Hnotin.
    exact (in_map fst t (k, v) H).
Qed.

(** The rows of the join for a weather row and a city. *)
Lemma in_joined (v : View.view_row) (d : database) :
  In v (View.joined d)
  <-> exists w c aq,
        In w (fact_weather d) /\ In c (dim_city d) /\ city_id c = fst (fst w)
        /\ In aq (View.left_join_aq d w) /\ v = View.make_row c w aq.
Proof.
  unfold View.joined. rewrite in_flat_map. split.
  - intros (w & Hw & H). apply in_flat_map in H. destruct H as (c & Hc & H).
    destruct (Z.eqb_spec (city_id c) (fst (fst w))) as [E|E]; [|destruct H].
    apply in_map_iff in H. destruct H as (aq & <- & Haq).
    exists w, c, aq. auto.
  - intros (w & c & aq & Hw & Hc & E & Haq & ->).
    exists w. split; [exact Hw|]. apply in_flat_map. exists c. split; [exact Hc|].
    rewrite E, Z.eqb_refl. now apply in_map.
Qed.

Lemma left_join_unique (d : database) (w : key * weather_values) :
  NoDup (keys (fact_air_quality d)) ->
  View.left_join_aq d w = [lookup (fst w) (fact_air_quality d)].
Proof.
  intros Hnd. unfold View.left_join_aq. rewrite (filter_key_lookup _ _ Hnd).
  destruct (lookup (fst w) (fact_air_quality d)); reflexivity.
Qed.

Lemma find_city_row (n : string) (cities : list dim_city_row) (id : Z) :
  find_city n cities = Some id ->
  exists c, In c cities /\ name c = n /\ city_id c = id.
Proof.
  unfold find_city. destruct (find _ cities) as [c|] eqn:E; [|discriminate].
  intros H. injection H as <-. apply find_some in E. destruct E as [Hin Hn].
  apply String.eqb_eq in Hn. eauto.
Qed.

Lemma find_city_none (n : string) (cities : list dim_city_row) :
  find_city n cities = None -> ~ In n (map name cities).
Proof.
  unfold find_city. destruct (find _ cities) as [c|] eqn:E; [discriminate|].
  intros _ Hin. apply in_map_iff in Hin. destruct Hin as (c & <- & Hc).
  pose proof (find_none _ _ E c Hc) as H. simpl in H.
  rewrite String.eqb_refl in H. discriminate.
Qed.

Lemma same_name_same_city (cities : list dim_city_row) (c1 c2 : dim_city_row) :
  NoDup (map name cities) -> In c1 cities -> In c2 cities -> name c1 = name c2 -> c1 = c2.
Proof.
  induction cities as [|c cities IH]; simpl; [intros _ []|].
  intros Hnd H1 H2 E. inversion Hnd as [|? ? Hnotin Hnd']; subst.
  destruct H1 as [<-|H1], H2 as [<-|H2]; auto.
  - exfalso. apply Hnotin. rewrite E. now apply in_map.
  - exfalso. apply Hnotin. rewrite <- E. now apply in_map.
Qed.

(** What the column took of a string fits the column. *)
Lemma take_chars_fits (s : string) : forall n h t,
  take_chars n s = (h, t) -> take_chars n h = (h, EmptyString).
Proof.
  induction s as [|a s IH]; intros n h t; simpl.
  - intros [= <- <-]. reflexivity.
  - destruct (is_continuation a) eqn:Ea.
    + destruct (take_chars n s) as [h' t'] eqn:E. intros [= <- <-].
      simpl. rewrite Ea, (IH _ _ _ E). reflexivity.
    + destruct n as [|n]; [intros [= <- <-]; reflexivity|].
      destruct (take_chars n s) as [h' t'] eqn:E. intros [= <- <-].
      simpl. rewrite Ea, (IH _ _ _ E). reflexivity.
Qed.

Lemma varchar_fits (n : nat) (s h : string) : varchar n s = Ok h -> varchar n h = Ok h.
Proof.
  unfold varchar. destruct (take_chars n s) as [h' t] eqn:E.
  destruct (all_spaces t); [|discriminate]. intros [= <-].
  rewrite (take_chars_fits _ _ _ _ E). reflexivity.
Qed.

(** The loader keeps the constraints of the schema. *)
Lemma load_schema (serial : Z) (d d' : database) (c : City) (df : list row) :
  View.schema_holds d -> load serial d c df = Ok d' -> View.schema_holds d'.
Proof.
  intros ((Hw & Ha & Hn) & Hids & Hnames) Hload.
  destruct (load_ok _ _ _ _ _ Hload) as (cities & id & w & a & Hc & Hfw & Hfa & ->).
  assert (Hdim : (forall r, In r cities -> varchar 100 (name r) = Ok (name r))
                 /\ NoDup (map city_id cities) /\ NoDup (map name cities)).
  { revert Hc. unfold upsert_city, bind.
    destruct (varchar 100 (city_name c)) as [n|] eqn:En; [|discriminate].
    destruct (varchar 5 (country c)) as [cc|]; [|discriminate].
    destruct (to_decimal 9 6 (lat c)) as [la|]; [|discriminate].
    destruct (to_decimal 9 6 (lng c)) as [lo|]; [|discriminate].
    destruct (find_city n (dim_city d)) as [id0|] eqn:Ef.
    - destruct (find_city (city_name c) (dim_city d)); [|discriminate].
      intros [= <- <-]. auto.
    - destruct (existsb _ (dim_city d)) eqn:Ee; [discriminate|].
      intros [= <- <-]. split; [|split].
      + intros r Hr. apply in_app_iff in Hr as [Hr | [<- | []]]; [now apply Hn|].
        simpl. exact (varchar_fits _ _ _ En).
      + rewrite map_app. simpl.
        apply NoDup_app; [exact Hids | repeat constructor; intros [] |].
        intros i Hin [<- | []]. apply in_map_iff in Hin as (c0 & E0 & Hin).
        assert (He : existsb (fun r => (city_id r =? serial)%Z) (dim_city d) = true).
        { apply existsb_exists. exists c0. split; [exact Hin|]. now apply Z.eqb_eq. }
        congruence.
      + rewrite map_app. simpl.
        apply NoDup_app; [exact Hnames | repeat constructor; intros [] |].
        intros m Hin [<- | []]. exact (find_city_none _ _ Ef Hin). }
  destruct Hdim as (Hn' & Hids' & Hnames').
  repeat split; cbn [dim_city fact_weather fact_air_quality]; try assumption.
  - exact (execute_values_unique _ _ _ _ _ Hfw Hw).
  - exact (execute_values_unique _ _ _ _ _ Hfa Ha).
Qed.

(** X11: what the loader writes is what the dashboard view reads.  On a
    database that satisfies the constraints of the schema, after a load
    that was not refused the constraints still hold, and the view holds,
    for every loaded timestamp, the row made of the city's name, the
    timestamp and the values of the last row given for it as the columns
    store them, and no other row for that city and timestamp. *)
Theorem view_reads_back_load (serial : Z) (d d' : database) (c : City) (df : list row)
    (r : row)
    (Hschema : View.schema_holds d) (Hload : load serial d c df = Ok d')
    (Hin : In r df) :
  View.schema_holds d'
  /\ exists n r' wv av,
       varchar 100 (city_name c) = Ok n
       /\ EtlSpec.last_row_at (timestamp r) df = Some r'
       /\ store_weather (EtlSpec.weather_values_of r') = Ok wv
       /\ store_aq (EtlSpec.aq_values_of r') = Ok av
       /\ In (View.row_read_back n (timestamp r) wv av) (View.dm_dashboard_analytics d')
       /\ (forall v, In v (View.dm_dashboard_analytics d') ->
                     View.v_city_name v = n ->
                     View.v_timestamp v = timestamp r ->
                     v = View.row_read_back n (timestamp r) wv av).
Proof.
  pose proof (load_schema _ _ _ _ _ Hschema Hload) as Hschema'.
  split; [exact Hschema'|].
  destruct Hschema' as ((Hw & Ha & _) & Hids & Hnames).
  destruct Hschema as ((Hw0 & Ha0 & Hn0) & _).
  destruct (load_ok _ _ _ _ _ Hload) as (cities & id & w & a & Hc & Hfw & Hfa & ->).
  cbn [dim_city fact_weather fact_air_quality] in *.
  destruct (upsert_city_ok _ _ _ _ _ Hn0 Hc) as (n & En & Hfound & _).
  destruct (last_row_split r df Hin) as (r' & df1 & df2 & Hlast & Hdf & Hts & Hnot).
  assert (Hkey : forall l, ~ In (id, timestamp r') (map (pair id) (map timestamp l))
                           <-> ~ In (timestamp r') (map timestamp l))
    by (intros l; rewrite in_pair_keys; tauto).
  destruct (execute_values_lookup store_weather default_page_size
              (weather_data id df1) (weather_data id df2) (fact_weather d) w
              (id, timestamp r') (EtlSpec.weather_values_of r'))
    as (wv & Hwv & Hlw & _).
  { rewrite <- Hfw, Hdf. unfold weather_data. now rewrite map_app. }
  { rewrite weather_data_keys, Hkey, Hts. exact Hnot. }
  destruct (execute_values_lookup store_aq default_page_size
              (aq_data id df1) (aq_data id df2) (fact_air_quality d) a
              (id, timestamp r') (EtlSpec.aq_values_of r'))
    as (av & Hav & Hla & _).
  { rewrite <- Hfa, Hdf. unfold aq_data. now rewrite map_app. }
  { rewrite aq_data_keys, Hkey, Hts. exact Hnot. }
  rewrite Hts in Hlw, Hla.
  destruct (find_city_row _ _ _ Hfound) as (cr & Hcr & Hname & Hid).
  exists n, r', wv, av. repeat (split; [assumption|]).
  set (d' := {| dim_city := cities; fact_weather := w; fact_air_quality := a |}).
  assert (Hrow : View.row_read_back n (timestamp r) wv av
                 = View.make_row cr ((id, timestamp r), wv) (Some av)).
  { unfold View.row_read_back, View.make_row. simpl. now rewrite Hname. }
  split.
  - unfold View.dm_dashboard_analytics.
    apply (proj2 (in_order_by _ _)). apply (proj2 (in_joined _ _)).
    exists ((id, timestamp r), wv), cr, (Some av).
    split; [now apply lookup_in|]. split; [exact Hcr|]. split; [exact Hid|].
    split; [|exact Hrow].
    rewrite (left_join_unique d' _ Ha). simpl fst. cbn [d' fact_air_quality].
    rewrite Hla. now left.
  - intros v Hv Hvn Hvt. unfold View.dm_dashboard_analytics in Hv.
    apply (proj1 (in_order_by _ _)) in Hv. apply (proj1 (in_joined _ _)) in Hv.
    destruct Hv as ([[wid wts] wv0] & c0 & aq & Hw1 & Hc0 & Hid0 & Haq & ->).
    simpl in Hid0, Hvn, Hvt. subst wts.
    assert (c0 = cr) by (apply (same_name_same_city _ _ _ Hnames Hc0 Hcr); congruence).
    subst c0. subst wid. rewrite Hid in Hw1, Haq |- *.
    cbn [d' fact_weather] in Hw1.
    apply (in_lookup _ _ _ Hw) in Hw1. rewrite Hlw in Hw1. injection Hw1 as <-.
    rewrite (left_join_unique d' _ Ha) in Haq. simpl fst in Haq.
    cbn [d' fact_air_quality] in Haq. rewrite Hla in Haq.
    destruct Haq as [<-|[]]. symmetry. exact Hrow.
Qed.

Lemma view_reads_back_load_witness :
  exists d',
    load 1 empty_database EtlSamples.moscow EtlSamples.two_hours = Ok d'
    /\ In {| View.v_city_name := "Moscow"; View.v_timestamp := 1766620800;
             View.v_temperature := Some (1000 # 100)%Q;
             View.v_humidity := Some (5000 # 100)%Q;
             View.v_wind_speed := Some (500 # 100)%Q;
             View.v_pm10 := Some (2000 # 100)%Q;
             View.v_pm25 := Some (1400 # 100)%Q; View.v_predicted_pm25 := None |}
          (View.dm_dashboard_analytics d').
Proof.
  assert (H0 : View.schema_holds empty_database).
  { split; [split; [constructor | split; [constructor | intros r []]]|].
    split; constructor. }
  assert (Hin : In (EtlSamples.full_row 1766620800 14) EtlSamples.two_hours)
    by (now left).
  destruct (load 1 empty_database EtlSamples.moscow EtlSamples.two_hours) as [d'|e] eqn:E;
    [|vm_compute in E; discriminate].
  exists d'. split; [reflexivity|].
  destruct (view_reads_back_load 1 empty_database d' EtlSamples.moscow EtlSamples.two_hours
              (EtlSamples.full_row 1766620800 14) H0 E Hin)
    as (_ & n & r' & wv & av & Hn & Hr' & Hwv & Hav & Hrow & _).
  vm_compute in Hr'. injection Hr' as <-.
  vm_compute in Hn, Hwv, Hav.
  injection Hn as <-. injection Hwv as <-. injection Hav as <-. exact Hrow.
Defined.

End DashboardView.

(* ===================================================================== *)
(** * [main]: runs that all succeed, runs that all fail *)
(* ===================================================================== *)

Section MainRuns.

Import Etl.

Variable to_datetime : string -> option Z.
Variable model : Type.
Variable fit : list (Q * Q * Q) -> list Q -> model.
Variable predict : model -> Q * Q * Q -> Q.

Lemma run_city_sound (d d' : database) (c : city_run) (df : list row) :
  EtlRuns.sound_run to_datetime model fit predict c df ->
  load (serial c) d (city c) df = Ok d' ->
  run_city to_datetime model fit predict (connect d) c = (connect d', Ok tt).
Proof.
  intros [Hframe Hfault] Hload. unfold EtlRuns.frame_of in Hframe. unfold run_city.
  destruct (fetched c) as [[w aq]|e]; [|discriminate].
  destruct (transform_data to_datetime w aq) as [df0|e]; [|discriminate].
  destruct (train_and_predict_ml model fit predict df0) as [df1|e]; [|discriminate].
  injection Hframe as ->. rewrite Hfault.
  pose proof (load_to_db_load (serial c) d (city c) df) as H. now rewrite Hload in H.
Qed.

Lemma run_cities_sound (cities : list city_run) (frames : list (list row)) :
  Forall2 (EtlRuns.sound_run to_datetime model fit predict) cities frames ->
  forall d d',
    EtlRuns.loads d (combine cities frames) = Ok d' ->
    run_cities to_datetime model fit predict cities (connect d)
    = (connect d', map (fun c => (city_name (city c), Ok tt)) cities).
Proof.
  induction 1 as [|c df cities frames Hc _ IH]; intros d d' Hloads.
  - injection Hloads as <-. reflexivity.
  - simpl in Hloads. unfold bind in Hloads.
    destruct (load (serial c) d (city c) df) as [d1|e] eqn:E; [|discriminate].
    rewrite run_cities_cons, (run_city_sound d d1 c df Hc E). simpl fst. simpl snd.
    rewrite (IH d1 d' Hloads). reflexivity.
Qed.

(** X12: when no city's run fails and no statement of the loads is
    refused, [main] stores what loading the cities' frames one after the
    other stores, in the order of the list, and reports every city as
    done. *)
Theorem main_commits_sound_runs (cities : list city_run) (frames : list (list row))
    (d d' : database)
    (Hsound : Forall2 (EtlRuns.sound_run to_datetime model fit predict) cities frames)
    (Hloads : EtlRuns.loads d (combine cities frames) = Ok d') :
  main to_datetime model fit predict cities d
  = (d', map (fun c => (city_name (city c), Ok tt)) cities).
Proof.
  unfold main. rewrite (run_cities_sound cities frames Hsound d d' Hloads). reflexivity.
Qed.

(** A load that fails at one of its statements commits nothing. *)
Lemma load_to_db_fails (f : load_step * failure) (conn : connection) (serial : Z)
    (df : list row) (c : City) :
  (exists e, snd (load_to_db (Some f) conn serial df c) = Raise e)
  /\ committed (fst (load_to_db (Some f) conn serial df c)) = committed conn.
Proof.
  unfold load_to_db, raised, refused.
  destruct (aborted conn); [split; [eexists|]; reflexivity|].
  destruct (fails_at (Some f) UpsertCity) eqn:E1; [split; [eexists|]; reflexivity|].
  destruct (upsert_city serial c _) as [[cities id]|e]; [|split; [eexists|]; reflexivity].
  destruct (fails_at (Some f) InsertWeather) eqn:E2; [split; [eexists|]; reflexivity|].
  destruct (execute_values store_weather _ _ _) as [w|e]; [|split; [eexists|]; reflexivity].
  destruct (fails_at (Some f) InsertAirQuality) eqn:E3; [split; [eexists|]; reflexivity|].
  destruct (execute_values store_aq _ _ _) as [a|e]; [|split; [eexists|]; reflexivity].
  destruct (fails_at (Some f) Commit) eqn:E4; [split; [eexists|]; reflexivity|].
  exfalso. destruct f as [[| | |] how]; discriminate.
Qed.

Lemma run_city_failing (conn : connection) (c : city_run) :
  EtlRuns.failing_run to_datetime model fit predict c ->
  (exists e, snd (run_city to_datetime model fit predict conn c) = Raise e)
  /\ committed (fst (run_city to_datetime model fit predict conn c)) = committed conn.
Proof.
  unfold EtlRuns.failing_run, EtlRuns.frame_of, run_city. intros H.
  destruct (fetched c) as [[w aq]|e]; [|split; [eexists|]; reflexivity].
  destruct (transform_data to_datetime w aq) as [df0|e]; [|split; [eexists|]; reflexivity].
  destruct (train_and_predict_ml model fit predict df0) as [df1|e];
    [|split; [eexists|]; reflexivity].
  destruct H as [H|H]; [discriminate|].
  destruct (storage_fault c) as [f|]; [|contradiction].
  exact (load_to_db_fails f conn (serial c) df1 (city c)).
Qed.

Lemma run_cities_failing (cities : list city_run) :
  Forall (EtlRuns.failing_run to_datetime model fit predict) cities ->
  forall conn,
    committed (fst (run_cities to_datetime model fit predict cities conn)) = committed conn
    /\ Forall (fun o => exists e, snd o = Raise e)
              (snd (run_cities to_datetime model fit predict cities conn)).
Proof.
  induction 1 as [|c cities Hc _ IH]; intros conn; [split; [reflexivity|constructor]|].
  rewrite run_cities_cons. simpl fst. simpl snd.
  destruct (run_city_failing conn c Hc) as [He Hcommitted].
  destruct (IH (fst (run_city to_datetime model fit predict conn c))) as [IH1 IH2].
  split; [congruence|]. constructor; [exact He|exact IH2].
Qed.

Lemma run_cities_names (cities : list city_run) : forall conn,
  map fst (snd (run_cities to_datetime model fit predict cities conn))
  = map (fun c => city_name (city c)) cities.
Proof.
  induction cities as [|c cities IH]; intros conn; [reflexivity|].
  rewrite run_cities_cons. simpl. now rewrite IH.
Qed.

(** X13: [main] reports one outcome per city, in the order of the list,
    whatever fails; and when every city's run fails (at the fetch, in the
    transform, in the forecast or at a statement of its load) the database
    after [main] is the database before: nothing is committed without a
    load that reaches its commit. *)
Theorem main_stores_nothing_without_a_commit (cities : list city_run) (d : database) :
  map fst (snd (main to_datetime model fit predict cities d))
  = map (fun c => city_name (city c)) cities
  /\ (Forall (EtlRuns.failing_run to_datetime model fit predict) cities ->
      fst (main to_datetime model fit predict cities d) = d
      /\ Forall (fun o => exists e, snd o = Raise e)
                (snd (main to_datetime model fit predict cities d))).
Proof.
  unfold main.
  pose proof (run_cities_names cities (connect d)) as Hnames.
  split.
  - destruct (run_cities to_datetime model fit predict cities (connect d)). exact Hnames.
  - intros Hfail. destruct (run_cities_failing cities Hfail (connect d)) as [H1 H2].
    destruct (run_cities to_datetime model fit predict cities (connect d)) as [conn log].
    split; [exact H1|exact H2].
Qed.

End MainRuns.

Lemma main_commits_sound_runs_witness :
  exists frames d',
    EtlRuns.loads Etl.empty_database
      (combine [EtlSamples.moscow_run; EtlSamples.berlin_sound_run] frames) = Etl.Ok d'
    /\ Etl.main EtlSamples.to_datetime Q EtlSamples.fit_mean EtlSamples.predict_mean
         [EtlSamples.moscow_run; EtlSamples.berlin_sound_run] Etl.empty_database
       = (d', [("Moscow"%string, Etl.Ok tt); ("Berlin"%string, Etl.Ok tt)]).
Proof.
  destruct (EtlRuns.frame_of EtlSamples.to_datetime Q EtlSamples.fit_mean
              EtlSamples.predict_mean EtlSamples.moscow_run) as [df|] eqn:E;
    [|vm_compute in E; discriminate].
  assert (E' : EtlRuns.frame_of EtlSamples.to_datetime Q EtlSamples.fit_mean
                 EtlSamples.predict_mean EtlSamples.berlin_sound_run = Some df)
    by (rewrite <- E; reflexivity).
  destruct (EtlRuns.loads Etl.empty_database
              (combine [EtlSamples.moscow_run; EtlSamples.berlin_sound_run] [df; df]))
    as [d'|e] eqn:El.
  - exists [df; df], d'. split; [exact El|].
    apply (main_commits_sound_runs EtlSamples.to_datetime Q EtlSamples.fit_mean
             EtlSamples.predict_mean [EtlSamples.moscow_run; EtlSamples.berlin_sound_run]
             [df; df] Etl.empty_database d'); [|exact El].
    repeat constructor; assumption.
  - exfalso. vm_compute in E. injection E as <-. vm_compute in El. discriminate.
Defined.

Lemma main_stores_nothing_without_a_commit_witness :
  fst (Etl.main EtlSamples.to_datetime Q EtlSamples.fit_mean EtlSamples.predict_mean
         [EtlSamples.moscow_failing_run Etl.OnServer; EtlSamples.berlin_run]
         Etl.empty_database)
  = Etl.empty_database.
Proof.
  refine (proj1 (proj2 (main_stores_nothing_without_a_commit EtlSamples.to_datetime Q
                          EtlSamples.fit_mean EtlSamples.predict_mean
                          [EtlSamples.moscow_failing_run Etl.OnServer; EtlSamples.berlin_run]
                          Etl.empty_database) _)).
  constructor; [right; discriminate|].
  constructor; [left; vm_compute; reflexivity|constructor].
Defined.
